(** * HostlistsRegistry: revision tracking, metadata aggregation and
      locale folding

    A shallow embedding of the hostlists builder ([build] and its helpers)
    and of the service-group localisation script
    ([scripts/services/add-localizations.js]), with the properties of the
    registry specification stated and settled against it.

    Conventions of the embedding:
    - a JavaScript string is a [string]; positions are counted in
      characters of that string;
    - a JavaScript number that the code treats as an integer is a [Z];
      [NaN] is a separate constructor where the code can produce it;
    - an object used as a dictionary is a [gmap string _]; an object whose
      key order matters (because the code iterates over it) is an
      association list in iteration order;
    - the file system is a finite map from paths to parsed file contents,
      together with the trace of the [writeFile] calls;
    - external collaborators (the md5 digest, the hostlist compiler, the
      mastodon server list, the directory listing, the clock) are section
      variables. *)

From Stdlib Require Import ZArith String Ascii List Lia.
From stdpp Require Import base option list gmap strings pretty.

Open Scope string_scope.
Open Scope Z_scope.

(** ** JavaScript string primitives used by the sources *)

Module Js.

(** [s.startsWith(p)] *)
Definition startsWith (s p : string) : bool := String.prefix p s.

(** Clamp an index argument into [0, len], as [indexOf] and [substring]
    do with their position arguments. *)
Definition clamp (len : nat) (i : Z) : nat :=
  Z.to_nat (Z.min (Z.max i 0) (Z.of_nat len)).

Fixpoint drop_str (n : nat) (s : string) : string :=
  match n, s with
  | O, _ => s
  | S _, EmptyString => EmptyString
  | S n', String _ r => drop_str n' r
  end.

(** First position (counted from [i]) at which [sub] starts in [s]. *)
Fixpoint find_first (sub s : string) (i : nat) : option nat :=
  if String.prefix sub s then Some i
  else match s with
       | EmptyString => None
       | String _ r => find_first sub r (S i)
       end.

(** Last position (counted from [i]) at which [sub] starts in [s]. *)
Fixpoint find_last (sub s : string) (i : nat) : option nat :=
  match s with
  | EmptyString => if String.prefix sub s then Some i else None
  | String _ r =>
      match find_last sub r (S i) with
      | Some j => Some j
      | None => if String.prefix sub s then Some i else None
      end
  end.

(** [s.indexOf(sub, from)]; [-1] when there is no occurrence. *)
Definition indexOf (s sub : string) (from : Z) : Z :=
  let k := clamp (String.length s) from in
  match find_first sub (drop_str k s) k with
  | Some i => Z.of_nat i
  | None => -1
  end.

(** [s.lastIndexOf(sub)] *)
Definition lastIndexOf (s sub : string) : Z :=
  match find_last sub s 0 with
  | Some i => Z.of_nat i
  | None => -1
  end.

(** [s.substring(start, end)]: both arguments are clamped into
    [0, length] and swapped when [start > end]; a missing [end] is the
    length of the string. *)
Definition substring (s : string) (start : Z) (end_ : option Z) : string :=
  let len := String.length s in
  let a := clamp len start in
  let b := match end_ with Some e => clamp len e | None => len end in
  String.substring (Nat.min a b) (Nat.max a b - Nat.min a b) s.

(** [s.split(sep)] for a one-character separator. *)
Fixpoint split (sep : ascii) (s : string) : list string :=
  match s with
  | EmptyString => [EmptyString]
  | String c r =>
      if Ascii.eqb c sep then EmptyString :: split sep r
      else match split sep r with
           | h :: t => String c h :: t
           | [] => [String c EmptyString]
           end
  end.

(** [parts.join(sep)] *)
Fixpoint join (sep : string) (parts : list string) : string :=
  match parts with
  | [] => EmptyString
  | [p] => p
  | p :: rest => p +:+ sep +:+ join sep rest
  end.

(** A number as [parseInt] and the arithmetic of the builder see it: an
    integer, or [NaN]. The integers are exact; JavaScript's numbers are
    exact up to 2^53 in magnitude and rounded beyond, so a statement about
    a number the source computes holds for values within that bound. *)
Inductive Number :=
  | Num (n : Z)
  | NaN.

(** White space as [parseInt] and [trim] skip it, among the characters of
    ASCII: the space and the controls 9 to 13. *)
Definition is_white (c : ascii) : bool :=
  let n := nat_of_ascii c in
  (Nat.eqb n 32 || (Nat.leb 9 n && Nat.leb n 13))%bool.

Fixpoint skip_white (s : string) : string :=
  match s with
  | String c r => if is_white c then skip_white r else s
  | EmptyString => s
  end.

Definition digit_of (c : ascii) : option Z :=
  let n := nat_of_ascii c in
  if (Nat.leb 48 n && Nat.leb n 57)%bool then Some (Z.of_nat (n - 48)) else None.

(** The value of the longest prefix of decimal digits, [None] when the
    string does not start with a digit. *)
Fixpoint read_digits (s : string) (acc : option Z) : option Z :=
  match s with
  | String c r =>
      match digit_of c with
      | Some d => read_digits r (Some (10 * default 0 acc + d))
      | None => acc
      end
  | EmptyString => acc
  end.

(** [parseInt(s, 10)]: leading white space, an optional sign, then the
    longest run of digits; [NaN] when there is no digit. *)
Definition parseInt (s : string) : Number :=
  let t := skip_white s in
  let '(neg, u) :=
    match t with
    | String "-" r => (true, r)
    | String "+" r => (false, r)
    | _ => (false, t)
    end in
  match read_digits u None with
  | Some n => Num (if neg then - n else n)
  | None => NaN
  end.

Definition mul (a : Number) (k : Z) : Number :=
  match a with
  | Num n => Num (n * k)
  | NaN => NaN
  end.

(** [s.trim()] *)
Fixpoint trim_end (s : string) : string :=
  match s with
  | EmptyString => EmptyString
  | String c r =>
      match trim_end r with
      | EmptyString => if is_white c then EmptyString else String c EmptyString
      | r' => String c r'
      end
  end.

Definition trim (s : string) : string := trim_end (skip_white s).

End Js.

(** ** The hostlists builder *)

Module Builder.

Definition HOSTLISTS_URL : string :=
  "https://adguardteam.github.io/HostlistsRegistry/assets".

Definition CONFIGURATION_FILE : string := "configuration.json".
Definition REVISION_FILE : string := "revision.json".
Definition METADATA_FILE : string := "metadata.json".
Definition SERVICES_FILE : string := "services.json".

Definition FILTERS_METADATA_FILE : string := "filters.json".
Definition FILTERS_METADATA_DEV_FILE : string := "filters-dev.json".
Definition FILTERS_I18N_METADATA_FILE : string := "filters_i18n.json".

(** [path.join(a, b)] on operands that need no normalisation. *)
Definition path_join (a b : string) : string := a +:+ "/" +:+ b.

(** [path.basename(p)] for a path without a trailing separator: the part
    after the last "/". *)
Definition basename (p : string) : string :=
  List.last (Js.split "/" p) EmptyString.

(** *** Revisions *)

(** The object kept in [revision.json]. The record that [build] makes up
    when there is no revision file has no [hash] property. *)
Record Revision := {
  timeUpdated : Z;
  hash : option string;
}.

(** [makeRevision(currentRevision, hash)], with the reading of the clock
    ([new Date().getTime()]) passed in as [now]. *)
Definition makeRevision (now : Z) (currentRevision : option Revision)
    (newHash : string) : Revision :=
  let result := {| timeUpdated := now; hash := Some newHash |} in
  match currentRevision with
  | Some current =>
      if decide (hash current = hash result)
      then {| timeUpdated := timeUpdated current; hash := hash result |}
      else result
  | None => result
  end.

(** [Buffer.from(s)] for a binary string (character codes below 256): the
    UTF-8 bytes of the string. *)
Fixpoint Buffer_from (s : string) : list Z :=
  match s with
  | EmptyString => []
  | String c r =>
      let n := Z.of_nat (nat_of_ascii c) in
      if n <? 128 then n :: Buffer_from r
      else Z.lor 192 (Z.shiftr n 6) :: Z.lor 128 (Z.land n 63) :: Buffer_from r
  end.

Definition base64_alphabet : string :=
  "ABCDEFGHIJKLMNOPQRSTUVWXYZabcdefghijklmnopqrstuvwxyz0123456789+/".

Definition base64_digit (n : Z) : ascii :=
  default "="%char (String.get (Z.to_nat n) base64_alphabet).

(** [buffer.toString('base64')] *)
Fixpoint toString_base64 (bytes : list Z) : string :=
  match bytes with
  | [] => EmptyString
  | [a] =>
      String (base64_digit (Z.shiftr a 2))
        (String (base64_digit (Z.shiftl (Z.land a 3) 4)) "==")
  | [a; b] =>
      String (base64_digit (Z.shiftr a 2))
        (String (base64_digit (Z.lor (Z.shiftl (Z.land a 3) 4) (Z.shiftr b 4)))
           (String (base64_digit (Z.shiftl (Z.land b 15) 2)) "="))
  | a :: b :: c :: rest =>
      String (base64_digit (Z.shiftr a 2))
        (String (base64_digit (Z.lor (Z.shiftl (Z.land a 3) 4) (Z.shiftr b 4)))
           (String (base64_digit (Z.lor (Z.shiftl (Z.land b 15) 2) (Z.shiftr c 6)))
              (String (base64_digit (Z.land c 63)) (toString_base64 rest))))
  end.

Definition LAST_MODIFIED : string := "! Last modified:".

Section Hash.

(** [md5(data, { asString: true })] of the md5 package: the digest as a
    binary string. *)
Variable md5 : string -> string.

(** [calculateRevisionHash(compiled)] *)
Definition calculateRevisionHash (compiled : list string) : string :=
  let data :=
    Js.join (String "010"%char EmptyString)
      (List.filter (fun s => negb (Js.startsWith s LAST_MODIFIED)) compiled) in
  Js.trim (toString_base64 (Buffer_from (md5 data))).

End Hash.

(** *** The [expires] field *)

(** The values that [replaceExpires] handles and returns. *)
Inductive JsValue :=
  | JUndefined
  | JNumber (n : Js.Number)
  | JString (s : string).

(** Truthiness, as [if (v)] and [v || d] test it. *)
Definition truthy (v : JsValue) : bool :=
  match v with
  | JUndefined => false
  | JNumber (Js.Num n) => negb (n =? 0)
  | JNumber Js.NaN => false
  | JString s => negb (String.eqb s EmptyString)
  end.

(** [Number.isNaN(v)]: no coercion, only the number [NaN] qualifies. *)
Definition Number_isNaN (v : JsValue) : bool :=
  match v with
  | JNumber Js.NaN => true
  | _ => false
  end.

(** [v || d] *)
Definition or_else (v d : JsValue) : JsValue := if truthy v then v else d.

(** [replaceExpires(expires)]; the argument is the [expires] property of
    the metadata: a string, or [None] when it is absent. *)
Definition replaceExpires (expires : option string) : JsValue :=
  match expires with
  | Some s =>
      let expires0 := JString s in
      if truthy expires0 then
        let expires1 :=
          if 0 <? Js.indexOf s "day" 0
          then JNumber (Js.mul (Js.mul (Js.mul (Js.parseInt s) 24) 60) 60)
          else if 0 <? Js.indexOf s "hour" 0
          then JNumber (Js.mul (Js.mul (Js.parseInt s) 60) 60)
          else expires0 in
        let expires2 :=
          if Number_isNaN expires1 then JNumber (Js.Num 86400) else expires1 in
        or_else expires2 (JNumber (Js.Num 86400))
      else or_else expires0 (JNumber (Js.Num 86400))
  | None => or_else JUndefined (JNumber (Js.Num 86400))
  end.

(** *** Locale keys *)

Record Info := {
  info_id : string;
  info_message : string;
}.

(** [parseInfo(string, mask)] *)
Definition parseInfo (str mask : string) : Info :=
  let searchIndex := Js.indexOf str mask 0 + Z.of_nat (String.length mask) in
  {| info_id := Js.substring str searchIndex (Some (Js.indexOf str "." searchIndex));
     info_message := Js.substring str (Js.lastIndexOf str "." + 1) None |}.

(** *** Data read from and written to the registry *)

(** [metadata.json] of one hostlist. *)
Record Metadata := {
  filterId : Z;
  id : Z;
  name : string;
  description : string;
  tags : list string;
  homepage : string;
  expires : option string;
  displayNumber : Z;
  timeAdded : Z;
  environment : string;
  disabled : bool;
}.

Record Source := {
  source : string;
}.

(** [configuration.json] of one hostlist, as far as [build] looks into it. *)
Record HostlistConfiguration := {
  sources : list Source;
}.

(** One entry of the [filters] array of the catalogs. *)
Record FilterMetadata := {
  fm_filterId : Z;
  fm_id : Z;
  fm_name : string;
  fm_description : string;
  fm_tags : list string;
  fm_homepage : string;
  fm_expires : JsValue;
  fm_displayNumber : Z;
  fm_downloadUrl : string;
  fm_sourceUrl : string;
  fm_timeAdded : Z;
  fm_timeUpdated : Z;
}.

Record Tag := {
  tagId : Z;
  keyword : string;
}.

(** [{ filters: ..., tags: ... }]; [tags] is [null] when the tags metadata
    file does not exist. *)
Record Catalog := {
  cat_filters : list FilterMetadata;
  cat_tags : option (list Tag);
}.

Record Service := {
  service_id : string;
  service_rules : list string;
}.

Record Services := {
  blocked_services : list Service;
}.

(** id -> locale -> field -> translation *)
Abbreviation LocalizationEntry := (gmap string (gmap string (gmap string string))).

Record Localizations := {
  loc_tags : LocalizationEntry;
  loc_filters : LocalizationEntry;
}.

(** A message object of a locale file: its properties in the order of
    [Object.keys]. *)
Abbreviation Message := (list (string * string)).

(** The content of a file. JSON files are kept parsed; [Unparsable] is a
    text that [JSON.parse] rejects. *)
Inductive File :=
  | Unparsable
  | Text (content : string)
  | MetadataJson (m : Metadata)
  | ConfigurationJson (c : HostlistConfiguration)
  | RevisionJson (r : Revision)
  | ServicesJson (s : Services)
  | TagsJson (t : list Tag)
  | CatalogJson (c : Catalog)
  | MessagesJson (m : list Message)
  | I18nJson (l : Localizations).

Definition as_metadata (f : File) : option Metadata :=
  match f with MetadataJson m => Some m | _ => None end.
Definition as_configuration (f : File) : option HostlistConfiguration :=
  match f with ConfigurationJson c => Some c | _ => None end.
Definition as_revision (f : File) : option Revision :=
  match f with RevisionJson r => Some r | _ => None end.
Definition as_services (f : File) : option Services :=
  match f with ServicesJson s => Some s | _ => None end.
Definition as_tags (f : File) : option (list Tag) :=
  match f with TagsJson t => Some t | _ => None end.
Definition as_messages (f : File) : option (list Message) :=
  match f with MessagesJson m => Some m | _ => None end.

(** *** The build monad: a file system, the trace of writes, a clock *)

(** The file system holds parsed contents, and the calls of [fs] that
    reach an existing file or write one succeed: the model covers the runs
    in which the operating system refuses nothing. *)
Record World := {
  files : gmap string File;
  written : list string;
  ticks : nat;
}.

(** The exceptions of the build: [JSON.parse] rejects the content of the
    file at [path]; a property is read of the [null] that the missing file
    at [path] was parsed to; "Failed to compile" the hostlist [list_id];
    the mastodon server list cannot be compiled; "Mastodon service not
    found". *)
Inductive Error :=
  | SyntaxError (path : string)
  | TypeError (path : string)
  | CompileFailed (list_id : Z)
  | MastodonCompileFailed
  | MastodonNotFound.

Inductive Outcome (A : Type) :=
  | Returned (a : A)
  | Thrown (e : Error).
Arguments Returned {A} a.
Arguments Thrown {A} e.

Definition Build (A : Type) : Type := World -> Outcome A * World.

Definition ret {A} (a : A) : Build A := fun w => (Returned a, w).

Definition throw {A} (e : Error) : Build A := fun w => (Thrown e, w).

Definition bind {A B} (c : Build A) (k : A -> Build B) : Build B :=
  fun w =>
    match c w with
    | (Returned a, w') => k a w'
    | (Thrown e, w') => (Thrown e, w')
    end.

Notation "'let*' x ':=' c 'in' k" := (bind c (fun x => k))
  (at level 10, x name, c at level 100, k at level 200).
Notation "c ';;' k" := (bind c (fun _ => k))
  (at level 100, k at level 200, right associativity).

(** A loop that threads an accumulator and stops at the first exception. *)
Fixpoint foldM {A B} (body : A -> B -> Build A) (acc : A) (l : list B) : Build A :=
  match l with
  | [] => ret acc
  | x :: rest => let* acc' := body acc x in foldM body acc' rest
  end.

(** [readFile(path)]: [null] for a file that does not exist. *)
Definition readFile (path : string) : Build (option File) :=
  fun w => (Returned (files w !! path), w).

(** [writeFile(path, data)] *)
Definition writeFile (path : string) (data : File) : Build unit :=
  fun w =>
    (Returned tt,
     {| files := <[path := data]> (files w);
        written := written w ++ [path];
        ticks := ticks w |}).

(** [JSON.parse(readFile(path))], for a file expected to hold a value of
    the shape that [shape] recognises: [null] when the file is missing
    ([JSON.parse(null)] is [null]), an exception for any other content. *)
Definition parse {A} (shape : File -> option A) (path : string) : Build (option A) :=
  let* content := readFile path in
  match content with
  | None => ret None
  | Some f =>
      match shape f with
      | Some a => ret (Some a)
      | None => throw (SyntaxError path)
      end
  end.

(** A property access on a value that may be [null]. *)
Definition nonnull {A} (path : string) (v : option A) : Build A :=
  match v with
  | Some a => ret a
  | None => throw (TypeError path)
  end.

(** *** Locale folding *)

Inductive PropName := prop_tags | prop_filters.

#[global] Instance PropName_eq_dec : EqDecision PropName.
Proof. solve_decision. Defined.

Record Item := {
  file : string;
  prefix : string;
  propName : PropName;
}.

Definition get_prop (result : Localizations) (p : PropName) : LocalizationEntry :=
  match p with
  | prop_tags => loc_tags result
  | prop_filters => loc_filters result
  end.

Definition set_prop (result : Localizations) (p : PropName)
    (e : LocalizationEntry) : Localizations :=
  match p with
  | prop_tags => {| loc_tags := e; loc_filters := loc_filters result |}
  | prop_filters => {| loc_tags := loc_tags result; loc_filters := e |}
  end.

(** The body of the loop over the properties of one message object. The
    objects of [result] are maps of their own properties, which is what the
    source sees of them as long as no id and no locale is a name that every
    object inherits from [Object.prototype] ([__proto__], [constructor],
    [toString], ...) and no message is [__proto__]: [Spec.ordinaryLocale]
    says so of a locale directory. *)
Definition addProperty (locale : string) (item : Item) (result : Localizations)
    (entry : string * string) : Localizations :=
  let '(property, value) := entry in
  let info := parseInfo property (prefix item) in
  if String.eqb (info_id info) EmptyString then result
  else
    let id := info_id info in
    let forProp := get_prop result (propName item) in
    let forId := default ∅ (forProp !! id) in
    let forLocale := default ∅ (forId !! locale) in
    set_prop result (propName item)
      (<[id := <[locale := <[info_message info := value]> forLocale]> forId]> forProp).

Definition addMessages (locale : string) (item : Item) (result : Localizations)
    (messagesJson : list Message) : Localizations :=
  fold_left (fun r message => fold_left (addProperty locale item) message r)
    messagesJson result.

(** The two files of a locale directory, in the order in which
    [loadLocales] reads them. *)
Definition localeItems (localeDir : string) : list Item :=
  [ {| file := path_join localeDir "tags.json";
       prefix := "hostlisttag.";
       propName := prop_tags |};
    {| file := path_join localeDir "filters.json";
       prefix := "hostlist.";
       propName := prop_filters |} ].

Definition loadItem (locale : string) (result : Localizations) (item : Item)
    : Build Localizations :=
  let* messagesJson := parse as_messages (file item) in
  match messagesJson with
  | Some messages => ret (addMessages locale item result messages)
  | None => ret result
  end.

Definition loadLocaleDir (result : Localizations) (localeDir : string)
    : Build Localizations :=
  let locale := basename localeDir in
  foldM (loadItem locale) result (localeItems localeDir).

(** The catalogs under construction: [filtersMetadata] and
    [filtersMetadataDev]. *)
Abbreviation Catalogs := (list FilterMetadata * list FilterMetadata)%type.

Section Collaborators.

(** [listDirs(baseDir)]: the paths of the directories in [baseDir]. *)
Variable listDirs : string -> list string.

(** [listFiltersDirs(baseDir)]: the paths of the directories below
    [baseDir] that hold a [configuration.json]. *)
Variable listFiltersDirs : string -> list string.

(** [new Date().getTime()] at the n-th reading of the clock. *)
Variable clock : nat -> Z.

(** [md5(data, { asString: true })] *)
Variable md5 : string -> string.

(** The hostlist compiler: the compiled rules, or [None] when it throws.
    It is handed whatever [readHostlistConfiguration] returned. *)
Variable hostlistCompiler : option HostlistConfiguration -> option (list string).

(** The mastodon server list, or [None] when its compiler throws. *)
Variable mastodonServerlistCompiler : option (list string).

(** [loadLocales(dir)] *)
Definition loadLocales (dir : string) : Build Localizations :=
  foldM loadLocaleDir {| loc_tags := ∅; loc_filters := ∅ |} (listDirs dir).

Definition getTime : Build Z :=
  fun w =>
    (Returned (clock (ticks w)),
     {| files := files w; written := written w; ticks := S (ticks w) |}).

Definition readHostlistConfiguration (filterDir : string)
    : Build (option HostlistConfiguration) :=
  parse as_configuration (path_join filterDir CONFIGURATION_FILE).

(** The body of the loop of [build] over the hostlist directories. *)
Definition buildFilter (assetsDir : string) (catalogs : Catalogs)
    (filterDir : string) : Build Catalogs :=
  let* metadata := parse as_metadata (path_join filterDir METADATA_FILE) in
  let revisionFile := path_join filterDir REVISION_FILE in
  let* stored := parse as_revision revisionFile in
  let* currentRevision :=
    match stored with
    | Some r => ret r
    | None => let* now := getTime in ret {| timeUpdated := now; hash := None |}
    end in
  let* hostlistConfiguration := readHostlistConfiguration filterDir in
  let* metadata := nonnull (path_join filterDir METADATA_FILE) metadata in
  let filterName := "filter_" +:+ pretty (id metadata) +:+ ".txt" in
  let* timeUpdated :=
    if disabled metadata then ret (timeUpdated currentRevision)
    else
      match hostlistCompiler hostlistConfiguration with
      | None => throw (CompileFailed (id metadata))
      | Some hostlistCompiled =>
          let newHash := calculateRevisionHash md5 hostlistCompiled in
          if decide (hash currentRevision = Some newHash)
          then ret (timeUpdated currentRevision)
          else
            let* now := getTime in
            let newRevision := makeRevision now (Some currentRevision) newHash in
            let assetsFilterFile := path_join assetsDir filterName in
            let filterFile := path_join filterDir "filter.txt" in
            let content := Js.join (String "010"%char EmptyString) hostlistCompiled in
            writeFile revisionFile (RevisionJson newRevision) ;;
            writeFile assetsFilterFile (Text content) ;;
            writeFile filterFile (Text content) ;;
            ret (Builder.timeUpdated newRevision)
      end in
  let downloadUrl := HOSTLISTS_URL +:+ "/" +:+ filterName in
  let* hostlistConfiguration :=
    nonnull (path_join filterDir CONFIGURATION_FILE) hostlistConfiguration in
  let sourceUrl :=
    match sources hostlistConfiguration with
    | [only] => source only
    | _ => homepage metadata
    end in
  let filterMetadata :=
    {| fm_filterId := filterId metadata;
       fm_id := id metadata;
       fm_name := name metadata;
       fm_description := description metadata;
       fm_tags := tags metadata;
       fm_homepage := homepage metadata;
       fm_expires := replaceExpires (expires metadata);
       fm_displayNumber := displayNumber metadata;
       fm_downloadUrl := downloadUrl;
       fm_sourceUrl := sourceUrl;
       fm_timeAdded := timeAdded metadata;
       fm_timeUpdated := timeUpdated |} in
  let '(filtersMetadata, filtersMetadataDev) := catalogs in
  ret (if String.eqb (environment metadata) "prod"
       then (filtersMetadata ++ [filterMetadata])%list
       else filtersMetadata,
       (filtersMetadataDev ++ [filterMetadata])%list).

(** [services.blocked_services.findIndex(el => el.id === 'mastodon')] *)
Fixpoint findIndex {A} (p : A -> bool) (l : list A) : option nat :=
  match l with
  | [] => None
  | x :: rest => if p x then Some O else S <$> findIndex p rest
  end.

(** [build(filtersDir, tagsDir, localesDir, assetsDir)] *)
Definition build (filtersDir tagsDir localesDir assetsDir : string) : Build unit :=
  let* catalogs := foldM (buildFilter assetsDir) ([], []) (listFiltersDirs filtersDir) in
  let '(filtersMetadata, filtersMetadataDev) := catalogs in
  let* services := parse as_services (path_join assetsDir SERVICES_FILE) in
  let* mastodonServers :=
    match mastodonServerlistCompiler with
    | Some servers => ret servers
    | None => throw MastodonCompileFailed
    end in
  let* services := nonnull (path_join assetsDir SERVICES_FILE) services in
  match findIndex (fun el => String.eqb (service_id el) "mastodon")
          (blocked_services services) with
  | None => throw MastodonNotFound
  | Some mastodonIndex =>
      let services :=
        {| blocked_services :=
             alter (fun mastodonService =>
                      {| service_id := service_id mastodonService;
                         service_rules := mastodonServers |})
               mastodonIndex (blocked_services services) |} in
      let servicesFile := path_join assetsDir SERVICES_FILE in
      writeFile servicesFile (ServicesJson services) ;;
      let* tagsMetadata := parse as_tags (path_join tagsDir METADATA_FILE) in
      let filtersMetadataFile := path_join assetsDir FILTERS_METADATA_FILE in
      writeFile filtersMetadataFile
        (CatalogJson {| cat_filters := filtersMetadata; cat_tags := tagsMetadata |}) ;;
      let filtersMetadataDevFile := path_join assetsDir FILTERS_METADATA_DEV_FILE in
      writeFile filtersMetadataDevFile
        (CatalogJson {| cat_filters := filtersMetadataDev; cat_tags := tagsMetadata |}) ;;
      let* localizations := loadLocales localesDir in
      let filtersI18nFile := path_join assetsDir FILTERS_I18N_METADATA_FILE in
      writeFile filtersI18nFile (I18nJson localizations)
  end.

End Collaborators.

End Builder.

(** ** Service-group localisations ([scripts/services/add-localizations.js]) *)

Module AddLocalizations.

(** A property value: a string of the translation file, or a reference to
    an object of the heap. Objects are shared by reference, so the heap is
    explicit. *)
Inductive Value :=
  | Str (s : string)
  | Ref (l : nat).

Abbreviation Obj := (gmap string Value).

(** The heap: the objects in the order of their allocation; a reference
    is a position in it. *)
Abbreviation Heap := (list Obj).

Definition M (A : Type) : Type := Heap -> A * Heap.

Definition ret {A} (a : A) : M A := fun h => (a, h).

Definition bind {A B} (c : M A) (k : A -> M B) : M B :=
  fun h => let '(a, h') := c h in k a h'.

Notation "'let*' x ':=' c 'in' k" := (bind c (fun x => k))
  (at level 10, x name, c at level 100, k at level 200).
Notation "c ';;' k" := (bind c (fun _ => k))
  (at level 100, k at level 200, right associativity).

(** [{}] *)
Definition newObject : M nat :=
  fun h => (List.length h, (h ++ [∅])%list).

(** The properties of a plain object after [o[key] = v]. Every plain
    object inherits the accessor [__proto__] of [Object.prototype]: an
    assignment to that key reaches its setter, which changes the prototype
    of the object (for an object [v]) or nothing (for a string [v]) and in
    no case gives the object a property of its own. The functions modelled
    here never read a property through the prototype of the objects they
    build: [Object.assign], [Object.entries], the spread and
    [JSON.stringify] see own properties only. So the prototype is not
    recorded. *)
Definition assigned (key : string) (v : Value) (obj : Obj) : Obj :=
  if decide (key = "__proto__") then obj else <[key := v]> obj.

(** [o[key] = v] *)
Definition setProperty (o : nat) (key : string) (v : Value) : M unit :=
  fun h => (tt, alter (assigned key v) o h).

(** [Object.assign(target, src)]: the properties of [src] are copied over
    those of [target]. No object built here has a property [__proto__] of
    its own, so each copy is an ordinary assignment. *)
Definition Object_assign (target src : nat) : M unit :=
  fun h => (tt, alter (fun t => default ∅ (h !! src) ∪ t) target h).

(** [list.forEach(body)] *)
Fixpoint forEach {A} (body : A -> M unit) (l : list A) : M unit :=
  match l with
  | [] => ret tt
  | x :: rest => body x ;; forEach body rest
  end.

(** The name under which a destructured array element is used as a
    property key: a missing element is [undefined]. *)
Definition propertyKey (element : option string) : string :=
  default "undefined" element.

(** A file object: the entries of one object of [services.json], in the
    order of [Object.entries]. *)
Abbreviation FileObject := (list (string * string)).

(** The body of the loop over the entries of one file object. *)
Definition addEntry (locale : string)
    (translate localesTranslate componentLocalesTranslate : nat)
    (entry : string * string) : M unit :=
  let '(key, value) := entry in
  let parts := Js.split "." key in
  let id := propertyKey (parts !! 1%nat) in
  let sign := propertyKey (parts !! 2%nat) in
  setProperty translate sign (Str value) ;;
  setProperty localesTranslate locale (Ref translate) ;;
  setProperty componentLocalesTranslate id (Ref localesTranslate).

(** The body of the loop over the file objects. *)
Definition addFileObject (locale : string) (groupedFileObjects : nat)
    (fileObject : FileObject) : M unit :=
  let* translate := newObject in
  let* localesTranslate := newObject in
  let* componentLocalesTranslate := newObject in
  forEach (addEntry locale translate localesTranslate componentLocalesTranslate)
    fileObject ;;
  Object_assign groupedFileObjects componentLocalesTranslate.

(** [groupFileContentByTranslations(fileObjects, locale)]; the result is
    the reference of [groupedFileObjects]. *)
Definition groupFileContentByTranslations (fileObjects : list FileObject)
    (locale : string) : M nat :=
  let* groupedFileObjects := newObject in
  forEach (addFileObject locale groupedFileObjects) fileObjects ;;
  ret groupedFileObjects.

(** The property [key] that the object at [o] has of its own, as
    [Object.entries], [Object.assign], the spread and [JSON.stringify] see
    it. *)
Definition getProperty (h : Heap) (o : nat) (key : string) : option Value :=
  h !! o ≫= (fun obj => obj !! key).

End AddLocalizations.

(** ** Vocabulary of the statements *)

Module Spec.

Import Builder.

(** The characters of a string. *)
Definition chars (s : string) : list ascii := list_ascii_of_string s.

(** The rule lines that enter the hash: everything but the volatile
    "last modified" stamps. *)
Definition stable_lines (compiled : list string) : list string :=
  List.filter (fun s => negb (Js.startsWith s LAST_MODIFIED)) compiled.

(** What a hostlist directory holds when the loop of [build] reaches it. *)
Definition metadataOf (w : World) (filterDir : string) : option Metadata :=
  files w !! path_join filterDir METADATA_FILE ≫= as_metadata.

Definition configurationOf (w : World) (filterDir : string)
    : option HostlistConfiguration :=
  files w !! path_join filterDir CONFIGURATION_FILE ≫= as_configuration.

Definition storedRevision (w : World) (filterDir : string) : option Revision :=
  files w !! path_join filterDir REVISION_FILE ≫= as_revision.

Definition storedHash (w : World) (filterDir : string) : option string :=
  storedRevision w filterDir ≫= hash.

(** The three files that [build] rewrites for a hostlist. *)
Definition listOutputs (assetsDir filterDir : string) (m : Metadata) : list string :=
  [ path_join filterDir REVISION_FILE;
    path_join assetsDir ("filter_" +:+ pretty (id m) +:+ ".txt");
    path_join filterDir "filter.txt" ].

(** The files of the assets directory that [build] writes after the loop:
    the services file and the three catalogs. *)
Definition catalogFiles (assetsDir : string) : list string :=
  [ path_join assetsDir SERVICES_FILE;
    path_join assetsDir FILTERS_METADATA_FILE;
    path_join assetsDir FILTERS_METADATA_DEV_FILE;
    path_join assetsDir FILTERS_I18N_METADATA_FILE ].

(** The catalogs after the record [fm] of a hostlist with metadata [m] has
    been pushed. *)
Definition pushed (catalogs : Catalogs) (m : Metadata) (fm : FilterMetadata)
    : Catalogs :=
  (if String.eqb (environment m) "prod"
   then (fst catalogs ++ [fm])%list
   else fst catalogs,
   (snd catalogs ++ [fm])%list).

(** A hostlist, as its metadata and the record pushed for it, belongs to
    the production environment. *)
Definition isProd (mf : Metadata * FilterMetadata) : bool :=
  String.eqb (environment (fst mf)) "prod".

(** The record [snd mf] was pushed for the hostlist directory [d], whose
    metadata in the world [w] is [fst mf]. *)
Definition recordFor (w : World) (d : string) (mf : Metadata * FilterMetadata) : Prop :=
  metadataOf w d = Some (fst mf) ∧ fm_id (snd mf) = id (fst mf).

(** The revision file of a hostlist is absent or holds a revision. *)
Definition revisionReadable (w : World) (filterDir : string) : Prop :=
  files w !! path_join filterDir REVISION_FILE = None
  ∨ ∃ r, files w !! path_join filterDir REVISION_FILE = Some (RevisionJson r).

(** The shape of the paths written inside the loop. *)
Definition listOutputPath (p : string) : Prop :=
  (∃ dir, p = dir +:+ "/revision.json") ∨ (∃ stem, p = stem +:+ ".txt").

(** The exceptions that can only arise before the first file of
    [catalogFiles] is written: the [null] of a missing file, a hostlist
    that does not compile, the mastodon server list, the missing mastodon
    service. A rejected JSON text is not among them. *)
Definition beforeCatalogs (e : Error) : Prop :=
  match e with
  | SyntaxError _ => False
  | TypeError _ | CompileFailed _ | MastodonCompileFailed | MastodonNotFound => True
  end.

(** A computation that leaves the world as it is and can fail only on a
    rejected JSON text. *)
Definition readsOnly {A} (c : Build A) : Prop :=
  ∀ w o w', c w = (o, w') -> w' = w ∧ (∀ e, o = Thrown e -> ¬ beforeCatalogs e).

(** The translation recorded for (id, locale, field). *)
Definition translation (entry : LocalizationEntry) (id locale field : string)
    : option string :=
  match entry !! id with
  | Some forId =>
      match forId !! locale with
      | Some forLocale => forLocale !! field
      | None => None
      end
  | None => None
  end.

(** Following the specification's words: the value that a locale file
    contributes for (id, field) is that of the last property, in the order
    of the file, whose key parses to that id and field; keys with an empty
    id contribute nothing. *)
Definition contributes (mask : string) (id field : string) (entry : string * string)
    : bool :=
  let info := parseInfo (fst entry) mask in
  (negb (String.eqb (info_id info) EmptyString)
   && String.eqb (info_id info) id
   && String.eqb (info_message info) field)%bool.

Definition contribution (mask : string) (messages : list Message)
    (id field : string) : option string :=
  snd <$> List.find (contributes mask id field) (List.rev (List.concat messages)).

(** The messages of the file of [item], when it exists. *)
Definition messagesOf (w : World) (item : Item) : list Message :=
  default [] (files w !! file item ≫= as_messages).

(** The file of a locale directory that feeds the mapping [kind]. *)
Definition localeItem (localeDir : string) (kind : PropName) : Item :=
  match kind with
  | prop_tags =>
      {| file := path_join localeDir "tags.json";
         prefix := "hostlisttag.";
         propName := prop_tags |}
  | prop_filters =>
      {| file := path_join localeDir "filters.json";
         prefix := "hostlist.";
         propName := prop_filters |}
  end.

(** What the locale directory [localeDir] contributes for (kind, id,
    field). *)
Definition contributionOf (w : World) (localeDir : string) (kind : PropName)
    (id field : string) : option string :=
  contribution (prefix (localeItem localeDir kind))
    (messagesOf w (localeItem localeDir kind)) id field.


(** The names of the properties that every object inherits from
    [Object.prototype]. *)
Definition inheritedNames : list string :=
  [ "__proto__"; "constructor"; "hasOwnProperty"; "isPrototypeOf";
    "propertyIsEnumerable"; "toLocaleString"; "toString"; "valueOf";
    "__defineGetter__"; "__defineSetter__"; "__lookupGetter__"; "__lookupSetter__" ].

(** The keys of a locale file are ordinary: none parses to an id that every
    object inherits, none to the message [__proto__]. *)
Definition ordinaryItem (w : World) (item : Item) : Prop :=
  Forall (fun entry : string * string =>
            (info_id (parseInfo (fst entry) (prefix item)) ∉ inheritedNames)
            ∧ info_message (parseInfo (fst entry) (prefix item)) ≠ "__proto__")
    (List.concat (messagesOf w item)).

(** A locale directory is ordinary: its name is no inherited name and the
    keys of its two files are ordinary. *)
Definition ordinaryLocale (w : World) (localeDir : string) : Prop :=
  (basename localeDir ∉ inheritedNames)
  ∧ ∀ kind, ordinaryItem w (localeItem localeDir kind).


End Spec.

Module AddLocalizationsSpec.

Import AddLocalizations.

(** The id and the field ("sign") that [addEntry] reads off a key. *)
Definition idOf (key : string) : string :=
  propertyKey (Js.split "." key !! 1%nat).

Definition signOf (key : string) : string :=
  propertyKey (Js.split "." key !! 2%nat).

(** All the fields of one file object, whatever id their keys name; a
    field [__proto__] leaves no property. *)
Definition fieldsOf (fileObject : FileObject) : Obj :=
  fold_left (fun o entry => assigned (signOf (fst entry)) (Str (snd entry)) o)
    fileObject ∅.

Definition idsOf (fileObject : FileObject) : list string :=
  List.map (fun entry => idOf (fst entry)) fileObject.

(** The object [localesTranslate] of a file object whose [translate] is
    at [t]: it gets its one property as soon as there is an entry. *)
Definition localesOf (locale : string) (fileObject : FileObject) (t : nat) : Obj :=
  match fileObject with
  | [] => ∅
  | _ :: _ => assigned locale (Ref t) ∅
  end.

(** The object [componentLocalesTranslate] of a file object whose
    [localesTranslate] is at [lt]. *)
Definition componentOf (fileObject : FileObject) (lt : nat) : Obj :=
  fold_left (fun o entry => assigned (idOf (fst entry)) (Ref lt) o) fileObject ∅.

(** The objects allocated for a list of file objects, the first of them at
    position [base]: three per file object. *)
Fixpoint blocks (locale : string) (base : nat) (fileObjects : list FileObject)
    : list Obj :=
  match fileObjects with
  | [] => []
  | fo :: rest =>
      fieldsOf fo :: localesOf locale fo base :: componentOf fo (S base)
        :: blocks locale (3 + base) rest
  end.

(** [groupedFileObjects] after the file objects have been merged into it
    one after the other. *)
Fixpoint grouped (base : nat) (fileObjects : list FileObject) (g : Obj) : Obj :=
  match fileObjects with
  | [] => g
  | fo :: rest => grouped (3 + base) rest (componentOf fo (S base) ∪ g)
  end.

End AddLocalizationsSpec.

(** ** Small registries on which the statements are exercised *)

Module Fixtures.

Import Builder.

Definition world (fs : list (string * File)) : World :=
  {| files := list_to_map fs; written := []; ticks := O |}.

(** Two locales translating the name of hostlist 10. *)
Definition localeDirs (dir : string) : list string :=
  [path_join dir "en"; path_join dir "fr"].

Definition localeWorld : World :=
  world
    [ ("locales/en/filters.json",
       MessagesJson [[("hostlist.10.name", "DNS filter");
                      ("hostlist.10.description", "Blocks ads")]]);
      ("locales/fr/filters.json",
       MessagesJson [[("hostlist.10.name", "Filtre DNS")]]);
      ("locales/fr/tags.json",
       MessagesJson [[("hostlisttag.1.name", "publicité")]]) ].

(** One locale whose filters file has a key without the "hostlist."
    prefix and a key with an empty id. *)
Definition strayLocaleDirs (dir : string) : list string :=
  [path_join dir "en"].

Definition strayLocaleWorld : World :=
  world
    [ ("locales/en/filters.json",
       MessagesJson [[("filter.10.name", "X"); ("hostlist..name", "Y")]]) ].

(** A registry with an enabled production list (one source, stale stored
    hash), a disabled staging list (three sources) and the services file. *)
Definition clock (n : nat) : Z := 1700000000000 + Z.of_nat n.

Definition digest (data : string) : string := String.rev data.

(** A compiler that accepts the configurations with exactly one source. *)
Definition compiler (c : option HostlistConfiguration) : option (list string) :=
  match c with
  | Some {| sources := [only] |} =>
      Some ["! Title: list"; "! Last modified: 2024-01-01"; "||" +:+ source only +:+ "^"]
  | _ => None
  end.

Definition adguard : Metadata :=
  {| filterId := 1; id := 1; name := "AdGuard DNS filter";
     description := "Blocks ads"; tags := ["purpose:general"];
     homepage := "https://adguard-dns.io"; expires := Some "4 days";
     displayNumber := 1; timeAdded := 1404115015843;
     environment := "prod"; disabled := false |}.

Definition frozen : Metadata :=
  {| filterId := 2; id := 2; name := "Frozen list";
     description := "No longer updated"; tags := [];
     homepage := "https://frozen.example"; expires := None;
     displayNumber := 2; timeAdded := 1404115015900;
     environment := "staging"; disabled := true |}.

Definition oneSource : HostlistConfiguration :=
  {| sources := [ {| source := "https://a.example/list.txt" |} ] |}.

Definition threeSources : HostlistConfiguration :=
  {| sources := [ {| source := "https://a.example/1.txt" |};
                  {| source := "https://b.example/2.txt" |};
                  {| source := "https://c.example/3.txt" |} ] |}.

Definition mastodon : Services :=
  {| blocked_services :=
       [ {| service_id := "9gag"; service_rules := ["||9gag.com^"] |};
         {| service_id := "mastodon"; service_rules := [] |} ] |}.

Definition filterDirs (dir : string) : list string :=
  [path_join dir "adguard"; path_join dir "frozen"].

Definition registry : World :=
  world
    [ ("filters/adguard/metadata.json", MetadataJson adguard);
      ("filters/adguard/configuration.json", ConfigurationJson oneSource);
      ("filters/adguard/revision.json",
       RevisionJson {| timeUpdated := 1600000000000; hash := Some "c3RhbGU=" |});
      ("filters/frozen/metadata.json", MetadataJson frozen);
      ("filters/frozen/configuration.json", ConfigurationJson threeSources);
      ("filters/frozen/revision.json",
       RevisionJson {| timeUpdated := 1500000000000; hash := Some "b2xk" |});
      ("assets/services.json", ServicesJson mastodon);
      ("tags/metadata.json", TagsJson [ {| tagId := 1; keyword := "purpose:general" |} ]) ].

(** The same registry with the second list enabled: its three sources make
    the compiler fail. *)
Definition broken : Metadata :=
  {| filterId := 2; id := 2; name := "Broken list";
     description := "Does not compile"; tags := [];
     homepage := "https://broken.example"; expires := None;
     displayNumber := 2; timeAdded := 1404115015900;
     environment := "prod"; disabled := false |}.

Definition brokenRegistry : World :=
  world
    [ ("filters/adguard/metadata.json", MetadataJson adguard);
      ("filters/adguard/configuration.json", ConfigurationJson oneSource);
      ("filters/frozen/metadata.json", MetadataJson broken);
      ("filters/frozen/configuration.json", ConfigurationJson threeSources);
      ("assets/services.json", ServicesJson mastodon) ].



(** The build of such a registry. *)
Definition runBuild (w : World) : Outcome unit * World :=
  build localeDirs filterDirs clock digest compiler (Some ["mastodon.social"])
    "filters" "tags" "locales" "assets" w.

End Fixtures.

Module KeySpec.
Import Builder Spec.

(** A string without the character ".". *)
Definition dotless (s : string) : Prop := "."%char ∉ chars s.

(** The key of a locale file: mask, id, a dot, field. *)
Definition localeKey (mask id field : string) : string :=
  mask +:+ id +:+ "." +:+ field.

End KeySpec.

Module FilterSpec.
Import Builder Spec.

(** The record of the catalogs for a hostlist with metadata [m] and
    configuration [c], last updated at [t]. *)
Definition recordOf (m : Metadata) (c : HostlistConfiguration) (t : Z)
    : FilterMetadata :=
  {| fm_filterId := filterId m;
     fm_id := id m;
     fm_name := name m;
     fm_description := description m;
     fm_tags := tags m;
     fm_homepage := homepage m;
     fm_expires := replaceExpires (expires m);
     fm_displayNumber := displayNumber m;
     fm_downloadUrl :=
       HOSTLISTS_URL +:+ "/" +:+ ("filter_" +:+ pretty (id m) +:+ ".txt");
     fm_sourceUrl := match sources c with
                     | [only] => source only
                     | _ => homepage m
                     end;
     fm_timeAdded := timeAdded m;
     fm_timeUpdated := t |}.

(** The file system after the three files of a hostlist have been
    rewritten with the compiled rules and the revision (t, h). *)
Definition rewritten (assetsDir d : string) (m : Metadata) (compiled : list string)
    (t : Z) (h : string) (fs : gmap string File) : gmap string File :=
  <[path_join d "filter.txt" :=
      Text (Js.join (String "010"%char EmptyString) compiled)]>
    (<[path_join assetsDir ("filter_" +:+ pretty (id m) +:+ ".txt") :=
         Text (Js.join (String "010"%char EmptyString) compiled)]>
       (<[path_join d REVISION_FILE :=
            RevisionJson {| timeUpdated := t; hash := Some h |}]> fs)).

End FilterSpec.

Module BuildSpec.
Import Builder Spec.

(** The test of [findIndex] in [build]. *)
Definition isMastodon (el : Service) : bool := String.eqb (service_id el) "mastodon".

(** The services with the rules of the entry at [i] replaced. *)
Definition withRules (services : Services) (i : nat) (rules : list string) : Services :=
  {| blocked_services :=
       alter (fun s => {| service_id := service_id s; service_rules := rules |})
         i (blocked_services services) |}.

(** The file system after the four files that end a build are written. *)
Definition published (assetsDir : string) (services : Services)
    (prodCatalog devCatalog : Catalog) (localizations : Localizations)
    (fs : gmap string File) : gmap string File :=
  <[path_join assetsDir FILTERS_I18N_METADATA_FILE := I18nJson localizations]>
    (<[path_join assetsDir FILTERS_METADATA_DEV_FILE := CatalogJson devCatalog]>
       (<[path_join assetsDir FILTERS_METADATA_FILE := CatalogJson prodCatalog]>
          (<[path_join assetsDir SERVICES_FILE := ServicesJson services]> fs))).

End BuildSpec.

Module MoreFixtures.
Import Builder Fixtures.

(** The registry with a services file that has no mastodon entry. *)
Definition registryWithoutMastodon : World :=
  world
    [ ("filters/adguard/metadata.json", MetadataJson adguard);
      ("filters/adguard/configuration.json", ConfigurationJson oneSource);
      ("filters/frozen/metadata.json", MetadataJson frozen);
      ("filters/frozen/configuration.json", ConfigurationJson threeSources);
      ("assets/services.json",
       ServicesJson
         {| blocked_services :=
              [ {| service_id := "9gag"; service_rules := ["||9gag.com^"] |} ] |}) ].

End MoreFixtures.

(** ** Directory listings of the builder, on an explicit directory tree *)

Module Directories.

Import Builder.

(** A directory, as far as the listings look at it: whether it holds a
    [configuration.json], and its sub-directories by name, in the order of
    [readdirSync]. *)
#[warnings="-register-all"]
Inductive Dir :=
  | Folder (hasConfiguration : bool) (subdirs : list (string * Dir)).

Definition hasConfiguration (d : Dir) : bool :=
  match d with Folder b _ => b end.

Definition subdirs (d : Dir) : list (string * Dir) :=
  match d with Folder _ l => l end.

(** [listDirs(baseDir)], where [d] is the directory at [baseDir]. *)
Definition listDirs (baseDir : string) (d : Dir) : list string :=
  List.map (fun entry => path_join baseDir (fst entry)) (subdirs d).

(** [listFiltersDirs(baseDir)], where [d] is the directory at [baseDir]. *)
Fixpoint listFiltersDirs (baseDir : string) (d : Dir) : list string :=
  match d with
  | Folder _ children =>
      (fix loop (childDirs : list (string * Dir)) : list string :=
         match childDirs with
         | [] => []
         | (name, sub) :: rest =>
             let dir := path_join baseDir name in
             ((if hasConfiguration sub then [dir] else listFiltersDirs dir sub)
              ++ loop rest)%list
         end) children
  end.

(** The tree without what lies inside the directories that hold a
    configuration, the base directory apart. *)
Fixpoint prune (d : Dir) : Dir :=
  match d with
  | Folder b children =>
      Folder b
        (List.map (fun entry =>
                     (fst entry,
                      if hasConfiguration (snd entry)
                      then Folder true []
                      else prune (snd entry)))
           children)
  end.

(** Some directory strictly below [d] holds a configuration. *)
Fixpoint configuredBelow (d : Dir) : bool :=
  match d with
  | Folder _ children =>
      existsb (fun entry => (hasConfiguration (snd entry) || configuredBelow (snd entry))%bool)
        children
  end.

End Directories.

(** ** Merging the service-group translations of all locales *)

Module ServiceLocales.

Import Builder AddLocalizationsSpec.
Import AddLocalizations (Value, Str, Ref, Obj, Heap, FileObject,
  groupFileContentByTranslations).

(** id -> locale -> sign -> translation, as plain data. *)
Abbreviation Grouped := (gmap string (gmap string (gmap string string))).

(** The objects of the heap read as plain data, the way the spread in
    [getGroupedTranslations] and [JSON.stringify] traverse them. *)
Definition readString (v : Value) : option string :=
  match v with
  | Str s => Some s
  | Ref _ => None
  end.

Definition readTranslate (heap : Heap) (v : Value) : option (gmap string string) :=
  match v with
  | Ref translate =>
      match heap !! translate with
      | Some o => Some (omap readString (o : Obj))
      | None => None
      end
  | Str _ => None
  end.

Definition readLocales (heap : Heap) (v : Value)
    : option (gmap string (gmap string string)) :=
  match v with
  | Ref localesTranslate =>
      match heap !! localesTranslate with
      | Some o => Some (omap (readTranslate heap) (o : Obj))
      | None => None
      end
  | Str _ => None
  end.

Definition readGrouped (heap : Heap) (groupedFileObjects : nat) : Grouped :=
  omap (readLocales heap) (default (∅ : Obj) (heap !! groupedFileObjects)).

(** The callback of [directories.map] in [getGroupedTranslations]: [null]
    when the directory has no [services.json]. The file holds an array of
    flat objects, like the message files of the builder. *)
Definition collectTranslation (baseFolder directory : string) : Build (option Grouped) :=
  let translationFilePath := path_join (path_join baseFolder directory) "services.json" in
  let* content := readFile translationFilePath in
  match content with
  | None => ret None
  | Some f =>
      match as_messages f with
      | Some translationContent =>
          let '(groupedFileObjects, heap) :=
            groupFileContentByTranslations translationContent directory [] in
          ret (Some (readGrouped heap groupedFileObjects))
      | None => throw (SyntaxError translationFilePath)
      end
  end.

(** [Promise.all(directories.map(...))]: the results in the order of the
    directories. When several callbacks fail, the model reports the first
    failure in that order. *)
Fixpoint collectAll (baseFolder : string) (directories : list string)
    : Build (list (option Grouped)) :=
  match directories with
  | [] => ret []
  | directory :: rest =>
      let* translation := collectTranslation baseFolder directory in
      let* translations := collectAll baseFolder rest in
      ret (translation :: translations)
  end.

(** The body of the [reduce]: [acc[key] = { ...acc[key], ...value }] for
    every entry of [obj]. *)
Definition mergeTranslation (acc obj : Grouped) : Grouped :=
  map_fold (fun key value acc => <[key := value ∪ default ∅ (acc !! key)]> acc) acc obj.

(** [getGroupedTranslations(baseFolder, directories)] *)
Definition getGroupedTranslations (baseFolder : string) (directories : list string)
    : Build Grouped :=
  let* translations := collectAll baseFolder directories in
  let existingTranslations := omap (fun translation => translation) translations in
  ret (fold_left mergeTranslation existingTranslations ∅).

(** The fields of a file object as plain data: the last value of each
    sign, a sign [__proto__] left out, as its assignment leaves no
    property. *)
Definition signsOf (fileObject : FileObject) : gmap string string :=
  fold_left (fun o entry =>
               if decide (signOf (fst entry) = "__proto__") then o
               else <[signOf (fst entry) := snd entry]> o)
    fileObject ∅.

(** The locales of one id after one file object of the directory [locale],
    as plain data: a directory [__proto__] leaves no property. *)
Definition underLocale (locale : string) (signs : gmap string string)
    : gmap string (gmap string string) :=
  if decide (locale = "__proto__") then ∅ else {[ locale := signs ]}.

(** The last file object of the array one of whose keys names [id]. *)
Definition lastNaming (id : string) (fileObjects : list FileObject) : option FileObject :=
  List.find (fun fo => bool_decide (id ∈ idsOf fo)) (List.rev fileObjects).

(** The file objects of the [services.json] of a locale directory. *)
Definition serviceFile (w : World) (baseFolder directory : string) : list FileObject :=
  default []
    (files w !! path_join (path_join baseFolder directory) "services.json" ≫= as_messages).

(** The translation object recorded for (id, locale). *)
Definition translationsAt (g : Grouped) (id locale : string) : option (gmap string string) :=
  match g !! id with
  | Some forId => forId !! locale
  | None => None
  end.

End ServiceLocales.

Module ServiceFixtures.

Import Builder.

Definition serviceWorld : World :=
  Fixtures.world
    [ ("locales/en/services.json",
       MessagesJson [[("servicesgroup.cdn.name", "Content delivery")];
                     [("servicesgroup.ai.name", "AI")];
                     [("servicesgroup.cdn.name", "CDN");
                      ("servicesgroup.cdn.description", "Networks")]]);
      ("locales/de/services.json",
       MessagesJson [[("servicesgroup.__proto__.name", "Prototyp")];
                     [("servicesgroup.cdn.name", "Inhaltsnetz");
                      ("servicesgroup.cdn.__proto__", "Feld")]]) ].

End ServiceFixtures.

(** ** Preparing the base language files (scripts/translations/prepare.js) *)

Module Prepare.

Import Builder.

(** An object of a base language file is a [Message]: its properties in
    the order of [Object.keys]. *)

(** [key in object] *)
Definition has (key : string) (object : Message) : bool :=
  bool_decide (key ∈ object.*1).

(** [object[key]] *)
Fixpoint get (key : string) (object : Message) : option string :=
  match object with
  | [] => None
  | (k, v) :: rest => if decide (k = key) then Some v else get key rest
  end.

(** [object[key] = value] for a key that is no array index, as the keys
    of these files are: an existing property keeps its place, a new one
    comes last. *)
Fixpoint assign (key value : string) (object : Message) : Message :=
  match object with
  | [] => [(key, value)]
  | (k, v) :: rest =>
      if decide (k = key) then (k, value) :: rest else (k, v) :: assign key value rest
  end.

(** The keys built by the template literals of the script. The ids are
    integers, which a template literal prints in decimal. *)
Definition filterNameKey (id : Z) : string := "hostlist." +:+ pretty id +:+ ".name".
Definition filterDescriptionKey (id : Z) : string :=
  "hostlist." +:+ pretty id +:+ ".description".
Definition tagNameKey (tagId : Z) : string := "hostlisttag." +:+ pretty tagId +:+ ".name".
Definition tagDescriptionKey (tagId : Z) : string :=
  "hostlisttag." +:+ pretty tagId +:+ ".description".

(** The loop over [filtersBaseLanguage] that stops at the first object
    with the name key; [None] when [found] stays false. *)
Fixpoint updateFound (filter : Metadata) (filtersBaseLanguage : list Message)
    : option (list Message) :=
  match filtersBaseLanguage with
  | [] => None
  | filterLocale :: rest =>
      if has (filterNameKey (id filter)) filterLocale
      then Some (assign (filterDescriptionKey (id filter)) (description filter)
                   (assign (filterNameKey (id filter)) (name filter) filterLocale)
                 :: rest)
      else (fun rest' => filterLocale :: rest') <$> updateFound filter rest
  end.

Definition updateFilter (filter : Metadata) (filtersBaseLanguage : list Message)
    : list Message :=
  match updateFound filter filtersBaseLanguage with
  | Some updated => updated
  | None =>
      let filterLocale :=
        assign (filterDescriptionKey (id filter)) (description filter)
          (assign (filterNameKey (id filter)) (name filter) []) in
      (filtersBaseLanguage ++ [filterLocale])%list
  end.

(** The body of the loop over [filterTags], once [tagMeta] is found. *)
Definition addTag (tagMeta : Tag) (tagsBaseLanguage : list Message) : list Message :=
  if existsb (has (tagNameKey (tagId tagMeta))) tagsBaseLanguage
  then tagsBaseLanguage
  else
    let tagLocale :=
      assign (tagDescriptionKey (tagId tagMeta))
        ("TODO: description for tag " +:+ keyword tagMeta)
        (assign (tagNameKey (tagId tagMeta))
           ("TODO: name for tag " +:+ keyword tagMeta) []) in
    (tagsBaseLanguage ++ [tagLocale])%list.

(** The script stops with "Cannot find tag metadata ${tag}". *)
Inductive Result (A : Type) :=
  | Done (a : A)
  | CannotFindTag (tag : string).
Arguments Done {A} a.
Arguments CannotFindTag {A} tag.

(** [tags.find((el) => el.keyword === tag)] *)
Definition findTag (tags : list Tag) (tag : string) : option Tag :=
  List.find (fun el => bool_decide (keyword el = tag)) tags.

Fixpoint addTags (tags : list Tag) (filterTags : list string)
    (tagsBaseLanguage : list Message) : Result (list Message) :=
  match filterTags with
  | [] => Done tagsBaseLanguage
  | tag :: rest =>
      match findTag tags tag with
      | None => CannotFindTag tag
      | Some tagMeta => addTags tags rest (addTag tagMeta tagsBaseLanguage)
      end
  end.

(** The two arrays the script builds: [filtersBaseLanguage] and
    [tagsBaseLanguage]. *)
Record BaseLanguage := {
  filtersBaseLanguage : list Message;
  tagsBaseLanguage : list Message;
}.

(** The body of [for (let filter of filters)]. *)
Definition prepareFilter (tags : list Tag) (filter : Metadata) (base : BaseLanguage)
    : Result BaseLanguage :=
  let updated := updateFilter filter (filtersBaseLanguage base) in
  match addTags tags (Builder.tags filter) (tagsBaseLanguage base) with
  | Done tagsBaseLanguage' =>
      Done {| filtersBaseLanguage := updated; tagsBaseLanguage := tagsBaseLanguage' |}
  | CannotFindTag tag => CannotFindTag tag
  end.

(** The loop of the script over the metadata of the blocklists. *)
Fixpoint prepare (tags : list Tag) (filters : list Metadata) (base : BaseLanguage)
    : Result BaseLanguage :=
  match filters with
  | [] => Done base
  | filter :: rest =>
      match prepareFilter tags filter base with
      | Done base' => prepare tags rest base'
      | CannotFindTag tag => CannotFindTag tag
      end
  end.





End Prepare.

Module PrepareSpec.

Import Builder Prepare.

(** The first object of an array that has the key. *)
Definition firstWith (key : string) (items : list Message) : option Message :=
  List.find (has key) items.

(** The keyword is that of one of the tags of the metadata file. *)
Definition knownTag (tags : list Tag) (tag : string) : Prop :=
  ∃ tagMeta, tagMeta ∈ tags ∧ keyword tagMeta = tag.

(** The object added for a tag without translation. *)
Definition todoFor (tagMeta : Tag) : Message :=
  [ (tagNameKey (tagId tagMeta), "TODO: name for tag " +:+ keyword tagMeta);
    (tagDescriptionKey (tagId tagMeta), "TODO: description for tag " +:+ keyword tagMeta) ].

(** The key is the name key or the description key of one of the
    blocklists. *)
Definition keyOf (filters : list Metadata) (key : string) : Prop :=
  ∃ filter, filter ∈ filters
            ∧ (key = filterNameKey (id filter) ∨ key = filterDescriptionKey (id filter)).

(** The first object with the name key of the blocklist holds its name and
    its description. *)
Definition recorded (filter : Metadata) (items : list Message) : Prop :=
  ∃ object,
    firstWith (filterNameKey (id filter)) items = Some object
    ∧ get (filterNameKey (id filter)) object = Some (name filter)
    ∧ get (filterDescriptionKey (id filter)) object = Some (description filter).

(** The tag is known and some object of the array has its name key. *)
Definition translated (tags : list Tag) (items : list Message) (tag : string) : Prop :=
  ∃ tagMeta,
    findTag tags tag = Some tagMeta
    ∧ existsb (has (tagNameKey (tagId tagMeta))) items = true.

(** Two objects hold the same under every key outside a set of keys. *)
Definition agreeOutside (keys : string -> Prop) (object object' : Message) : Prop :=
  ∀ key, ¬ keys key -> get key object' = get key object.

(** The objects of the first array are still there, in their places, and
    hold the same outside the keys; the objects that follow them hold
    nothing outside the keys. *)
Definition extends (keys : string -> Prop) (items items' : list Message) : Prop :=
  ∃ updated added,
    items' = (updated ++ added)%list
    ∧ Forall2 (agreeOutside keys) items updated
    ∧ Forall (agreeOutside keys []) added.


End PrepareSpec.

Module PrepareFixtures.

Import Builder Prepare.

Definition tagsMetadata : list Tag :=
  [ {| tagId := 1; keyword := "purpose:general" |};
    {| tagId := 2; keyword := "purpose:security" |} ].

Definition blocklist (n : Z) (title : string) (filterTags : list string) : Metadata :=
  {| filterId := n; id := n; name := title; description := title +:+ " blocklist";
     tags := filterTags; homepage := "https://example.org"; expires := None;
     displayNumber := n; timeAdded := 0; environment := "prod"; disabled := false |}.

Definition blocklists : list Metadata :=
  [ blocklist 1 "AdGuard DNS" ["purpose:general"];
    blocklist 5 "Threats" ["purpose:security"; "purpose:general"] ].

Definition englishFiles : BaseLanguage :=
  {| filtersBaseLanguage :=
       [ [ ("hostlist.1.name", "Old name"); ("hostlist.1.description", "Old text") ];
         [ ("hostlist.3.name", "Gone"); ("hostlist.3.description", "No metadata") ] ];
     tagsBaseLanguage :=
       [ [ ("hostlisttag.1.name", "General");
           ("hostlisttag.1.description", "General purpose") ] ] |}.

End PrepareFixtures.

(** ** Facts about the string primitives *)

(** A run that has returned did not throw, and conversely: decided on the
    outcome alone, without comparing the file systems. *)
Ltac refute_run H :=
  first
    [ apply (f_equal (fun r => match fst r with
                               | Builder.Returned _ => true
                               | Builder.Thrown _ => false
                               end)) in H;
      vm_compute in H; discriminate H
    | apply (f_equal fst) in H; vm_compute in H; discriminate H ].

Section StringFacts.

Import Spec.

Lemma app_cons (c : ascii) (a b : string) : String c a +:+ b = String c (a +:+ b).
Proof. reflexivity. Qed.

Lemma app_nil (b : string) : EmptyString +:+ b = b.
Proof. reflexivity. Qed.

Lemma chars_app (a b : string) : chars (a +:+ b) = (chars a ++ chars b)%list.
Proof.
  induction a as [|c a IH]; [reflexivity|].
  rewrite app_cons. unfold chars in *. simpl. now rewrite IH.
Qed.

Lemma chars_inj (a b : string) : chars a = chars b -> a = b.
Proof.
  intros H. rewrite <- (string_of_list_ascii_of_string a),
    <- (string_of_list_ascii_of_string b).
  unfold chars in H. now rewrite H.
Qed.

Lemma app_assoc_str (a b c : string) : (a +:+ b) +:+ c = a +:+ (b +:+ c).
Proof.
  induction a as [|x a IH]; [reflexivity|].
  rewrite !app_cons. now rewrite IH.
Qed.

(** Two ways of cutting the same string end in compatible suffixes. *)
Lemma endings_compatible (u v s1 s2 : string) :
  u +:+ s1 = v +:+ s2 ->
  chars s1 `suffix_of` chars s2 ∨ chars s2 `suffix_of` chars s1.
Proof.
  intros H. apply (f_equal chars) in H. rewrite !chars_app in H.
  apply (suffix_weak_total _ _ (chars u ++ chars s1)).
  - now exists (chars u).
  - rewrite H. now exists (chars v).
Qed.

Lemma endings_differ (u v s1 s2 : string) :
  ¬ (chars s1 `suffix_of` chars s2) ->
  ¬ (chars s2 `suffix_of` chars s1) ->
  u +:+ s1 ≠ v +:+ s2.
Proof. intros H1 H2 H. destruct (endings_compatible _ _ _ _ H); tauto. Qed.

Lemma split_nonempty (sep : ascii) (s : string) :
  ∃ h t, Js.split sep s = h :: t.
Proof.
  destruct s as [|c s]; simpl; [eauto|].
  destruct (Ascii.eqb c sep); [eauto|].
  destruct (Js.split sep s); eauto.
Qed.

Lemma split_two_parts (sep : ascii) (a b : string) :
  ∃ h h' t, Js.split sep (a +:+ String sep b) = h :: h' :: t.
Proof.
  induction a as [|c a IH].
  - rewrite app_nil. simpl. rewrite Ascii.eqb_refl.
    destruct (split_nonempty sep b) as (h & t & ->). eauto.
  - rewrite app_cons. simpl.
    destruct IH as (h & h' & t & ->). destruct (Ascii.eqb c sep); eauto.
Qed.

Lemma split_last_app (sep : ascii) (a b : string) :
  List.last (Js.split sep (a +:+ String sep b)) EmptyString
  = List.last (Js.split sep b) EmptyString.
Proof.
  induction a as [|c a IH].
  - rewrite app_nil. simpl. rewrite Ascii.eqb_refl.
    destruct (split_nonempty sep b) as (h & t & ->). reflexivity.
  - rewrite app_cons. simpl.
    destruct (split_two_parts sep a b) as (h & h' & t & E).
    rewrite E in *. destruct (Ascii.eqb c sep); exact IH.
Qed.

(** A name without a separator is the base name of its path. *)
Lemma basename_path_join (dir file : string) :
  Js.split "/" file = [file] ->
  Builder.basename (Builder.path_join dir file) = file.
Proof.
  intros H. unfold Builder.basename, Builder.path_join.
  change ("/" +:+ file) with (String "/" file).
  rewrite split_last_app, H. reflexivity.
Qed.

End StringFacts.

(** ** The Revision Tracker *)

Section RevisionTracker.

Import Builder Spec.

(** C1. [makeRevision] returns a record with the new hash; its
    [timeUpdated] is that of the previous record when there is one with
    the same hash, and the current time otherwise; run again on its own
    result with the same hash, it returns that result unchanged, whatever
    the time of the second run. *)
Theorem makeRevision_decides (now : Z) (previous : option Revision) (newHash : string) :
  let result := makeRevision now previous newHash in
  hash result = Some newHash
  ∧ (∀ p, previous = Some p -> hash p = Some newHash ->
       timeUpdated result = timeUpdated p)
  ∧ (previous = None ∨ (∃ p, previous = Some p ∧ hash p ≠ Some newHash) ->
       timeUpdated result = now)
  ∧ (∀ later, makeRevision later (Some result) newHash = result).
Proof.
  unfold makeRevision. simpl. repeat split.
  - destruct previous as [p|]; [|reflexivity]. now destruct (decide _).
  - intros p -> Hp. destruct (decide _) as [_|n]; [reflexivity | contradiction].
  - intros [-> | (p & -> & Hp)]; [reflexivity|].
    destruct (decide _) as [e|_]; [contradiction | reflexivity].
  - intros later. destruct previous as [p|].
    + destruct (decide (hash p = Some newHash)) as [Hp|Hp]; simpl;
        destruct (decide _) as [_|Hne]; try reflexivity; now destruct Hne.
    + simpl. destruct (decide _) as [_|Hne]; [reflexivity | now destruct Hne].
Qed.

Lemma makeRevision_decides_witness :
  let previous := {| timeUpdated := 100; hash := Some "aGFzaA==" |} in
  let first := makeRevision 200 (Some previous) "aGFzaA==" in
  timeUpdated first = 100
  ∧ timeUpdated (makeRevision 200 None "aGFzaA==") = 200
  ∧ timeUpdated (makeRevision 300 (Some first) "aGFzaA==") = 100.
Proof.
  intros previous first.
  destruct (makeRevision_decides 200 (Some previous) "aGFzaA==") as (_ & Hsame & _ & Hagain).
  destruct (makeRevision_decides 200 None "aGFzaA==") as (_ & _ & Hnew & _).
  split; [|split].
  - exact (Hsame previous eq_refl eq_refl).
  - apply Hnew. left. reflexivity.
  - fold first in Hagain. rewrite Hagain. exact (Hsame previous eq_refl eq_refl).
Defined.

Variable md5 : string -> string.

Lemma calculateRevisionHash_stable (compiled : list string) :
  calculateRevisionHash md5 compiled = calculateRevisionHash md5 (stable_lines compiled).
Proof.
  unfold calculateRevisionHash, stable_lines.
  f_equal. f_equal. f_equal. f_equal. f_equal.
  induction compiled as [|l rest IH]; [reflexivity|].
  simpl. destruct (negb (Js.startsWith l LAST_MODIFIED)) eqn:E; simpl.
  - rewrite E. now f_equal.
  - exact IH.
Qed.

Lemma stable_lines_app (a b : list string) :
  stable_lines (a ++ b) = (stable_lines a ++ stable_lines b)%list.
Proof. unfold stable_lines. apply List.filter_app. Qed.

Lemma stable_lines_stamp (stamp : string) (rest : list string) :
  Js.startsWith stamp LAST_MODIFIED = true ->
  stable_lines (stamp :: rest) = stable_lines rest.
Proof. intros H. unfold stable_lines. simpl. now rewrite H. Qed.

(** C2. Two arrays of compiled lines that are equal once the lines
    starting with "! Last modified:" are removed have the same revision
    hash; in particular two arrays that differ only in such a line. *)
Theorem calculateRevisionHash_ignores_last_modified :
  (∀ a b : list string,
     stable_lines a = stable_lines b ->
     calculateRevisionHash md5 a = calculateRevisionHash md5 b)
  ∧ (∀ (before after : list string) (stamp stamp' : string),
       Js.startsWith stamp LAST_MODIFIED = true ->
       Js.startsWith stamp' LAST_MODIFIED = true ->
       calculateRevisionHash md5 (before ++ stamp :: after)
       = calculateRevisionHash md5 (before ++ stamp' :: after)).
Proof.
  assert (H : ∀ a b : list string,
             stable_lines a = stable_lines b ->
             calculateRevisionHash md5 a = calculateRevisionHash md5 b).
  { intros a b E.
    rewrite (calculateRevisionHash_stable a), (calculateRevisionHash_stable b).
    now rewrite E. }
  split; [exact H|].
  intros before after stamp stamp' Hs Hs'. apply H.
  rewrite !stable_lines_app, !stable_lines_stamp by assumption. reflexivity.
Qed.

End RevisionTracker.

Section RevisionHashWitness.

Import Builder.

Lemma calculateRevisionHash_ignores_last_modified_witness :
  let digest := fun data : string => String.rev data in
  calculateRevisionHash digest ["! Title: x"; "! Last modified: 2024-01-01"; "||a.example^"]
  = calculateRevisionHash digest ["! Title: x"; "! Last modified: 2025-06-30"; "||a.example^"]
  ∧ calculateRevisionHash digest ["||a.example^"; "! Last modified: 1"]
    = calculateRevisionHash digest ["! Last modified: 2"; "||a.example^"; "! Last modified: 3"].
Proof.
  intros digest.
  destruct (calculateRevisionHash_ignores_last_modified digest) as [Hany Hstamp].
  split.
  - apply (Hstamp ["! Title: x"] ["||a.example^"]); reflexivity.
  - apply Hany. reflexivity.
Defined.

End RevisionHashWitness.

(** ** The [expires] field *)

Section Expires.

Import Builder.

Lemma replaceExpires_absent : replaceExpires None = JNumber (Js.Num 86400).
Proof. reflexivity. Qed.

Lemma replaceExpires_days (s : string) (n : Z) :
  0 < Js.indexOf s "day" 0 -> Js.parseInt s = Js.Num n -> n ≠ 0 ->
  replaceExpires (Some s) = JNumber (Js.Num (n * 86400)).
Proof.
  intros Hd Hn Hz. unfold replaceExpires.
  destruct s as [|c s]; [discriminate Hd|]. simpl truthy. cbv iota.
  apply Z.ltb_lt in Hd. rewrite Hd, Hn. simpl.
  unfold or_else. simpl.
  destruct (n * 24 * 60 * 60 =? 0) eqn:E.
  - apply Z.eqb_eq in E. lia.
  - simpl. do 2 f_equal. lia.
Qed.

Lemma replaceExpires_hours (s : string) (n : Z) :
  Js.indexOf s "day" 0 <= 0 -> 0 < Js.indexOf s "hour" 0 ->
  Js.parseInt s = Js.Num n -> n ≠ 0 ->
  replaceExpires (Some s) = JNumber (Js.Num (n * 3600)).
Proof.
  intros Hd Hh Hn Hz. unfold replaceExpires.
  destruct s as [|c s]; [discriminate Hh|]. simpl truthy. cbv iota.
  apply Z.ltb_lt in Hh. apply Z.ltb_ge in Hd. rewrite Hd, Hh, Hn. simpl.
  unfold or_else. simpl.
  destruct (n * 60 * 60 =? 0) eqn:E.
  - apply Z.eqb_eq in E. lia.
  - simpl. do 2 f_equal. lia.
Qed.


(** A non-empty text that names neither unit comes back as it is. *)
Lemma replaceExpires_no_unit (s : string) :
  s ≠ EmptyString ->
  Js.indexOf s "day" 0 <= 0 -> Js.indexOf s "hour" 0 <= 0 ->
  replaceExpires (Some s) = JString s.
Proof.
  intros Hs Hd Hh. unfold replaceExpires.
  destruct s as [|c s]; [contradiction|]. simpl truthy. cbv iota.
  apply Z.ltb_ge in Hd, Hh. rewrite Hd, Hh. reflexivity.
Qed.

(** C4. The expires resolver on the inputs of the specification: the two
    recognised units and the absent input resolve as specified, while the
    text "banana" and a text with the unit "weeks" are returned unchanged
    instead of the default 86400. *)
Theorem replaceExpires_on_examples :
  replaceExpires (Some "5 days") = JNumber (Js.Num 432000)
  ∧ replaceExpires (Some "4 hours") = JNumber (Js.Num 14400)
  ∧ replaceExpires None = JNumber (Js.Num 86400)
  ∧ replaceExpires (Some "banana") = JString "banana"
  ∧ replaceExpires (Some "5 weeks") = JString "5 weeks".
Proof. repeat split; reflexivity. Qed.

End Expires.

(** ** The Locale Folder *)

Section LocaleFolder.

Import Builder Spec.

Lemma get_set_prop (r : Localizations) (p kind : PropName) (e : LocalizationEntry) :
  get_prop (set_prop r p e) kind = if decide (kind = p) then e else get_prop r kind.
Proof. destruct p, kind; reflexivity. Qed.

Lemma translation_insert (entry : LocalizationEntry) (id' locale' field' value : string)
    (id locale field : string) :
  translation
    (<[id' := <[locale' := <[field' := value]>
                 (default ∅ (default ∅ (entry !! id') !! locale'))]>
                (default ∅ (entry !! id'))]> entry) id locale field
  = if decide (id = id' ∧ locale = locale' ∧ field = field')
    then Some value
    else translation entry id locale field.
Proof.
  unfold translation.
  destruct (decide (id = id')) as [->|Hid].
  2:{ rewrite lookup_insert_ne by congruence.
      destruct (decide _) as [(? & _)|_]; [contradiction | reflexivity]. }
  rewrite lookup_insert_eq.
  destruct (decide (locale = locale')) as [->|Hl].
  2:{ rewrite lookup_insert_ne by congruence.
      destruct (decide _) as [(_ & ? & _)|_]; [contradiction|].
      destruct (entry !! id'); simpl; [reflexivity|]. now rewrite lookup_empty. }
  rewrite lookup_insert_eq.
  destruct (decide (field = field')) as [->|Hf].
  - rewrite lookup_insert_eq. destruct (decide _) as [_|n]; [reflexivity|].
    exfalso. apply n. auto.
  - rewrite lookup_insert_ne by congruence.
    destruct (decide _) as [(_ & _ & ?)|_]; [contradiction|].
    destruct (entry !! id') as [forId|]; simpl.
    + destruct (forId !! locale'); simpl; [reflexivity|]. apply lookup_empty.
    + rewrite lookup_empty. simpl. now rewrite lookup_empty.
Qed.

(** One property of one message: it sets (kind, id, locale, field) when
    its key parses to that id and field, and touches nothing else. *)
Lemma addProperty_translation (locale : string) (item : Item) (r : Localizations)
    (entry : string * string) (kind : PropName) (id loc field : string) :
  translation (get_prop (addProperty locale item r entry) kind) id loc field
  = if decide (kind = propName item ∧ loc = locale
               ∧ contributes (prefix item) id field entry = true)
    then Some (snd entry)
    else translation (get_prop r kind) id loc field.
Proof.
  destruct entry as [property value]. unfold addProperty, contributes.
  cbn [fst snd].
  set (info := parseInfo property (prefix item)).
  destruct (String.eqb (info_id info) EmptyString) eqn:Eid; cbn [negb andb].
  { destruct (decide _) as [(_ & _ & Hc)|_]; [discriminate Hc | reflexivity]. }
  rewrite get_set_prop.
  destruct (decide (kind = propName item)) as [->|Hk].
  2:{ destruct (decide _) as [(? & _)|_]; [contradiction | reflexivity]. }
  rewrite translation_insert.
  destruct (decide (id = info_id info ∧ loc = locale ∧ field = info_message info))
    as [(-> & -> & ->)|Hn].
  - rewrite !String.eqb_refl. destruct (decide _) as [_|n]; [reflexivity|].
    exfalso. apply n. auto.
  - destruct (decide _) as [(_ & -> & Hc)|_]; [|reflexivity].
    exfalso. apply Hn. apply andb_prop in Hc as [Hi Hf].
    apply String.eqb_eq in Hi, Hf. auto.
Qed.

Lemma addMessages_concat (locale : string) (item : Item) (r : Localizations)
    (messages : list Message) :
  addMessages locale item r messages
  = fold_left (addProperty locale item) (List.concat messages) r.
Proof.
  unfold addMessages. revert r.
  induction messages as [|m rest IH]; intros r; simpl; [reflexivity|].
  rewrite IH. symmetry. apply List.fold_left_app.
Qed.

(** A whole file: for its own mapping and locale the last contributing
    property decides; everything else is as before. *)
Lemma addMessages_translation (locale : string) (item : Item) (r : Localizations)
    (messages : list Message) (kind : PropName) (id loc field : string) :
  translation (get_prop (addMessages locale item r messages) kind) id loc field
  = if decide (kind = propName item ∧ loc = locale)
    then match contribution (prefix item) messages id field with
         | Some v => Some v
         | None => translation (get_prop r kind) id loc field
         end
    else translation (get_prop r kind) id loc field.
Proof.
  rewrite addMessages_concat. unfold contribution.
  induction (List.concat messages) as [|entry entries IH] using rev_ind.
  - simpl. now destruct (decide _).
  - rewrite List.fold_left_app, List.rev_app_distr. simpl.
    rewrite addProperty_translation, IH. clear IH.
    destruct (decide (kind = propName item ∧ loc = locale)) as [[-> ->]|Hn].
    + destruct (contributes (prefix item) id field entry) eqn:Ec.
      * destruct (decide _) as [_|n]; [reflexivity|]. exfalso. apply n. auto.
      * destruct (decide _) as [(_ & _ & ?)|_]; [discriminate | reflexivity].
    + destruct (decide _) as [(? & ? & _)|_]; [|reflexivity].
      exfalso. apply Hn. auto.
Qed.

Lemma loadItem_returns (locale : string) (r : Localizations) (item : Item)
    (w : World) (r' : Localizations) (w' : World) :
  loadItem locale r item w = (Returned r', w') ->
  w' = w ∧ r' = addMessages locale item r (messagesOf w item).
Proof.
  unfold loadItem, parse, readFile, bind, ret, throw, messagesOf.
  destruct (files w !! file item) as [f|]; simpl.
  - destruct (as_messages f); simpl; intros H; inversion H; auto.
  - intros H. inversion H. auto.
Qed.

Lemma localeItems_eq (d : string) :
  localeItems d = [localeItem d prop_tags; localeItem d prop_filters].
Proof. reflexivity. Qed.

(** A whole locale directory. *)
Lemma loadLocaleDir_translation (r : Localizations) (d : string) (w : World)
    (r' : Localizations) (w' : World) (kind : PropName) (id loc field : string) :
  loadLocaleDir r d w = (Returned r', w') ->
  w' = w
  ∧ translation (get_prop r' kind) id loc field
    = if decide (loc = basename d)
      then match contributionOf w d kind id field with
           | Some v => Some v
           | None => translation (get_prop r kind) id loc field
           end
      else translation (get_prop r kind) id loc field.
Proof.
  unfold loadLocaleDir. rewrite localeItems_eq. cbn [foldM]. unfold bind at 1.
  destruct (loadItem (basename d) r (localeItem d prop_tags) w) as [[r1|e] w1] eqn:E1;
    [|intros H; discriminate H].
  apply loadItem_returns in E1 as [-> ->].
  unfold bind at 1.
  destruct (loadItem (basename d) _ (localeItem d prop_filters) w) as [[r2|e] w2] eqn:E2;
    [|intros H; discriminate H].
  apply loadItem_returns in E2 as [-> ->].
  unfold ret. intros H. inversion H; subst. split; [reflexivity|].
  rewrite !addMessages_translation. unfold contributionOf.
  destruct kind; cbn [localeItem propName prefix].
  all: destruct (decide (loc = basename d)) as [->|Hl].
  all: repeat match goal with
       | |- context [decide (?a = ?b ∧ ?c = ?d)] =>
           destruct (decide (a = b ∧ c = d)) as [[? ?]|?]
       end; try discriminate; try tauto.
  all: try reflexivity.
  all: try (now destruct (contribution _ _ id field)).
Qed.

Lemma foldM_loadLocaleDir (dirs : list string) (r : Localizations) (w : World)
    (r' : Localizations) (w' : World) :
  foldM loadLocaleDir r dirs w = (Returned r', w') ->
  w' = w
  ∧ ∀ (kind : PropName) (id loc field : string),
      (loc ∉ basename <$> dirs ->
       translation (get_prop r' kind) id loc field
       = translation (get_prop r kind) id loc field)
      ∧ (NoDup (basename <$> dirs) ->
         ∀ d, d ∈ dirs -> loc = basename d ->
         translation (get_prop r' kind) id loc field
         = match contributionOf w d kind id field with
           | Some v => Some v
           | None => translation (get_prop r kind) id loc field
           end).
Proof.
  revert r. induction dirs as [|d0 rest IH]; intros r; cbn [foldM].
  - unfold ret. intros H. inversion H; subst. split; [reflexivity|].
    intros kind id loc field. split; [reflexivity|].
    intros _ d Hd. now apply elem_of_nil in Hd.
  - unfold bind at 1.
    destruct (loadLocaleDir r d0 w) as [[r1|e] w1] eqn:E1; [|intros H; discriminate H].
    intros Hrest.
    pose proof (fun kind id loc field =>
                  proj2 (loadLocaleDir_translation r d0 w r1 w1 kind id loc field E1))
      as Hstep.
    destruct (loadLocaleDir_translation r d0 w r1 w1 prop_tags "" "" "" E1) as [-> _].
    apply IH in Hrest as [-> Hrest]. split; [reflexivity|].
    intros kind id loc field.
    destruct (Hrest kind id loc field) as [Hother Hown].
    specialize (Hstep kind id loc field).
    rewrite fmap_cons. split.
    + intros Hnot. apply not_elem_of_cons in Hnot as [Hne Hnot].
      rewrite (Hother Hnot), Hstep.
      destruct (decide (loc = basename d0)); [contradiction | reflexivity].
    + intros Hnodup d Hd Hloc. apply NoDup_cons in Hnodup as [Hfresh Hnodup].
      apply elem_of_cons in Hd as [->|Hd].
      * subst loc. rewrite (Hother Hfresh), Hstep.
        destruct (decide (basename d0 = basename d0)); [reflexivity | contradiction].
      * rewrite (Hown Hnodup d Hd Hloc), Hstep.
        destruct (decide (loc = basename d0)) as [Heq|_]; [|reflexivity].
        exfalso. apply Hfresh. rewrite <- Heq, Hloc.
        apply list_elem_of_fmap. eauto.
Qed.

Section Listing.

Variable listDirs : string -> list string.

Lemma translation_empty (kind : PropName) (id loc field : string) :
  translation (get_prop {| loc_tags := ∅; loc_filters := ∅ |} kind) id loc field = None.
Proof. destruct kind; unfold translation; simpl; now rewrite lookup_empty. Qed.

(** With one directory per locale, the translations recorded under a
    locale are exactly what the directory of that locale contributes. *)
Lemma loadLocales_translation (dir : string) (w : World) (result : Localizations)
    (w' : World) (d : string) (kind : PropName) (id field : string) :
  NoDup (basename <$> listDirs dir) ->
  loadLocales listDirs dir w = (Returned result, w') ->
  d ∈ listDirs dir ->
  translation (get_prop result kind) id (basename d) field
  = contributionOf w d kind id field.
Proof.
  intros Hnodup Hrun Hd. unfold loadLocales in Hrun.
  apply foldM_loadLocaleDir in Hrun as [_ Hrun].
  destruct (Hrun kind id (basename d) field) as [_ Hown].
  rewrite (Hown Hnodup d Hd eq_refl), translation_empty.
  now destruct (contributionOf w d kind id field).
Qed.

(** X29. On ordinary locale directories the locales are kept apart: when
    two distinct locale directories each contribute a value for the same
    (kind, id, field), the mapping returned by [loadLocales] holds both,
    each under the locale of its directory; and folding one more locale
    directory leaves every translation recorded under another locale as it
    was. *)
Theorem loadLocales_keeps_every_locale (dir : string) (w : World) :
  NoDup (basename <$> listDirs dir) ->
  (∀ d, d ∈ listDirs dir -> ordinaryLocale w d) ->
  (∀ (result : Localizations) (w' : World) (d1 d2 : string) (kind : PropName)
     (id field v1 v2 : string),
     loadLocales listDirs dir w = (Returned result, w') ->
     d1 ∈ listDirs dir -> d2 ∈ listDirs dir -> d1 ≠ d2 ->
     contributionOf w d1 kind id field = Some v1 ->
     contributionOf w d2 kind id field = Some v2 ->
     basename d1 ≠ basename d2
     ∧ translation (get_prop result kind) id (basename d1) field = Some v1
     ∧ translation (get_prop result kind) id (basename d2) field = Some v2)
  ∧ (∀ (earlier later : Localizations) (d : string) (w' : World) (kind : PropName)
       (id locale field : string),
       d ∈ listDirs dir ->
       loadLocaleDir earlier d w = (Returned later, w') ->
       locale ≠ basename d ->
       translation (get_prop later kind) id locale field
       = translation (get_prop earlier kind) id locale field).
Proof.
  intros Hnodup _. split.
  - intros result w' d1 d2 kind id field v1 v2 Hrun H1 H2 Hne Hc1 Hc2.
    split; [|split].
    + intros Heq. apply Hne.
      apply list_elem_of_lookup in H1 as [i1 H1], H2 as [i2 H2].
      assert (i1 = i2) as ->.
      { apply (NoDup_lookup _ i1 i2 (basename d1) Hnodup).
        - rewrite list_lookup_fmap, H1. reflexivity.
        - rewrite list_lookup_fmap, H2, Heq. reflexivity. }
      congruence.
    + rewrite <- Hc1. now apply (loadLocales_translation dir w result w').
    + rewrite <- Hc2. now apply (loadLocales_translation dir w result w').
  - intros earlier later d w' kind id locale field _ Hstep Hne.
    destruct (loadLocaleDir_translation earlier d w later w' kind id locale field Hstep)
      as [_ ->].
    destruct (decide (locale = basename d)); [contradiction | reflexivity].
Qed.

End Listing.

(** The locale directories of the fixtures are ordinary. *)
Lemma localeWorld_ordinary :
  ∀ d, d ∈ Fixtures.localeDirs "locales" -> ordinaryLocale Fixtures.localeWorld d.
Proof.
  intros d Hd. apply list_elem_of_In in Hd. simpl in Hd.
  destruct Hd as [<-|[<-|[]]]; (split; [|intros []]);
    apply (bool_decide_unpack _); vm_compute; exact I.
Qed.

Lemma loadLocales_keeps_every_locale_witness :
  match loadLocales Fixtures.localeDirs "locales" Fixtures.localeWorld with
  | (Returned result, _) =>
      translation (loc_filters result) "10" "en" "name" = Some "DNS filter"
      ∧ translation (loc_filters result) "10" "fr" "name" = Some "Filtre DNS"
  | (Thrown _, _) => False
  end.
Proof.
  assert (Hnodup : NoDup (basename <$> Fixtures.localeDirs "locales")).
  { apply (bool_decide_unpack _). vm_compute. exact I. }
  destruct (loadLocales_keeps_every_locale Fixtures.localeDirs "locales"
              Fixtures.localeWorld Hnodup localeWorld_ordinary) as [Hboth _].
  destruct (loadLocales Fixtures.localeDirs "locales" Fixtures.localeWorld)
    as [[result|e] w'] eqn:Hrun.
  - refine (proj2 (Hboth result w' "locales/en" "locales/fr" prop_filters
                     "10" "name" "DNS filter" "Filtre DNS" eq_refl _ _ _ _ _)).
    + apply list_elem_of_In. simpl. auto.
    + apply list_elem_of_In. simpl. auto.
    + discriminate.
    + vm_compute. reflexivity.
    + vm_compute. reflexivity.
  - vm_compute in Hrun. discriminate Hrun.
Defined.

(** A key whose parsed id is empty adds nothing. *)
Lemma addProperty_skips_empty_id (locale : string) (item : Item) (r : Localizations)
    (property value : string) :
  info_id (parseInfo property (prefix item)) = EmptyString ->
  addProperty locale item r (property, value) = r.
Proof. intros H. unfold addProperty. now rewrite H. Qed.

(** A key that does not contain the mask is parsed all the same: the id
    is cut out of the key at the position where the mask would have
    ended. *)
Lemma parseInfo_without_mask :
  parseInfo "filter.10.name" "hostlist." = {| info_id := "0"; info_message := "name" |}
  ∧ parseInfo "abc" "hostlist." = {| info_id := "abc"; info_message := "abc" |}
  ∧ parseInfo "hostlist..name" "hostlist." = {| info_id := ""; info_message := "name" |}.
Proof. repeat split; reflexivity. Qed.

(** C6. A locale file with the key "filter.10.name", which lacks the
    "hostlist." prefix, and the key "hostlist..name", whose id is empty:
    [loadLocales] raises no error and skips the key with the empty id, but
    it records the key without the prefix under the id "0". *)
Theorem loadLocales_on_stray_keys :
  loadLocales Fixtures.strayLocaleDirs "locales" Fixtures.strayLocaleWorld
  = (Returned {| loc_tags := ∅;
                 loc_filters := {[ "0" := {[ "en" := {[ "name" := "X" ]} ]} ]} |},
     Fixtures.strayLocaleWorld).
Proof. vm_compute. reflexivity. Qed.

End LocaleFolder.

(** ** The Metadata Aggregator *)

Section Aggregator.

Import Builder Spec.

Variable listDirs : string -> list string.
Variable listFiltersDirs : string -> list string.
Variable clock : nat -> Z.
Variable md5 : string -> string.
Variable hostlistCompiler : option HostlistConfiguration -> option (list string).
Variable mastodonServerlistCompiler : option (list string).

Ltac run_buildFilter :=
  unfold buildFilter, readHostlistConfiguration, parse, nonnull, readFile,
    writeFile, getTime, bind, ret, throw, metadataOf, configurationOf,
    storedHash, storedRevision, revisionReadable, pushed.

Ltac use_facts :=
  repeat match goal with
    | H : files _ !! _ = _ |- _ => rewrite H
    | H : String.eqb _ _ = _ |- _ => rewrite H
    | H : sources _ = _ |- _ => rewrite H
    end.

(** Every way in which the body of the loop can end. *)
Lemma buildFilter_inv (assetsDir : string) (catalogs : Catalogs) (d : string)
    (w : World) (o : Outcome Catalogs) (w' : World) :
  buildFilter clock md5 hostlistCompiler assetsDir catalogs d w = (o, w') ->
  ((written w' = written w ∧ files w' = files w)
   ∨ (∃ m compiled now,
        metadataOf w d = Some m ∧ disabled m = false
        ∧ hostlistCompiler (configurationOf w d) = Some compiled
        ∧ storedHash w d ≠ Some (calculateRevisionHash md5 compiled)
        ∧ written w' = (written w ++ listOutputs assetsDir d m)%list
        ∧ files w'
          = <[path_join d "filter.txt" :=
                Text (Js.join (String "010"%char EmptyString) compiled)]>
              (<[path_join assetsDir ("filter_" +:+ pretty (id m) +:+ ".txt") :=
                   Text (Js.join (String "010"%char EmptyString) compiled)]>
                 (<[path_join d REVISION_FILE :=
                      RevisionJson
                        {| timeUpdated := now;
                           hash := Some (calculateRevisionHash md5 compiled) |}]>
                    (files w)))))
  ∧ (∀ catalogs', o = Returned catalogs' ->
       ∃ m c fm,
         metadataOf w d = Some m ∧ configurationOf w d = Some c
         ∧ catalogs' = pushed catalogs m fm
         ∧ fm_id fm = id m
         ∧ fm_homepage fm = homepage m
         ∧ fm_expires fm = replaceExpires (expires m)
         ∧ fm_sourceUrl fm
           = match sources c with
             | [only] => source only
             | _ => homepage m
             end)
  ∧ (∀ m, metadataOf w d = Some m -> disabled m = true ->
       written w' = written w ∧ files w' = files w).
Proof.
  destruct catalogs as [filtersMetadata filtersMetadataDev].
  run_buildFilter. intros H.
  repeat (case_match; simplify_eq/=; auto).
  all: repeat match goal with
       | H : as_metadata ?f = Some _ |- _ => destruct f; simplify_eq/=
       | H : as_revision ?f = Some _ |- _ => destruct f; simplify_eq/=
       | H : as_configuration ?f = Some _ |- _ => destruct f; simplify_eq/=
       end.
  all: repeat split; try (intros; simplify_eq/=; try congruence; auto; fail).
  all: try (intros ? ?; simplify_eq/=; eexists _, _, _;
            split; [reflexivity|];
            split; [use_facts; reflexivity|];
            use_facts; repeat split; reflexivity).
  all: try (right; eexists _, _, _; use_facts; repeat split; eauto;
            rewrite <- ?app_assoc; reflexivity).
Qed.

(** A disabled hostlist never reaches the compiler. *)
Lemma buildFilter_skips_compiler (assetsDir : string) (catalogs : Catalogs)
    (d : string) (w : World) (m : Metadata)
    (compiler : option HostlistConfiguration -> option (list string)) :
  metadataOf w d = Some m -> disabled m = true ->
  buildFilter clock md5 compiler assetsDir catalogs d w
  = buildFilter clock md5 hostlistCompiler assetsDir catalogs d w.
Proof.
  destruct catalogs as [filtersMetadata filtersMetadataDev].
  run_buildFilter. intros Hm Hd.
  destruct (files w !! path_join d METADATA_FILE) as [f|]; [|discriminate Hm].
  destruct f; simplify_eq/=.
  repeat (case_match; simplify_eq/=; try reflexivity).
Qed.

(** A disabled hostlist whose files can be read yields its record. *)
Lemma buildFilter_disabled_returns (assetsDir : string) (catalogs : Catalogs)
    (d : string) (w : World) (m : Metadata) (c : HostlistConfiguration) :
  metadataOf w d = Some m -> disabled m = true ->
  configurationOf w d = Some c -> revisionReadable w d ->
  ∃ fm w',
    buildFilter clock md5 hostlistCompiler assetsDir catalogs d w
    = (Returned (pushed catalogs m fm), w')
    ∧ fm_id fm = id m.
Proof.
  destruct catalogs as [filtersMetadata filtersMetadataDev].
  intros Hm Hd Hc Hr.
  assert (Hm' : files w !! path_join d METADATA_FILE = Some (MetadataJson m)).
  { unfold metadataOf in Hm.
    destruct (files w !! path_join d METADATA_FILE) as [[]|]; simplify_eq/=.
    reflexivity. }
  assert (Hc' : files w !! path_join d CONFIGURATION_FILE = Some (ConfigurationJson c)).
  { unfold configurationOf in Hc.
    destruct (files w !! path_join d CONFIGURATION_FILE) as [[]|]; simplify_eq/=.
    reflexivity. }
  run_buildFilter.
  destruct Hr as [Hr | [r Hr]]; rewrite Hm'; simpl; rewrite Hr; simpl;
    rewrite Hc'; simpl; rewrite Hd; eexists _, _; split; reflexivity.
Qed.

(** C7. The body of the loop writes a file only when the hostlist is
    enabled, its compilation succeeded and the new hash differs from the
    stored one, and then it writes exactly the revision file and the two
    copies of the compiled filter; for a disabled hostlist nothing is
    written and no file changes whatever the compiler would answer, and
    the record of the hostlist is still pushed to the catalogs. *)
Theorem buildFilter_rewrites_only_on_change (assetsDir : string)
    (catalogs : Catalogs) (d : string) (w : World) :
  (∀ o w',
     buildFilter clock md5 hostlistCompiler assetsDir catalogs d w = (o, w') ->
     written w' ≠ written w ∨ files w' ≠ files w ->
     ∃ m compiled,
       metadataOf w d = Some m ∧ disabled m = false
       ∧ hostlistCompiler (configurationOf w d) = Some compiled
       ∧ storedHash w d ≠ Some (calculateRevisionHash md5 compiled)
       ∧ written w' = (written w ++ listOutputs assetsDir d m)%list)
  ∧ (∀ m, metadataOf w d = Some m -> disabled m = true ->
       (∀ compiler o w',
          buildFilter clock md5 compiler assetsDir catalogs d w = (o, w') ->
          written w' = written w ∧ files w' = files w
          ∧ buildFilter clock md5 hostlistCompiler assetsDir catalogs d w = (o, w'))
       ∧ (∀ c, configurationOf w d = Some c -> revisionReadable w d ->
            ∃ fm w',
              buildFilter clock md5 hostlistCompiler assetsDir catalogs d w
              = (Returned (pushed catalogs m fm), w')
              ∧ fm_id fm = id m)).
Proof.
  split.
  - intros o w' Hrun Hchanged.
    destruct (buildFilter_inv _ _ _ _ _ _ Hrun) as ([[Hw Hf] | Hwrote] & _ & _).
    + destruct Hchanged; contradiction.
    + destruct Hwrote as (m & compiled & now & Hm & Hd & Hc & Hh & Hw & _).
      exists m, compiled. auto.
  - intros m Hm Hd. split.
    + intros compiler o w' Hrun.
      rewrite (buildFilter_skips_compiler _ _ _ _ _ compiler Hm Hd) in Hrun.
      destruct (buildFilter_inv _ _ _ _ _ _ Hrun) as (_ & _ & Hfrozen).
      destruct (Hfrozen m Hm Hd). auto.
    + intros c Hc Hr. now apply (buildFilter_disabled_returns _ _ _ _ m c).
Qed.

(** C8. The [sourceUrl] of the record pushed for a hostlist is the URL of
    its source when the configuration has exactly one source, and the
    homepage of the descriptor when it has none or several. *)
Theorem sourceUrl_resolution (assetsDir : string) (catalogs catalogs' : Catalogs)
    (d : string) (w w' : World) :
  buildFilter clock md5 hostlistCompiler assetsDir catalogs d w
  = (Returned catalogs', w') ->
  ∃ m c fm,
    metadataOf w d = Some m ∧ configurationOf w d = Some c
    ∧ catalogs' = pushed catalogs m fm
    ∧ (∀ only, sources c = [only] -> fm_sourceUrl fm = source only)
    ∧ (List.length (sources c) ≠ 1%nat -> fm_sourceUrl fm = homepage m).
Proof.
  intros Hrun.
  destruct (buildFilter_inv _ _ _ _ _ _ Hrun) as (_ & Hret & _).
  destruct (Hret catalogs' eq_refl) as (m & c & fm & Hm & Hc & Hp & _ & _ & _ & Hs).
  exists m, c, fm. repeat split; try assumption.
  - intros only Ho. now rewrite Hs, Ho.
  - intros Hlen. rewrite Hs. destruct (sources c) as [|s1 [|s2 rest]]; simpl in *;
      [reflexivity | contradiction | reflexivity].
Qed.

(** *** Paths *)

Lemma revision_path (d : string) : path_join d REVISION_FILE = d +:+ "/revision.json".
Proof. reflexivity. Qed.

Lemma listOutputs_shape (assetsDir d : string) (m : Metadata) (p : string) :
  p ∈ listOutputs assetsDir d m -> listOutputPath p.
Proof.
  unfold listOutputs. intros Hp.
  apply elem_of_cons in Hp as [->|Hp]; [left; exists d; reflexivity|].
  apply elem_of_cons in Hp as [->|Hp].
  { right. exists (assetsDir +:+ "/" +:+ "filter_" +:+ pretty (id m)).
    unfold path_join. now rewrite !app_assoc_str. }
  apply elem_of_cons in Hp as [->|Hp]; [|now apply elem_of_nil in Hp].
  right. exists (d +:+ "/filter"). unfold path_join. now rewrite !app_assoc_str.
Qed.

Ltac refute_suffix :=
  match goal with
  | |- ¬ ?P =>
      let H := fresh in
      intros H; apply (bool_decide_pack P) in H; vm_compute in H; exact H
  end.

(** A file whose name ends neither like a revision file nor like a
    compiled filter is not written inside the loop. *)
Lemma not_listOutputPath (dir ending : string) :
  ¬ (chars ending `suffix_of` chars "/revision.json") ->
  ¬ (chars "/revision.json" `suffix_of` chars ending) ->
  ¬ (chars ending `suffix_of` chars ".txt") ->
  ¬ (chars ".txt" `suffix_of` chars ending) ->
  ¬ listOutputPath (dir +:+ ending).
Proof.
  intros H1 H2 H3 H4 [[u Hu] | [u Hu]]; revert Hu; now apply endings_differ.
Qed.

Lemma metadata_not_output (d : string) : ¬ listOutputPath (path_join d METADATA_FILE).
Proof. apply (not_listOutputPath d "/metadata.json"); refute_suffix. Qed.

Lemma configuration_not_output (d : string) :
  ¬ listOutputPath (path_join d CONFIGURATION_FILE).
Proof. apply (not_listOutputPath d "/configuration.json"); refute_suffix. Qed.

Lemma catalog_not_output (assetsDir p : string) :
  p ∈ catalogFiles assetsDir -> ¬ listOutputPath p.
Proof.
  unfold catalogFiles. intros Hp.
  apply elem_of_cons in Hp as [->|Hp];
    [apply (not_listOutputPath assetsDir "/services.json"); refute_suffix|].
  apply elem_of_cons in Hp as [->|Hp];
    [apply (not_listOutputPath assetsDir "/filters.json"); refute_suffix|].
  apply elem_of_cons in Hp as [->|Hp];
    [apply (not_listOutputPath assetsDir "/filters-dev.json"); refute_suffix|].
  apply elem_of_cons in Hp as [->|Hp]; [|now apply elem_of_nil in Hp].
  apply (not_listOutputPath assetsDir "/filters_i18n.json"); refute_suffix.
Qed.

Lemma path_join_inj (dir a b : string) : path_join dir a = path_join dir b -> a = b.
Proof.
  unfold path_join. intros H.
  apply String.app_inj in H. now apply String.app_inj in H.
Qed.

(** *** The loop over the hostlist directories *)

Lemma buildFilter_frame (assetsDir : string) (catalogs : Catalogs) (d : string)
    (w : World) (o : Outcome Catalogs) (w' : World) :
  buildFilter clock md5 hostlistCompiler assetsDir catalogs d w = (o, w') ->
  ∃ ws,
    written w' = (written w ++ ws)%list
    ∧ Forall listOutputPath ws
    ∧ (∀ p, ¬ listOutputPath p -> files w' !! p = files w !! p).
Proof.
  intros Hrun.
  destruct (buildFilter_inv _ _ _ _ _ _ Hrun) as ([[Hw Hf] | Hwrote] & _ & _).
  - exists []. rewrite app_nil_r, Hf. auto.
  - destruct Hwrote as (m & compiled & now & _ & _ & _ & _ & Hw & Hf).
    exists (listOutputs assetsDir d m). split; [exact Hw|]. split.
    + apply Forall_forall. intros p Hp. eapply listOutputs_shape. exact Hp.
    + intros p Hp. rewrite Hf.
      assert (Hne : ∀ q, q ∈ listOutputs assetsDir d m -> q ≠ p).
      { intros q Hq <-. apply Hp. eapply listOutputs_shape. exact Hq. }
      rewrite !lookup_insert_ne; [reflexivity|..]; apply Hne; unfold listOutputs.
      * apply list_elem_of_here.
      * apply list_elem_of_further, list_elem_of_here.
      * do 2 apply list_elem_of_further. apply list_elem_of_here.
Qed.

Lemma foldM_buildFilter (assetsDir : string) (dirs : list string) :
  ∀ (catalogs : Catalogs) (w : World) (o : Outcome Catalogs) (w' : World),
    foldM (buildFilter clock md5 hostlistCompiler assetsDir) catalogs dirs w = (o, w') ->
    ∃ ws,
      written w' = (written w ++ ws)%list
      ∧ Forall listOutputPath ws
      ∧ (∀ p, ¬ listOutputPath p -> files w' !! p = files w !! p)
      ∧ (∀ catalogs', o = Returned catalogs' ->
           ∃ records,
             Forall2 (recordFor w) dirs records
             ∧ catalogs'
               = ((fst catalogs ++ List.map snd (List.filter isProd records))%list,
                  (snd catalogs ++ List.map snd records)%list)).
Proof.
  induction dirs as [|d rest IH]; intros catalogs w o w'; cbn [foldM].
  - unfold ret. intros H. inversion H; subst. exists []. rewrite app_nil_r.
    repeat split; auto.
    intros catalogs' Hc. inversion Hc; subst. exists []. split; [constructor|].
    simpl. rewrite !app_nil_r. now destruct catalogs'.
  - unfold bind at 1.
    destruct (buildFilter clock md5 hostlistCompiler assetsDir catalogs d w)
      as [[catalogs1|e] w1] eqn:Estep.
    + intros Hrest.
      destruct (buildFilter_frame _ _ _ _ _ _ Estep) as (ws1 & Hw1 & Hs1 & Hf1).
      destruct (buildFilter_inv _ _ _ _ _ _ Estep) as (_ & Hret & _).
      destruct (Hret catalogs1 eq_refl) as (m & c & fm & Hm & _ & Hp & Hid & _).
      destruct (IH _ _ _ _ Hrest) as (ws2 & Hw2 & Hs2 & Hf2 & Hrec).
      exists (ws1 ++ ws2)%list. split; [now rewrite Hw2, Hw1, app_assoc|].
      split; [now apply Forall_app|].
      split; [intros p Hp'; now rewrite (Hf2 p Hp'), (Hf1 p Hp')|].
      intros catalogs' ->. destruct (Hrec _ eq_refl) as (records & Hall & ->).
      exists ((m, fm) :: records). split.
      * constructor; [split; assumption|].
        eapply Forall2_impl; [exact Hall|].
        intros d' mf [Hm' Hid']. split; [|exact Hid'].
        unfold metadataOf in *. now rewrite <- (Hf1 _ (metadata_not_output d')).
      * subst catalogs1. unfold pushed, isProd. cbn [List.filter List.map fst snd].
        destruct (String.eqb (environment m) "prod"); cbn [List.map fst snd];
          now rewrite <- ?app_assoc.
    + intros H. inversion H; subst.
      destruct (buildFilter_frame _ _ _ _ _ _ Estep) as (ws1 & Hw1 & Hs1 & Hf1).
      exists ws1. repeat split; auto. intros catalogs' Hc. discriminate Hc.
Qed.

(** *** Reading the locale files changes nothing and fails only on a
    rejected JSON text *)

Lemma foldM_readsOnly {A B} (body : A -> B -> Build A) :
  (∀ a b, readsOnly (body a b)) -> ∀ l a, readsOnly (foldM body a l).
Proof.
  intros Hbody l. induction l as [|x rest IH]; intros a w o w'; cbn [foldM].
  - unfold ret. intros H. inversion H; subst. split; [reflexivity|]. discriminate.
  - unfold bind. destruct (body a x w) as [[a'|e] w1] eqn:E.
    + destruct (Hbody _ _ _ _ _ E) as [-> _]. apply IH.
    + destruct (Hbody _ _ _ _ _ E) as [-> He]. intros H. inversion H; subst. auto.
Qed.

Lemma loadItem_readsOnly (locale : string) (r : Localizations) (item : Item) :
  readsOnly (loadItem locale r item).
Proof.
  intros w o w'. unfold loadItem, parse, readFile, bind, ret, throw.
  destruct (files w !! file item) as [f|]; simpl.
  - destruct (as_messages f); simpl; intros H; inversion H; subst;
      (split; [reflexivity|]); intros e He; inversion He; subst; auto.
  - intros H. inversion H; subst. split; [reflexivity|]. discriminate.
Qed.

Lemma loadLocales_readsOnly (dir : string) : readsOnly (loadLocales listDirs dir).
Proof.
  unfold loadLocales. apply foldM_readsOnly. intros r d.
  unfold loadLocaleDir. apply foldM_readsOnly. intros r' item.
  apply loadItem_readsOnly.
Qed.

(** *** The whole build *)

Lemma build_inv (filtersDir tagsDir localesDir assetsDir : string)
    (w : World) (o : Outcome unit) (w' : World) :
  build listDirs listFiltersDirs clock md5 hostlistCompiler
    mastodonServerlistCompiler filtersDir tagsDir localesDir assetsDir w = (o, w') ->
  ∃ oloop wloop,
    foldM (buildFilter clock md5 hostlistCompiler assetsDir) ([], [])
      (listFiltersDirs filtersDir) w = (oloop, wloop)
    ∧ (∀ e, o = Thrown e -> beforeCatalogs e -> w' = wloop)
    ∧ (o = Returned tt ->
       ∃ filtersMetadata filtersMetadataDev tagsMetadata,
         oloop = Returned (filtersMetadata, filtersMetadataDev)
         ∧ files w' !! path_join assetsDir FILTERS_METADATA_FILE
           = Some (CatalogJson {| cat_filters := filtersMetadata;
                                  cat_tags := tagsMetadata |})
         ∧ files w' !! path_join assetsDir FILTERS_METADATA_DEV_FILE
           = Some (CatalogJson {| cat_filters := filtersMetadataDev;
                                  cat_tags := tagsMetadata |})).
Proof.
  unfold build. unfold bind at 1.
  destruct (foldM _ _ _ w) as [[[filtersMetadata filtersMetadataDev]|e] wloop] eqn:Eloop.
  2:{ intros H. inversion H; subst. eexists _, _. split; [reflexivity|].
      split; [reflexivity | discriminate]. }
  intros Hrun. eexists _, _. split; [reflexivity|]. revert Hrun.
  unfold parse, nonnull, readFile, writeFile, bind, ret, throw.
  intros Hrun.
  repeat (case_match; simplify_eq/=).
  all: repeat match goal with
       | H : loadLocales _ _ _ = _ |- _ =>
           apply loadLocales_readsOnly in H; destruct H as [? H]; simplify_eq/=
       end.
  all: split;
    [ intros e' He' Hb; simplify_eq/=; try reflexivity; try contradiction;
      match goal with
      | H : ∀ e, Thrown _ = Thrown e -> ¬ beforeCatalogs e |- _ =>
          exfalso; eapply H; [reflexivity | eassumption]
      end
    | try (intros Habs; discriminate Habs) ].
  all: intros _; eexists _, _, _; split; [reflexivity|].
  all: split.
  all: repeat (rewrite lookup_insert_ne
                 by (intros Heq; apply path_join_inj in Heq; discriminate Heq)).
  all: apply lookup_insert_eq.
Qed.

Lemma NoDup_map_inj {A B} (f : A -> B) (l : list A) (x y : A) :
  NoDup (List.map f l) -> x ∈ l -> y ∈ l -> f x = f y -> x = y.
Proof.
  intros Hnodup Hx Hy Hf.
  apply list_elem_of_lookup in Hx as [i Hi], Hy as [j Hj].
  assert (i = j) as ->.
  { apply (NoDup_lookup _ i j (f x) Hnodup).
    - change (List.map f l) with (f <$> l). now rewrite list_lookup_fmap, Hi.
    - change (List.map f l) with (f <$> l). now rewrite list_lookup_fmap, Hj, Hf. }
  congruence.
Qed.

(** C9. After a successful build the dev catalog holds the records of all
    the hostlists, in the order of the listing, and the prod catalog holds
    those of the hostlists whose environment is "prod"; with distinct list
    ids, the record of a hostlist is in the dev catalog, and it is in the
    prod catalog exactly when the environment of the hostlist is "prod". *)
Theorem catalogs_partition (filtersDir tagsDir localesDir assetsDir : string)
    (w w' : World) :
  build listDirs listFiltersDirs clock md5 hostlistCompiler
    mastodonServerlistCompiler filtersDir tagsDir localesDir assetsDir w
  = (Returned tt, w') ->
  ∃ records prodCatalog devCatalog,
    Forall2 (recordFor w) (listFiltersDirs filtersDir) records
    ∧ files w' !! path_join assetsDir FILTERS_METADATA_FILE
      = Some (CatalogJson prodCatalog)
    ∧ files w' !! path_join assetsDir FILTERS_METADATA_DEV_FILE
      = Some (CatalogJson devCatalog)
    ∧ cat_filters prodCatalog = List.map snd (List.filter isProd records)
    ∧ cat_filters devCatalog = List.map snd records
    ∧ (NoDup (List.map (fun mf => id (fst mf)) records) ->
       ∀ m fm, (m, fm) ∈ records ->
         fm ∈ cat_filters devCatalog
         ∧ (fm ∈ cat_filters prodCatalog ↔ environment m = "prod")).
Proof.
  intros Hrun.
  destruct (build_inv _ _ _ _ _ _ _ Hrun) as (oloop & wloop & Hloop & _ & Hret).
  destruct (Hret eq_refl) as (prod & dev & tagsMetadata & -> & Hprod & Hdev).
  destruct (foldM_buildFilter _ _ _ _ _ _ Hloop) as (ws & _ & _ & _ & Hrec).
  destruct (Hrec _ eq_refl) as (records & Hall & Heq).
  simpl in Heq. injection Heq as -> ->.
  exists records, {| cat_filters := List.map snd (List.filter isProd records);
                     cat_tags := tagsMetadata |},
    {| cat_filters := List.map snd records; cat_tags := tagsMetadata |}.
  do 3 (split; [assumption|]). do 2 (split; [reflexivity|]).
  intros Hnodup m fm Hmem. cbn [cat_filters]. split; [|split].
  - apply list_elem_of_In, List.in_map_iff. exists (m, fm).
    split; [reflexivity|]. now apply list_elem_of_In.
  - intros Hin. apply list_elem_of_In, List.in_map_iff in Hin as ([m' fm'] & Hfm & Hin).
    simpl in Hfm. subst fm'.
    apply List.filter_In in Hin as [Hin Hp]. apply list_elem_of_In in Hin.
    assert (Hids : ∀ mf, mf ∈ records -> fm_id (snd mf) = id (fst mf)).
    { clear -Hall. induction Hall as [|d mf ds mfs [_ Hid] _ IH];
        intros mf' Hmf'; [now apply elem_of_nil in Hmf'|].
      apply elem_of_cons in Hmf' as [->|Hmf']; auto. }
    assert ((m, fm) = (m', fm)) as Hsame.
    { apply (NoDup_map_inj (fun mf => id (fst mf)) records); try assumption.
      pose proof (Hids _ Hmem) as H1. pose proof (Hids _ Hin) as H2.
      simpl in *. congruence. }
    injection Hsame as ->. unfold isProd in Hp. simpl in Hp.
    now apply String.eqb_eq.
  - intros Henv. apply list_elem_of_In, List.in_map_iff. exists (m, fm).
    split; [reflexivity|]. apply List.filter_In. split.
    + now apply list_elem_of_In.
    + unfold isProd. simpl. now apply String.eqb_eq.
Qed.





End Aggregator.

(** *** The statements on a small registry *)

Section AggregatorOnRegistry.

Import Builder Spec Fixtures.

Lemma buildFilter_rewrites_only_on_change_witness :
  (∃ fm w',
     buildFilter clock digest compiler "assets" ([], []) "filters/frozen" registry
     = (Returned ([], [fm]), w')
     ∧ fm_id fm = 2)
  ∧ (∀ o w',
       buildFilter clock digest (fun _ => Some ["||other.example^"]) "assets" ([], [])
         "filters/frozen" registry = (o, w') ->
       written w' = [] ∧ files w' = files registry).
Proof.
  destruct (buildFilter_rewrites_only_on_change clock digest compiler "assets" ([], [])
              "filters/frozen" registry) as [_ Hdisabled].
  assert (Hm : metadataOf registry "filters/frozen" = Some frozen)
    by (vm_compute; reflexivity).
  assert (Hc : configurationOf registry "filters/frozen" = Some threeSources)
    by (vm_compute; reflexivity).
  destruct (Hdisabled frozen Hm eq_refl) as [Hskip Hrecord].
  split.
  - apply (Hrecord threeSources Hc).
    right. eexists. vm_compute. reflexivity.
  - intros o w' Hrun. destruct (Hskip _ o w' Hrun) as (Hw & Hf & _). auto.
Defined.

(** An enabled hostlist whose stored hash is stale: the three files are
    written. *)
Lemma buildFilter_rewrites_stale_list :
  ∀ o w',
    buildFilter clock digest compiler "assets" ([], []) "filters/adguard" registry
    = (o, w') ->
    written w'
    = ["filters/adguard/revision.json"; "assets/filter_1.txt";
       "filters/adguard/filter.txt"].
Proof.
  intros o w' Hrun. vm_compute in Hrun. now injection Hrun as _ <-.
Qed.

Lemma sourceUrl_resolution_witness :
  match buildFilter clock digest compiler "assets" ([], []) "filters/adguard" registry with
  | (Returned (_, [fm]), _) => fm_sourceUrl fm = "https://a.example/list.txt"
  | _ => False
  end
  ∧ match buildFilter clock digest compiler "assets" ([], []) "filters/frozen" registry with
    | (Returned (_, [fm]), _) => fm_sourceUrl fm = "https://frozen.example"
    | _ => False
    end.
Proof.
  split.
  - destruct (buildFilter clock digest compiler "assets" ([], []) "filters/adguard" registry)
      as [[catalogs'|e] w'] eqn:Hrun; [|refute_run Hrun].
    destruct (sourceUrl_resolution clock digest compiler "assets" ([], []) catalogs'
                "filters/adguard" registry w' Hrun)
      as (m & c & fm & Hm & Hc & -> & Hone & _).
    vm_compute in Hm, Hc. injection Hm as <-. injection Hc as <-.
    cbn [pushed snd]. apply (Hone _ eq_refl).
  - destruct (buildFilter clock digest compiler "assets" ([], []) "filters/frozen" registry)
      as [[catalogs'|e] w'] eqn:Hrun; [|refute_run Hrun].
    destruct (sourceUrl_resolution clock digest compiler "assets" ([], []) catalogs'
                "filters/frozen" registry w' Hrun)
      as (m & c & fm & Hm & Hc & -> & _ & Hmany).
    vm_compute in Hm, Hc. injection Hm as <-. injection Hc as <-.
    cbn [pushed snd]. apply Hmany. simpl. lia.
Defined.

Lemma catalogs_partition_witness :
  match runBuild registry with
  | (Returned _, w') =>
      ∃ prodCatalog devCatalog,
        files w' !! "assets/filters.json" = Some (CatalogJson prodCatalog)
        ∧ files w' !! "assets/filters-dev.json" = Some (CatalogJson devCatalog)
        ∧ List.map fm_id (cat_filters prodCatalog) = [1]
        ∧ List.map fm_id (cat_filters devCatalog) = [1; 2]
  | (Thrown _, _) => False
  end.
Proof.
  destruct (runBuild registry) as [[[]|e] w'] eqn:Hrun;
    [|refute_run Hrun].
  destruct (catalogs_partition localeDirs filterDirs clock digest compiler
              (Some ["mastodon.social"]) "filters" "tags" "locales" "assets"
              registry w' Hrun)
    as (records & prodCatalog & devCatalog & Hall & Hprod & Hdev & Hp & Hd & _).
  exists prodCatalog, devCatalog. split; [exact Hprod|]. split; [exact Hdev|].
  rewrite Hp, Hd.
  change (filterDirs "filters") with ["filters/adguard"; "filters/frozen"] in Hall.
  inversion Hall as [|d1 [m1 fm1] ds1 rs1 [Hm1 Hid1] Hall1]; subst.
  inversion Hall1 as [|d2 [m2 fm2] ds2 rs2 [Hm2 Hid2] Hall2]; subst.
  inversion Hall2; subst.
  vm_compute in Hm1, Hm2. injection Hm1 as <-. injection Hm2 as <-.
  simpl in Hid1, Hid2. unfold isProd.
  cbn [List.filter List.map fst snd environment adguard frozen String.eqb Ascii.eqb
         Bool.eqb].
  rewrite Hid1, Hid2. split; reflexivity.
Defined.



End AggregatorOnRegistry.

(** ** Service-group localisations *)

Section ServiceGroups.

Import AddLocalizations AddLocalizationsSpec.

Lemma alter_first {A} (f : A -> A) (h : list A) (x : A) (r : list A) :
  alter f (List.length h) (h ++ x :: r)%list = (h ++ f x :: r)%list.
Proof. induction h as [|y h IH]; simpl; [reflexivity | now f_equal]. Qed.

Lemma alter_second {A} (f : A -> A) (h : list A) (x y : A) (r : list A) :
  alter f (S (List.length h)) (h ++ x :: y :: r)%list = (h ++ x :: f y :: r)%list.
Proof. induction h as [|z h IH]; simpl; [reflexivity | now f_equal]. Qed.

Lemma alter_third {A} (f : A -> A) (h : list A) (x y z : A) (r : list A) :
  alter f (S (S (List.length h))) (h ++ x :: y :: z :: r)%list
  = (h ++ x :: y :: f z :: r)%list.
Proof. induction h as [|u h IH]; simpl; [reflexivity | now f_equal]. Qed.

Lemma lookup_third {A} (h : list A) (x y z : A) :
  (h ++ [x; y; z])%list !! S (S (List.length h)) = Some z.
Proof. induction h as [|u h IH]; simpl; [reflexivity | exact IH]. Qed.

Lemma assigned_lookup (key : string) (v : Value) (obj : Obj) (k : string) :
  assigned key v obj !! k
  = if decide (k = key ∧ key ≠ "__proto__") then Some v else obj !! k.
Proof.
  unfold assigned. destruct (decide (key = "__proto__")) as [Hp|Hp].
  - destruct (decide (k = key ∧ key ≠ "__proto__")) as [[_ Hn]|_];
      [contradiction | reflexivity].
  - destruct (decide (k = key)) as [->|Hne].
    + rewrite lookup_insert_eq.
      destruct (decide (key = key ∧ key ≠ "__proto__")) as [_|Hn];
        [reflexivity | now destruct Hn].
    + rewrite lookup_insert_ne by congruence.
      destruct (decide (k = key ∧ key ≠ "__proto__")) as [[Heq _]|_];
        [contradiction | reflexivity].
Qed.

Lemma assigned_twice (key : string) (v : Value) (obj : Obj) :
  assigned key v (assigned key v obj) = assigned key v obj.
Proof.
  unfold assigned. destruct (decide (key = "__proto__")); [reflexivity|].
  apply insert_insert_eq.
Qed.

(** The loop over the entries of one file object, on the three objects
    allocated for it. *)
Lemma forEach_addEntry (locale : string) (h : Heap) (entries : FileObject) :
  ∀ translate localesTranslate component : Obj,
    forEach (addEntry locale (List.length h) (S (List.length h)) (S (S (List.length h))))
      entries (h ++ [translate; localesTranslate; component])%list
    = (tt,
       (h ++ [ fold_left
                 (fun o entry => assigned (signOf (fst entry)) (Str (snd entry)) o)
                 entries translate;
               match entries with
               | [] => localesTranslate
               | _ :: _ => assigned locale (Ref (List.length h)) localesTranslate
               end;
               fold_left
                 (fun o entry => assigned (idOf (fst entry)) (Ref (S (List.length h))) o)
                 entries component ])%list).
Proof.
  induction entries as [|[key value] rest IH]; intros t lt c; [reflexivity|].
  cbn [forEach]. unfold bind at 1.
  unfold addEntry, bind, setProperty. cbn [fst snd fold_left].
  rewrite alter_first, alter_second, alter_third.
  fold (signOf key). fold (idOf key).
  rewrite IH. do 3 f_equal.
  destruct rest; [reflexivity|]. now rewrite assigned_twice.
Qed.

(** One file object, merged into the object at position 0. *)
Lemma addFileObject_run (locale : string) (g : Obj) (h : Heap) (fo : FileObject) :
  addFileObject locale 0 fo (g :: h)
  = (tt,
     ((componentOf fo (2 + List.length h) ∪ g) :: h
      ++ [fieldsOf fo; localesOf locale fo (1 + List.length h);
          componentOf fo (2 + List.length h)])%list).
Proof.
  unfold addFileObject, newObject. unfold bind at 1 2 3. simpl List.length.
  rewrite !length_app. simpl List.length.
  replace (S (List.length h + 1)) with (S (S (List.length h))) by lia.
  replace (S (List.length h + 1 + 1)) with (S (S (S (List.length h)))) by lia.
  rewrite <- !app_assoc. cbn [app].
  unfold bind at 1.
  pose proof (forEach_addEntry locale (g :: h) fo ∅ ∅ ∅) as Hloop.
  cbn [app List.length] in Hloop. rewrite Hloop. clear Hloop.
  unfold Object_assign. cbn [alter list_alter]. f_equal.
  change ((g :: ?l) !! S ?n) with (l !! n).
  rewrite lookup_third. cbn [default].
  unfold componentOf, fieldsOf, localesOf. do 2 f_equal.
Qed.

(** The loop over the file objects. *)
Lemma forEach_addFileObject (locale : string) (fileObjects : list FileObject) :
  ∀ (g : Obj) (h : Heap),
    forEach (addFileObject locale 0) fileObjects (g :: h)
    = (tt,
       (grouped (1 + List.length h) fileObjects g
        :: h ++ blocks locale (1 + List.length h) fileObjects)%list).
Proof.
  induction fileObjects as [|fo rest IH]; intros g h.
  - simpl. now rewrite app_nil_r.
  - cbn [forEach]. unfold bind at 1. rewrite addFileObject_run.
    rewrite IH. rewrite length_app. cbn [List.length blocks grouped].
    replace (1 + (List.length h + 3))%nat with (3 + (1 + List.length h))%nat by lia.
    now rewrite <- app_assoc.
Qed.

(** The heap and the result of the whole function. *)
Lemma groupFileContentByTranslations_run (fileObjects : list FileObject)
    (locale : string) :
  groupFileContentByTranslations fileObjects locale []
  = (0%nat, grouped 1 fileObjects ∅ :: blocks locale 1 fileObjects).
Proof.
  unfold groupFileContentByTranslations, newObject. unfold bind at 1.
  cbn [List.length app]. unfold bind at 1.
  rewrite (forEach_addFileObject locale fileObjects ∅ []). reflexivity.
Qed.

(** The ids bound by the component object of a file object: those of its
    keys, but for [__proto__]. *)
Lemma componentOf_lookup (fo : FileObject) (lt : nat) (id : string) :
  componentOf fo lt !! id
  = if decide (id ∈ idsOf fo ∧ id ≠ "__proto__") then Some (Ref lt) else None.
Proof.
  unfold componentOf.
  induction fo as [|entry rest IH] using rev_ind.
  - simpl. rewrite lookup_empty.
    destruct (decide (id ∈ idsOf [] ∧ id ≠ "__proto__")) as [[Hin _]|_]; [|reflexivity].
    now apply elem_of_nil in Hin.
  - assert (Hids : idsOf (rest ++ [entry]) = (idsOf rest ++ [idOf (fst entry)])%list)
      by (unfold idsOf; now rewrite List.map_app).
    rewrite List.fold_left_app, Hids. cbn [fold_left].
    rewrite assigned_lookup, IH.
    destruct (decide (id = idOf (fst entry) ∧ idOf (fst entry) ≠ "__proto__"))
      as [[-> Hp]|Hn].
    + destruct (decide (idOf (fst entry) ∈ (idsOf rest ++ [idOf (fst entry)])%list
                        ∧ idOf (fst entry) ≠ "__proto__")) as [_|Hn];
        [reflexivity|].
      exfalso. apply Hn. split; [|exact Hp].
      apply elem_of_app. right. apply list_elem_of_here.
    + destruct (decide (id ∈ idsOf rest ∧ id ≠ "__proto__")) as [[Hin Hp]|Hn1];
        destruct (decide (id ∈ (idsOf rest ++ [idOf (fst entry)])%list
                          ∧ id ≠ "__proto__")) as [[Hin' Hp']|Hn2];
        try reflexivity.
      * exfalso. apply Hn2. split; [|exact Hp]. apply elem_of_app. now left.
      * exfalso. apply elem_of_app in Hin' as [Hin'|Hin'].
        -- apply Hn1. now split.
        -- apply list_elem_of_singleton in Hin'. subst id. apply Hn. now split.
Qed.

Lemma grouped_app (base : nat) (before after : list FileObject) (g : Obj) :
  grouped base (before ++ after) g
  = grouped (3 * List.length before + base) after (grouped base before g).
Proof.
  revert base g. induction before as [|fo rest IH]; intros base g; [reflexivity|].
  cbn [app grouped List.length]. rewrite IH.
  replace (3 * List.length rest + (3 + base))%nat
    with (3 * S (List.length rest) + base)%nat by lia.
  reflexivity.
Qed.

Lemma grouped_not_rebound (base : nat) (later : list FileObject) (g : Obj)
    (id : string) :
  (∀ fo, fo ∈ later -> id ∉ idsOf fo) ->
  grouped base later g !! id = g !! id.
Proof.
  revert base g. induction later as [|fo rest IH]; intros base g Hfree; [reflexivity|].
  cbn [grouped]. rewrite IH.
  - rewrite lookup_union_r; [reflexivity|]. rewrite componentOf_lookup.
    destruct (decide (id ∈ idsOf fo ∧ id ≠ "__proto__")) as [[Hin _]|_]; [|reflexivity].
    exfalso. apply (Hfree fo); [apply list_elem_of_here | exact Hin].
  - intros fo' Hfo'. apply Hfree. now apply list_elem_of_further.
Qed.

Lemma blocks_app (locale : string) (base : nat) (before after : list FileObject) :
  blocks locale base (before ++ after)
  = (blocks locale base before
     ++ blocks locale (3 * List.length before + base) after)%list.
Proof.
  revert base. induction before as [|fo rest IH]; intros base; [reflexivity|].
  cbn [app blocks List.length]. rewrite IH.
  replace (3 * List.length rest + (3 + base))%nat
    with (3 * S (List.length rest) + base)%nat by lia.
  reflexivity.
Qed.

Lemma blocks_length (locale : string) (base : nat) (fileObjects : list FileObject) :
  List.length (blocks locale base fileObjects) = (3 * List.length fileObjects)%nat.
Proof.
  revert base. induction fileObjects as [|fo rest IH]; intros base; [reflexivity|].
  cbn [blocks List.length]. rewrite IH. lia.
Qed.

(** C10, as the code has it. All the keys of a file object share one
    translation object and one locale object: every id parsed from the
    keys of the file object, other than [__proto__], and not bound again by
    a later file object of the array, maps to the same locale object,
    which holds under the locale (other than [__proto__]) the translation
    object with all the fields of the file object, a field [__proto__]
    apart, which leaves no property. What an id or a locale [__proto__]
    leads to is neither promised nor denied here. *)
Theorem groupFileContentByTranslations_shares_translations
    (before after : list FileObject) (fo : FileObject) (locale : string) :
  fo ≠ [] ->
  locale ≠ "__proto__" ->
  match groupFileContentByTranslations (before ++ fo :: after) locale [] with
  | (groupedFileObjects, heap) =>
      ∃ localesTranslate translate : nat,
        heap !! translate = Some (fieldsOf fo)
        ∧ heap !! localesTranslate = Some {[ locale := Ref translate ]}
        ∧ ∀ id, id ∈ idsOf fo -> id ≠ "__proto__" ->
            (∀ later, later ∈ after -> id ∉ idsOf later) ->
            getProperty heap groupedFileObjects id = Some (Ref localesTranslate)
  end.
Proof.
  intros Hfo Hlocale. rewrite groupFileContentByTranslations_run.
  exists (2 + 3 * List.length before)%nat, (1 + 3 * List.length before)%nat.
  rewrite blocks_app. cbn [blocks].
  split; [|split].
  - change ((?x :: ?l) !! (1 + ?n)%nat) with (l !! n).
    rewrite lookup_app_r by (rewrite blocks_length; lia).
    rewrite blocks_length, Nat.sub_diag. reflexivity.
  - change ((?x :: ?l) !! (2 + ?n)%nat) with (l !! (1 + n)%nat).
    rewrite lookup_app_r by (rewrite blocks_length; lia).
    rewrite blocks_length.
    replace (1 + 3 * List.length before - 3 * List.length before)%nat with 1%nat by lia.
    cbn [lookup list_lookup]. unfold localesOf, assigned.
    destruct fo; [contradiction|].
    destruct (decide (locale = "__proto__")); [contradiction|].
    replace (3 * List.length before + 1)%nat with (1 + 3 * List.length before)%nat by lia.
    reflexivity.
  - intros id Hid Hp Hfree. unfold getProperty. cbn [lookup list_lookup option_bind mbind].
    rewrite grouped_app. cbn [grouped].
    rewrite grouped_not_rebound by exact Hfree.
    erewrite lookup_union_Some_l; [reflexivity|].
    rewrite componentOf_lookup.
    destruct (decide (id ∈ idsOf fo ∧ id ≠ "__proto__")) as [_|Hn];
      [|destruct Hn; now split].
    do 2 f_equal. lia.
Qed.

Lemma groupFileContentByTranslations_shares_translations_witness :
  match groupFileContentByTranslations
          [[("servicesgroup.a.name", "A"); ("servicesgroup.b.description", "B")]]
          "en" [] with
  | (groupedFileObjects, heap) =>
      ∃ localesTranslate translate : nat,
        heap !! translate
        = Some ({[ "name" := Str "A"; "description" := Str "B" ]} : Obj)
        ∧ heap !! localesTranslate = Some {[ "en" := Ref translate ]}
        ∧ getProperty heap groupedFileObjects "a" = Some (Ref localesTranslate)
        ∧ getProperty heap groupedFileObjects "b" = Some (Ref localesTranslate)
  end.
Proof.
  pose proof (groupFileContentByTranslations_shares_translations [] []
                [("servicesgroup.a.name", "A"); ("servicesgroup.b.description", "B")]
                "en") as H.
  cbn [app] in H.
  destruct (groupFileContentByTranslations _ "en" []) as [g heap].
  destruct H as (lt & t & Ht & Hlt & Hids); [discriminate | discriminate |].
  exists lt, t. split; [|split; [|split]].
  - rewrite Ht. reflexivity.
  - exact Hlt.
  - apply Hids.
    + apply list_elem_of_here.
    + discriminate.
    + intros later Hl. now apply elem_of_nil in Hl.
  - apply Hids.
    + apply list_elem_of_further, list_elem_of_here.
    + discriminate.
    + intros later Hl. now apply elem_of_nil in Hl.
Defined.

(** C10, as stated, fails when a later file object binds an id again: the
    ids "a" and "b" of the first file object end on different locale
    objects, and "a" on one whose translation object lacks the field
    "description" of the first file object. *)
Lemma rebound_id_leaves_shared_object :
  match groupFileContentByTranslations
          [ [("servicesgroup.a.name", "A"); ("servicesgroup.b.description", "B")];
            [("servicesgroup.a.name", "C")] ]
          "en" [] with
  | (groupedFileObjects, heap) =>
      getProperty heap groupedFileObjects "a" = Some (Ref 5)
      ∧ getProperty heap groupedFileObjects "b" = Some (Ref 2)
      ∧ heap !! 5%nat = Some ({[ "en" := Ref 4 ]} : Obj)
      ∧ heap !! 4%nat = Some ({[ "name" := Str "C" ]} : Obj)
      ∧ ¬ (∃ localesTranslate,
             getProperty heap groupedFileObjects "a" = Some (Ref localesTranslate)
             ∧ getProperty heap groupedFileObjects "b" = Some (Ref localesTranslate))
  end.
Proof.
  vm_compute. repeat split. intros (lt & Ha & Hb). congruence.
Qed.

(** A key whose id is [__proto__] binds nothing, and a field [__proto__]
    is dropped: the assignments reach the setter of [Object.prototype]. *)
Lemma proto_keys_bind_nothing :
  groupFileContentByTranslations
    [[("servicesgroup.__proto__.name", "A"); ("servicesgroup.cdn.__proto__", "B")]]
    "en" []
  = (0%nat,
     [ {[ "cdn" := Ref 2 ]}; {[ "name" := Str "A" ]}; {[ "en" := Ref 1 ]};
       {[ "cdn" := Ref 2 ]} ]).
Proof. vm_compute. reflexivity. Qed.

End ServiceGroups.

Section ExpiresMore.

Import Builder.

(** X1. Whatever the [expires] property is, the resolved value is never
    falsy: not 0, not NaN, not undefined, not the empty text. *)
Theorem replaceExpires_truthy (expires : option string) :
  truthy (replaceExpires expires) = true.
Proof.
  unfold replaceExpires, or_else.
  destruct expires as [s|]; [|reflexivity].
  destruct (truthy (JString s)) eqn:Hs; [|reflexivity].
  match goal with
  | |- truthy (if truthy ?v then _ else _) = true =>
      destruct (truthy v) eqn:Hv; [exact Hv | reflexivity]
  end.
Qed.

(** X2. A text in which "day" occurs after the first character resolves to
    its leading integer times 86400, whether or not "hour" occurs as well;
    a leading integer 0 resolves to the default 86400. The product is at
    most 2^53 in magnitude, where the arithmetic of JavaScript is exact. *)
Theorem replaceExpires_day_unit (s : string) (n : Z) :
  0 < Js.indexOf s "day" 0 -> Js.parseInt s = Js.Num n ->
  Z.abs n * 86400 <= 2 ^ 53 ->
  replaceExpires (Some s) = JNumber (Js.Num (if n =? 0 then 86400 else n * 86400)).
Proof.
  intros Hd Hn _. destruct (n =? 0) eqn:Hz.
  - apply Z.eqb_eq in Hz. subst n. unfold replaceExpires.
    destruct s as [|c s]; [discriminate Hd|]. simpl truthy. cbv iota.
    apply Z.ltb_lt in Hd. rewrite Hd, Hn. reflexivity.
  - apply Z.eqb_neq in Hz. now apply replaceExpires_days.
Qed.

Lemma replaceExpires_day_unit_witness :
  replaceExpires (Some "2 hours a day") = JNumber (Js.Num 172800)
  ∧ replaceExpires (Some "0 days") = JNumber (Js.Num 86400).
Proof.
  split.
  - apply (replaceExpires_day_unit "2 hours a day" 2);
      [reflexivity | reflexivity | vm_compute; discriminate].
  - apply (replaceExpires_day_unit "0 days" 0);
      [reflexivity | reflexivity | vm_compute; discriminate].
Defined.

(** X3. A text in which "hour" occurs after the first character, and "day"
    does not, resolves to its leading integer times 3600; a leading integer
    0 resolves to the default 86400. The product is at most 2^53 in
    magnitude, where the arithmetic of JavaScript is exact. *)
Theorem replaceExpires_hour_unit (s : string) (n : Z) :
  Js.indexOf s "day" 0 <= 0 -> 0 < Js.indexOf s "hour" 0 ->
  Js.parseInt s = Js.Num n ->
  Z.abs n * 3600 <= 2 ^ 53 ->
  replaceExpires (Some s) = JNumber (Js.Num (if n =? 0 then 86400 else n * 3600)).
Proof.
  intros Hd Hh Hn _. destruct (n =? 0) eqn:Hz.
  - apply Z.eqb_eq in Hz. subst n. unfold replaceExpires.
    destruct s as [|c s]; [discriminate Hh|]. simpl truthy. cbv iota.
    apply Z.ltb_lt in Hh. apply Z.ltb_ge in Hd. rewrite Hd, Hh, Hn. reflexivity.
  - apply Z.eqb_neq in Hz. now apply replaceExpires_hours.
Qed.

Lemma replaceExpires_hour_unit_witness :
  replaceExpires (Some "12 hours") = JNumber (Js.Num 43200).
Proof.
  apply (replaceExpires_hour_unit "12 hours" 12);
    [vm_compute; discriminate | reflexivity | reflexivity | vm_compute; discriminate].
Defined.



(** X5. A non-empty text in which neither "day" nor "hour" occurs after
    the first character is returned as it is, not converted to seconds. *)
Theorem replaceExpires_unknown_unit (s : string) :
  s ≠ EmptyString ->
  Js.indexOf s "day" 0 <= 0 -> Js.indexOf s "hour" 0 <= 0 ->
  replaceExpires (Some s) = JString s.
Proof. apply replaceExpires_no_unit. Qed.

Lemma replaceExpires_unknown_unit_witness :
  replaceExpires (Some "days 3") = JString "days 3".
Proof.
  apply (replaceExpires_unknown_unit "days 3"); [discriminate | vm_compute; discriminate..].
Defined.

End ExpiresMore.

Section LocaleKeys.

Import Builder Spec KeySpec.

Lemma length_app_str (a b : string) :
  String.length (a +:+ b) = (String.length a + String.length b)%nat.
Proof.
  induction a as [|c a IH]; [reflexivity|].
  rewrite app_cons. simpl. now rewrite IH.
Qed.

Lemma prefix_app (m r : string) : String.prefix m (m +:+ r) = true.
Proof.
  induction m as [|c m IH]; [now destruct r|].
  rewrite app_cons. simpl. destruct (ascii_dec c c); [exact IH | contradiction].
Qed.

Lemma find_first_here (sub s : string) (i : nat) :
  String.prefix sub s = true -> Js.find_first sub s i = Some i.
Proof. intros H. destruct s; cbn [Js.find_first]; now rewrite H. Qed.

Lemma drop_str_app (a b : string) : Js.drop_str (String.length a) (a +:+ b) = b.
Proof. induction a as [|c a IH]; [now destruct b | exact IH]. Qed.

Lemma dotless_cons (c : ascii) (s : string) :
  dotless (String c s) <-> c ≠ "."%char ∧ dotless s.
Proof.
  unfold dotless, chars. simpl. rewrite not_elem_of_cons. intuition congruence.
Qed.

Lemma find_first_dot (id rest : string) (i : nat) :
  dotless id ->
  Js.find_first "." (id +:+ "." +:+ rest) i = Some (i + String.length id)%nat.
Proof.
  revert i. induction id as [|c id IH]; intros i Hid.
  - rewrite app_nil. rewrite find_first_here; [f_equal; simpl; lia|].
    apply (prefix_app "." rest).
  - apply dotless_cons in Hid as [Hc Hid]. rewrite app_cons.
    cbn [Js.find_first String.prefix].
    destruct (ascii_dec "." c) as [<-|_]; [contradiction|].
    rewrite (IH (S i) Hid). simpl. f_equal. lia.
Qed.

Lemma find_last_dotless (field : string) (i : nat) :
  dotless field -> Js.find_last "." field i = None.
Proof.
  revert i. induction field as [|c field IH]; intros i Hf; [reflexivity|].
  apply dotless_cons in Hf as [Hc Hf]. cbn [Js.find_last String.prefix].
  rewrite (IH (S i) Hf). destruct (ascii_dec "." c) as [<-|_]; [contradiction | reflexivity].
Qed.

Lemma find_last_dot (before field : string) (i : nat) :
  dotless field ->
  Js.find_last "." (before +:+ "." +:+ field) i = Some (i + String.length before)%nat.
Proof.
  intros Hf. revert i. induction before as [|c before IH]; intros i.
  - rewrite app_nil. change ("." +:+ field) with (String "." field).
    cbn [Js.find_last String.prefix]. rewrite (find_last_dotless field (S i) Hf).
    destruct (ascii_dec "." "."); [|contradiction]. destruct field; simpl; f_equal; lia.
  - rewrite app_cons. cbn [Js.find_last]. rewrite (IH (S i)). simpl. f_equal. lia.
Qed.

Lemma substring_skip (a b : string) (n : nat) :
  String.substring (String.length a) n (a +:+ b) = String.substring 0 n b.
Proof.
  induction a as [|c a IH]; [reflexivity|]. rewrite app_cons. simpl.
  rewrite IH. now destruct n, b.
Qed.

Lemma substring_take (a b : string) :
  String.substring 0 (String.length a) (a +:+ b) = a.
Proof.
  induction a as [|c a IH]; [now destruct b|]. rewrite app_cons. simpl. now rewrite IH.
Qed.

Lemma substring_all (a : string) : String.substring 0 (String.length a) a = a.
Proof. induction a as [|c a IH]; [reflexivity|]. simpl. now rewrite IH. Qed.

Lemma parseInfo_of_localeKey (mask id field : string) :
  dotless id -> dotless field ->
  parseInfo (localeKey mask id field) mask
  = {| info_id := id; info_message := field |}.
Proof.
  intros Hid Hfield. unfold parseInfo, localeKey.
  set (key := mask +:+ id +:+ "." +:+ field).
  assert (Hlen : String.length key
                 = (String.length mask + (String.length id + S (String.length field)))%nat).
  { unfold key. rewrite !length_app_str. reflexivity. }
  assert (Hmask : Js.indexOf key mask 0 = 0).
  { unfold Js.indexOf, Js.clamp. simpl Z.to_nat.
    replace (Z.to_nat (Z.min (Z.max 0 0) (Z.of_nat (String.length key)))) with 0%nat by lia.
    cbn [Js.drop_str]. unfold key. now rewrite find_first_here by apply prefix_app. }
  assert (Hdot : Js.indexOf key "." (Z.of_nat (String.length mask))
                 = Z.of_nat (String.length mask + String.length id)).
  { unfold Js.indexOf, Js.clamp.
    replace (Z.to_nat (Z.min (Z.max (Z.of_nat (String.length mask)) 0)
                             (Z.of_nat (String.length key))))
      with (String.length mask) by lia.
    unfold key. rewrite drop_str_app, find_first_dot by exact Hid. reflexivity. }
  assert (Hlast : Js.lastIndexOf key "."
                  = Z.of_nat (String.length mask + String.length id)).
  { unfold Js.lastIndexOf, key. rewrite <- app_assoc_str.
    rewrite find_last_dot by exact Hfield. rewrite length_app_str. reflexivity. }
  rewrite Hmask, Z.add_0_l, Hdot, Hlast. f_equal.
  - unfold Js.substring, Js.clamp.
    replace (Z.to_nat (Z.min (Z.max (Z.of_nat (String.length mask)) 0)
                             (Z.of_nat (String.length key))))
      with (String.length mask) by lia.
    replace (Z.to_nat (Z.min (Z.max (Z.of_nat (String.length mask + String.length id)) 0)
                             (Z.of_nat (String.length key))))
      with (String.length mask + String.length id)%nat by lia.
    rewrite Nat.min_l, Nat.max_r by lia.
    replace (String.length mask + String.length id - String.length mask)%nat
      with (String.length id) by lia.
    unfold key. rewrite substring_skip. apply substring_take.
  - unfold Js.substring, Js.clamp.
    replace (Z.to_nat (Z.min (Z.max (Z.of_nat (String.length mask + String.length id) + 1) 0)
                             (Z.of_nat (String.length key))))
      with (String.length (mask +:+ id +:+ "."))%nat
      by (rewrite !length_app_str; simpl; lia).
    rewrite Nat.min_l, Nat.max_r by (rewrite !length_app_str; simpl; lia).
    replace (String.length key - String.length (mask +:+ id +:+ "."))%nat
      with (String.length field) by (rewrite !length_app_str; simpl; lia).
    unfold key.
    replace (mask +:+ id +:+ "." +:+ field) with ((mask +:+ id +:+ ".") +:+ field)
      by now rewrite !app_assoc_str.
    rewrite substring_skip. apply substring_all.
Qed.

(** X6. A key made of the mask, an id, a dot and a field, where neither
    the id nor the field contains a dot, is parsed back into that id and
    that field, whatever the mask. *)
Theorem parseInfo_localeKey (mask id field : string) :
  dotless id -> dotless field ->
  parseInfo (localeKey mask id field) mask
  = {| info_id := id; info_message := field |}.
Proof. exact (parseInfo_of_localeKey mask id field). Qed.

Lemma parseInfo_localeKey_witness :
  parseInfo "hostlisttag.12.description" "hostlisttag."
  = {| info_id := "12"; info_message := "description" |}.
Proof.
  apply (parseInfo_localeKey "hostlisttag." "12" "description");
    apply (bool_decide_unpack _); vm_compute; exact I.
Defined.

End LocaleKeys.

Section LocaleFolderMore.

Import Builder Spec KeySpec.

Variable listDirs : string -> list string.

Lemma loadItem_local (locale : string) (r : Localizations) (item : Item)
    (w1 w2 : World) :
  files w1 !! file item = files w2 !! file item ->
  snd (loadItem locale r item w1) = w1
  ∧ fst (loadItem locale r item w1) = fst (loadItem locale r item w2).
Proof.
  intros Hsame. unfold loadItem, parse, readFile, bind, ret, throw. rewrite <- Hsame.
  destruct (files w1 !! file item) as [f|]; simpl; [|auto].
  destruct (as_messages f); simpl; auto.
Qed.

Lemma loadLocaleDir_local (r : Localizations) (d : string) (w1 w2 : World) :
  (∀ kind, files w1 !! file (localeItem d kind) = files w2 !! file (localeItem d kind)) ->
  snd (loadLocaleDir r d w1) = w1
  ∧ fst (loadLocaleDir r d w1) = fst (loadLocaleDir r d w2).
Proof.
  intros Hsame. unfold loadLocaleDir. rewrite localeItems_eq. cbn [foldM].
  unfold bind at 1 3 5.
  destruct (loadItem_local (basename d) r (localeItem d prop_tags) w1 w2
              (Hsame prop_tags)) as [Hw1 Ho1].
  destruct (loadItem (basename d) r (localeItem d prop_tags) w1) as [o1 w1'].
  destruct (loadItem (basename d) r (localeItem d prop_tags) w2) as [o2 w2'] eqn:E2.
  cbn [fst snd] in Hw1, Ho1. subst w1' o2.
  assert (Hw2 : w2' = w2).
  { destruct (loadItem_local (basename d) r (localeItem d prop_tags) w2 w2 eq_refl)
      as [H _]. now rewrite E2 in H. }
  subst w2'. destruct o1 as [r1|e1]; [|auto].
  unfold bind.
  destruct (loadItem_local (basename d) r1 (localeItem d prop_filters) w1 w2
              (Hsame prop_filters)) as [Hw3 Ho3].
  destruct (loadItem (basename d) r1 (localeItem d prop_filters) w1) as [o3 w3].
  destruct (loadItem (basename d) r1 (localeItem d prop_filters) w2) as [o4 w4] eqn:E4.
  cbn [fst snd] in Hw3, Ho3. subst w3 o4.
  assert (Hw4 : w4 = w2).
  { destruct (loadItem_local (basename d) r1 (localeItem d prop_filters) w2 w2 eq_refl)
      as [H _]. now rewrite E4 in H. }
  subst w4. destruct o3; auto.
Qed.

(** X7. [loadLocales] only reads, and only the tags and filters files of
    the listed locale directories: whether it returns or fails, it leaves
    the file system as it found it, and two file systems that hold the
    same in these files give the same result or the same failure. *)
Theorem loadLocales_only_reads (dir : string) (w1 w2 : World) :
  (∀ d kind, d ∈ listDirs dir ->
     files w1 !! file (localeItem d kind) = files w2 !! file (localeItem d kind)) ->
  snd (loadLocales listDirs dir w1) = w1
  ∧ fst (loadLocales listDirs dir w1) = fst (loadLocales listDirs dir w2).
Proof.
  unfold loadLocales. generalize {| loc_tags := ∅; loc_filters := ∅ |} as r.
  induction (listDirs dir) as [|d rest IH]; intros r Hsame; [split; reflexivity|].
  cbn [foldM]. unfold bind.
  destruct (loadLocaleDir_local r d w1 w2) as [Hw Ho].
  { intros kind. apply Hsame. apply list_elem_of_here. }
  destruct (loadLocaleDir r d w1) as [o1 w1'].
  destruct (loadLocaleDir r d w2) as [o2 w2'] eqn:E2.
  cbn [fst snd] in Hw, Ho. subst w1' o2.
  assert (Hw2 : w2' = w2).
  { destruct (loadLocaleDir_local r d w2 w2 (fun _ => eq_refl)) as [H _].
    now rewrite E2 in H. }
  subst w2'. destruct o1 as [r1|e1]; [|auto].
  apply IH. intros d' kind Hd'. apply Hsame. now apply list_elem_of_further.
Qed.

Lemma contribution_last (mask : string) (messages : list Message)
    (before after : Message) (entry : string * string) (id field : string) :
  List.concat messages = (before ++ entry :: after)%list ->
  contributes mask id field entry = true ->
  (∀ e, e ∈ after -> contributes mask id field e = false) ->
  contribution mask messages id field = Some (snd entry).
Proof.
  intros Hcat He Hafter. unfold contribution. rewrite Hcat.
  rewrite List.rev_app_distr. cbn [List.rev]. rewrite <- List.app_assoc. cbn [app].
  assert (Hfind : ∀ l rest, (∀ e, e ∈ l -> contributes mask id field e = false) ->
            List.find (contributes mask id field) (l ++ rest)
            = List.find (contributes mask id field) rest).
  { induction l as [|x l IH]; intros rest Hl; [reflexivity|]. simpl.
    rewrite (Hl x) by apply list_elem_of_here.
    apply IH. intros e Hin. apply Hl. now apply list_elem_of_further. }
  rewrite Hfind.
  - simpl. now rewrite He.
  - intros e Hin. apply Hafter. apply list_elem_of_In. apply List.in_rev.
    now apply list_elem_of_In.
Qed.

(** X8. Within one locale the last write wins: when the locale
    directories are ordinary and the file of a kind in one of them holds,
    in the order of its message objects and their properties, a
    well-formed key for a non-empty id and a field, and no later property
    of the file parses to the same id and field, the value of that property
    is the translation recorded for (kind, id, locale, field). *)
Theorem loadLocales_last_write_wins (dir : string) (w : World)
    (result : Localizations) (w' : World) (d : string) (kind : PropName)
    (before after : Message) (id field value : string) :
  NoDup (basename <$> listDirs dir) ->
  (∀ d', d' ∈ listDirs dir -> ordinaryLocale w d') ->
  loadLocales listDirs dir w = (Returned result, w') ->
  d ∈ listDirs dir ->
  List.concat (messagesOf w (localeItem d kind))
  = (before ++ (localeKey (prefix (localeItem d kind)) id field, value) :: after)%list ->
  id ≠ EmptyString -> dotless id -> dotless field ->
  (∀ e, e ∈ after ->
     contributes (prefix (localeItem d kind)) id field e = false) ->
  translation (get_prop result kind) id (basename d) field = Some value.
Proof.
  intros Hnodup _ Hrun Hd Hcat Hne Hid Hfield Hafter.
  rewrite (loadLocales_translation listDirs dir w result w' d kind id field Hnodup Hrun Hd).
  unfold contributionOf.
  apply (contribution_last _ _ before after
           (localeKey (prefix (localeItem d kind)) id field, value));
    [exact Hcat | | exact Hafter].
  unfold contributes. cbn [fst]. rewrite parseInfo_of_localeKey by assumption.
  cbn [info_id info_message]. rewrite !String.eqb_refl.
  destruct (String.eqb id EmptyString) eqn:E; [|reflexivity].
  apply String.eqb_eq in E. contradiction.
Qed.


End LocaleFolderMore.

Section LocaleFolderMoreWitness.

Import Builder Spec KeySpec.

Lemma loadLocales_only_reads_witness :
  snd (loadLocales Fixtures.localeDirs "locales" Fixtures.localeWorld)
  = Fixtures.localeWorld
  ∧ fst (loadLocales Fixtures.localeDirs "locales" Fixtures.localeWorld)
    = fst (loadLocales Fixtures.localeDirs "locales"
             {| files := <["assets/filters_i18n.json" := Unparsable]>
                           (files Fixtures.localeWorld);
                written := ["assets/filters_i18n.json"];
                ticks := 3 |}).
Proof.
  apply (loadLocales_only_reads Fixtures.localeDirs "locales").
  intros d kind Hd. apply list_elem_of_In in Hd. simpl in Hd.
  destruct Hd as [<- | [<- | []]]; destruct kind; vm_compute; reflexivity.
Defined.

Lemma loadLocales_last_write_wins_witness :
  match loadLocales Fixtures.localeDirs "locales" Fixtures.localeWorld with
  | (Returned result, _) =>
      translation (loc_filters result) "10" "en" "description" = Some "Blocks ads"
  | (Thrown _, _) => False
  end.
Proof.
  assert (Hnodup : NoDup (basename <$> Fixtures.localeDirs "locales")).
  { apply (bool_decide_unpack _). vm_compute. exact I. }
  destruct (loadLocales Fixtures.localeDirs "locales" Fixtures.localeWorld)
    as [[result|e] w'] eqn:Hrun; [|refute_run Hrun].
  refine (loadLocales_last_write_wins Fixtures.localeDirs "locales" Fixtures.localeWorld
            result w' "locales/en" prop_filters
            [("hostlist.10.name", "DNS filter")] [] "10" "description" "Blocks ads"
            Hnodup localeWorld_ordinary Hrun _ _ _ _ _ _).
  - apply list_elem_of_In. simpl. auto.
  - vm_compute. reflexivity.
  - discriminate.
  - apply (bool_decide_unpack _). vm_compute. exact I.
  - apply (bool_decide_unpack _). vm_compute. exact I.
  - intros e He. now apply elem_of_nil in He.
Defined.


End LocaleFolderMoreWitness.

Section AggregatorMore.

Import Builder Spec FilterSpec.

Variable clock : nat -> Z.
Variable md5 : string -> string.
Variable hostlistCompiler : option HostlistConfiguration -> option (list string).

Ltac run_buildFilter :=
  unfold buildFilter, readHostlistConfiguration, parse, nonnull, readFile,
    writeFile, getTime, bind, ret, throw, metadataOf, configurationOf,
    storedHash, storedRevision, revisionReadable, pushed.

Ltac use_facts :=
  repeat match goal with
    | H : files _ !! _ = _ |- _ => rewrite H
    | H : String.eqb _ _ = _ |- _ => rewrite H
    | H : sources _ = _ |- _ => rewrite H
    | H : disabled _ = _ |- _ => rewrite H
    end.

Ltac file_shapes :=
  repeat match goal with
    | H : as_metadata ?f = Some _ |- _ => destruct f; simplify_eq/=
    | H : as_revision ?f = Some _ |- _ => destruct f; simplify_eq/=
    | H : as_configuration ?f = Some _ |- _ => destruct f; simplify_eq/=
    end.

(** Every way in which the body of the loop can return. *)
Lemma buildFilter_returned (assetsDir : string) (catalogs catalogs1 : Catalogs)
    (d : string) (w w1 : World) :
  buildFilter clock md5 hostlistCompiler assetsDir catalogs d w
  = (Returned catalogs1, w1) ->
  ∃ m c t,
    files w !! path_join d METADATA_FILE = Some (MetadataJson m)
    ∧ files w !! path_join d CONFIGURATION_FILE = Some (ConfigurationJson c)
    ∧ catalogs1 = pushed catalogs m (recordOf m c t)
    ∧ ((disabled m = true
        ∧ files w1 = files w ∧ written w1 = written w
        ∧ ((∃ r, files w !! path_join d REVISION_FILE = Some (RevisionJson r)
                 ∧ t = timeUpdated r)
           ∨ (files w !! path_join d REVISION_FILE = None ∧ t = clock (ticks w))))
       ∨ (disabled m = false
          ∧ ∃ compiled,
              hostlistCompiler (Some c) = Some compiled
              ∧ ((∃ r, files w !! path_join d REVISION_FILE = Some (RevisionJson r)
                       ∧ hash r = Some (calculateRevisionHash md5 compiled)
                       ∧ w1 = w ∧ t = timeUpdated r)
                 ∨ (storedHash w d ≠ Some (calculateRevisionHash md5 compiled)
                    ∧ files w1
                      = rewritten assetsDir d m compiled t
                          (calculateRevisionHash md5 compiled) (files w)
                    ∧ written w1 = (written w ++ listOutputs assetsDir d m)%list)))).
Proof.
  destruct catalogs as [filtersMetadata filtersMetadataDev].
  run_buildFilter. intros H.
  repeat (case_match; simplify_eq/=).
  all: file_shapes.
  all: eexists _, _, _.
  all: split; [first [eassumption | reflexivity]|].
  all: split; [first [eassumption | reflexivity]|].
  all: split; [unfold recordOf; use_facts; reflexivity|].
  all: first
    [ left; split; [assumption|]; split; [reflexivity|]; split; [reflexivity|];
      first [ left; eexists; split; [first [eassumption | reflexivity] | reflexivity]
            | right; split; [first [assumption | reflexivity] | reflexivity] ]
    | right; split; [assumption|]; eexists; split; [eassumption|];
      first
        [ left; eexists; split; [first [eassumption | reflexivity]|];
          split; [eassumption|];
          split; [destruct w1; reflexivity | reflexivity]
        | right; use_facts; simpl; split; [assumption|]; split;
          [reflexivity | unfold listOutputs; rewrite <- !app_assoc; reflexivity] ] ].
Qed.

Ltac refute_suffix :=
  match goal with
  | |- ¬ ?P =>
      let H := fresh in
      intros H; apply (bool_decide_pack P) in H; vm_compute in H; exact H
  end.

Lemma rewritten_lookup_other (assetsDir d : string) (m : Metadata)
    (compiled : list string) (t : Z) (h : string) (fs : gmap string File) (p : string) :
  ¬ listOutputPath p ->
  rewritten assetsDir d m compiled t h fs !! p = fs !! p.
Proof.
  intros Hp. unfold rewritten.
  assert (Hne : ∀ q, q ∈ listOutputs assetsDir d m -> q ≠ p).
  { intros q Hq <-. apply Hp. eapply listOutputs_shape. exact Hq. }
  rewrite !lookup_insert_ne; [reflexivity|..]; apply Hne; unfold listOutputs.
  - apply list_elem_of_here.
  - apply list_elem_of_further, list_elem_of_here.
  - do 2 apply list_elem_of_further. apply list_elem_of_here.
Qed.

Lemma rewritten_lookup_revision (assetsDir d : string) (m : Metadata)
    (compiled : list string) (t : Z) (h : string) (fs : gmap string File) :
  rewritten assetsDir d m compiled t h fs !! path_join d REVISION_FILE
  = Some (RevisionJson {| timeUpdated := t; hash := Some h |}).
Proof.
  unfold rewritten. rewrite lookup_insert_ne.
  - rewrite lookup_insert_ne; [apply lookup_insert_eq|].
    unfold path_join. rewrite <- !app_assoc_str.
    change (d +:+ "/" +:+ REVISION_FILE) with (d +:+ "/revision.json").
    apply endings_differ; refute_suffix.
  - intros H. apply path_join_inj in H. discriminate H.
Qed.

(** A hostlist that needs no rewriting: the body of the loop returns its
    record and leaves the world as it is. *)
Lemma buildFilter_stable (assetsDir : string) (catalogs : Catalogs) (d : string)
    (w : World) (m : Metadata) (c : HostlistConfiguration) (r : Revision) :
  files w !! path_join d METADATA_FILE = Some (MetadataJson m) ->
  files w !! path_join d CONFIGURATION_FILE = Some (ConfigurationJson c) ->
  files w !! path_join d REVISION_FILE = Some (RevisionJson r) ->
  disabled m = true
  ∨ (∃ compiled, hostlistCompiler (Some c) = Some compiled
                 ∧ hash r = Some (calculateRevisionHash md5 compiled)) ->
  buildFilter clock md5 hostlistCompiler assetsDir catalogs d w
  = (Returned (pushed catalogs m (recordOf m c (timeUpdated r))), w).
Proof.
  destruct catalogs as [filtersMetadata filtersMetadataDev].
  intros Hm Hc Hr Hcase. run_buildFilter.
  rewrite Hm. simpl. rewrite Hr. simpl. rewrite Hc. simpl.
  destruct (disabled m) eqn:Hd.
  - reflexivity.
  - destruct Hcase as [Habs | (compiled & Hcomp & Hh)]; [discriminate Habs|].
    rewrite Hcomp. destruct (decide _) as [_|Hn]; [reflexivity | contradiction].
Qed.

(** X10. The record and the revision file agree: after the body of the
    loop has returned, the [timeUpdated] of the record it pushed is that of
    the revision file of the hostlist, which exists whenever the hostlist
    is enabled; only a disabled hostlist without a revision file has none,
    and its record carries the time of the build. *)
Theorem record_agrees_with_revision (assetsDir : string) (catalogs catalogs1 : Catalogs)
    (d : string) (w w1 : World) :
  buildFilter clock md5 hostlistCompiler assetsDir catalogs d w
  = (Returned catalogs1, w1) ->
  ∃ m c t,
    metadataOf w d = Some m ∧ configurationOf w d = Some c
    ∧ catalogs1 = pushed catalogs m (recordOf m c t)
    ∧ ((∃ r, files w1 !! path_join d REVISION_FILE = Some (RevisionJson r)
             ∧ timeUpdated r = t)
       ∨ (disabled m = true
          ∧ files w1 !! path_join d REVISION_FILE = None
          ∧ t = clock (ticks w))).
Proof.
  intros Hrun.
  destruct (buildFilter_returned _ _ _ _ _ _ Hrun) as (m & c & t & Hm & Hc & Hp & Hcase).
  exists m, c, t. unfold metadataOf, configurationOf. rewrite Hm, Hc.
  do 3 (split; [first [reflexivity | assumption]|]).
  destruct Hcase as [(Hd & Hf & _ & [(r & Hr & ->) | (Hr & ->)])
                    | (Hd & compiled & _ & [(r & Hr & _ & -> & ->) | (_ & Hf & _)])].
  - left. exists r. now rewrite Hf.
  - right. now rewrite Hf.
  - left. now exists r.
  - left. eexists. rewrite Hf, rewritten_lookup_revision. split; reflexivity.
Qed.

(** X11. Idempotence of the loop body: when it has returned for a hostlist
    that is enabled, or that has a revision file, running it again on the
    resulting world (the sources compiling to the same rules) returns the
    same record and leaves the world untouched: nothing is written and the
    clock is not read. *)
Theorem buildFilter_idempotent (assetsDir : string) (catalogs catalogs1 : Catalogs)
    (d : string) (w w1 : World) :
  buildFilter clock md5 hostlistCompiler assetsDir catalogs d w
  = (Returned catalogs1, w1) ->
  ∃ m fm,
    metadataOf w d = Some m
    ∧ catalogs1 = pushed catalogs m fm
    ∧ (disabled m = false ∨ is_Some (files w !! path_join d REVISION_FILE) ->
       ∀ catalogs',
         buildFilter clock md5 hostlistCompiler assetsDir catalogs' d w1
         = (Returned (pushed catalogs' m fm), w1)).
Proof.
  intros Hrun.
  destruct (buildFilter_returned _ _ _ _ _ _ Hrun) as (m & c & t & Hm & Hc & Hp & Hcase).
  exists m, (recordOf m c t). unfold metadataOf. rewrite Hm.
  do 2 (split; [first [reflexivity | assumption]|]).
  intros Hpre catalogs'.
  destruct Hcase as [(Hd & Hf & _ & [(r & Hr & ->) | (Hr & ->)])
                    | (Hd & compiled & Hcomp & [(r & Hr & Hh & -> & ->) | (_ & Hf & _)])].
  - apply buildFilter_stable; rewrite ?Hf; auto.
  - exfalso. destruct Hpre as [Hen | [x Hx]]; congruence.
  - apply buildFilter_stable; eauto.
  - replace t with (timeUpdated {| timeUpdated := t;
                                  hash := Some (calculateRevisionHash md5 compiled) |})
      by reflexivity.
    apply buildFilter_stable.
    + rewrite Hf, rewritten_lookup_other by apply metadata_not_output. exact Hm.
    + rewrite Hf, rewritten_lookup_other by apply configuration_not_output. exact Hc.
    + rewrite Hf. apply rewritten_lookup_revision.
    + right. exists compiled. split; [exact Hcomp | reflexivity].
Qed.

Lemma compile_failure_inv (assetsDir : string) (catalogs : Catalogs)
    (d : string) (w w1 : World) (failed : Z) :
  buildFilter clock md5 hostlistCompiler assetsDir catalogs d w
  = (Thrown (CompileFailed failed), w1) ->
  ∃ m ws,
    metadataOf w d = Some m ∧ id m = failed ∧ disabled m = false
    ∧ written w1 = (written w ++ ws)%list
    ∧ ws `prefix_of` listOutputs assetsDir d m.
Proof.
  destruct catalogs as [filtersMetadata filtersMetadataDev].
  run_buildFilter. intros H.
  repeat (case_match; simplify_eq/=).
  all: file_shapes.
  all: eexists _, []; rewrite app_nil_r.
  all: repeat split; try first [eassumption | reflexivity].
  all: apply prefix_nil.
Qed.

(** X12. A compile failure names its hostlist: when the body of the loop
    throws the compile error for a hostlist with metadata [m], the id in
    the error is the id of [m] and the hostlist is enabled, so that a
    disabled hostlist never raises it; and whatever the failed iteration
    has written are the first of the three files of the hostlist, in their
    order. *)
Theorem compile_failure_names_list (assetsDir : string) (catalogs : Catalogs)
    (d : string) (w w1 : World) (m : Metadata) (failed : Z) :
  metadataOf w d = Some m ->
  buildFilter clock md5 hostlistCompiler assetsDir catalogs d w
  = (Thrown (CompileFailed failed), w1) ->
  id m = failed ∧ disabled m = false
  ∧ ∃ ws, written w1 = (written w ++ ws)%list
          ∧ ws `prefix_of` listOutputs assetsDir d m.
Proof.
  intros Hm Hrun.
  destruct (compile_failure_inv _ _ _ _ _ _ Hrun) as (m' & ws & Hm' & Hid & Hd & Hw & Hp).
  rewrite Hm in Hm'. injection Hm' as <-. eauto.
Qed.

Lemma buildFilter_quiet_iff (assetsDir : string) (catalogs : Catalogs)
    (d : string) (w : World) :
  (∃ catalogs1 w1,
     buildFilter clock md5 hostlistCompiler assetsDir catalogs d w
     = (Returned catalogs1, w1)
     ∧ written w1 = written w)
  <-> ∃ m c,
        metadataOf w d = Some m ∧ configurationOf w d = Some c
        ∧ revisionReadable w d
        ∧ (disabled m = true
           ∨ ∃ compiled,
               hostlistCompiler (Some c) = Some compiled
               ∧ storedHash w d = Some (calculateRevisionHash md5 compiled)).
Proof.
  split.
  - intros (catalogs1 & w1 & Hrun & Hkept).
    destruct (buildFilter_returned _ _ _ _ _ _ Hrun)
      as (m & c & t & Hm & Hc & _ & Hcase).
    exists m, c. unfold metadataOf, configurationOf, revisionReadable.
    rewrite Hm, Hc. split; [reflexivity|]. split; [reflexivity|]. split.
    + revert Hrun. destruct catalogs as [filtersMetadata filtersMetadataDev].
      run_buildFilter. rewrite Hm. simpl.
      destruct (files w !! path_join d REVISION_FILE) as [f|]; [|now left].
      destruct f; simpl; try discriminate. eauto.
    + destruct Hcase as [(Hd & _) | (_ & compiled & Hcomp & Hhash)]; [now left|].
      right. exists compiled. split; [exact Hcomp|].
      destruct Hhash as [(r & Hr & Hh & _) | (_ & _ & Hw)].
      * unfold storedHash, storedRevision. rewrite Hr. exact Hh.
      * exfalso. rewrite Hkept in Hw.
        apply (f_equal (@List.length string)) in Hw.
        rewrite length_app in Hw. cbn [listOutputs List.length] in Hw. lia.
  - intros (m & c & Hm & Hc & Hr & Hcase).
    assert (Hrev : disabled m = false ->
              ∃ compiled r,
                hostlistCompiler (Some c) = Some compiled
                ∧ files w !! path_join d REVISION_FILE = Some (RevisionJson r)
                ∧ hash r = Some (calculateRevisionHash md5 compiled)).
    { intros Hd. destruct Hcase as [Habs | (compiled & Hcomp & Hh)]; [congruence|].
      unfold storedHash, storedRevision in Hh.
      destruct (files w !! path_join d REVISION_FILE) as [f|]; [|discriminate Hh].
      destruct f; try discriminate Hh. eauto. }
    unfold metadataOf, configurationOf in Hm, Hc.
    destruct (files w !! path_join d METADATA_FILE) as [fm|] eqn:Hfm; [|discriminate Hm].
    destruct (files w !! path_join d CONFIGURATION_FILE) as [fc|] eqn:Hfc;
      [|discriminate Hc].
    destruct fm; try discriminate Hm. destruct fc; try discriminate Hc.
    cbn in Hm, Hc. injection Hm as ->. injection Hc as ->.
    destruct (disabled m) eqn:Hd.
    + destruct catalogs as [filtersMetadata filtersMetadataDev].
      run_buildFilter. rewrite Hfm. simpl.
      destruct Hr as [Hr | (r & Hr)]; rewrite Hr; simpl; rewrite Hfc; simpl;
        rewrite Hd; eauto.
    + destruct (Hrev eq_refl) as (compiled & r & Hcomp & Hrf & Hh).
      eexists _, w. split; [|reflexivity].
      apply (buildFilter_stable assetsDir catalogs d w m c r Hfm Hfc Hrf).
      right. eauto.
Qed.

(** X28. For a hostlist directory that holds a metadata file and a
    configuration file and whose revision file is absent or holds a
    revision, the body of the loop returns without writing exactly when
    either the hostlist is disabled or the compiler accepts its
    configuration and the stored hash is the hash of the compiled rules. *)
Theorem buildFilter_leaves_disk_exactly_when (assetsDir : string) (catalogs : Catalogs)
    (d : string) (w : World) (m : Metadata) (c : HostlistConfiguration) :
  metadataOf w d = Some m ->
  configurationOf w d = Some c ->
  revisionReadable w d ->
  (∃ catalogs1 w1,
     buildFilter clock md5 hostlistCompiler assetsDir catalogs d w
     = (Returned catalogs1, w1)
     ∧ written w1 = written w)
  <-> (disabled m = true
       ∨ ∃ compiled,
           hostlistCompiler (Some c) = Some compiled
           ∧ storedHash w d = Some (calculateRevisionHash md5 compiled)).
Proof.
  intros Hm Hc Hr. rewrite buildFilter_quiet_iff. split.
  - intros (m' & c' & Hm' & Hc' & _ & Hcase).
    rewrite Hm in Hm'. rewrite Hc in Hc'. injection Hm' as <-. injection Hc' as <-.
    exact Hcase.
  - intros Hcase. exists m, c. auto.
Qed.

End AggregatorMore.

Section AggregatorMoreWitness.

Import Builder Spec FilterSpec Fixtures.

Lemma record_agrees_with_revision_witness :
  match buildFilter clock digest compiler "assets" ([], []) "filters/adguard" registry with
  | (Returned (_, [fm]), w1) =>
      ∃ r, files w1 !! "filters/adguard/revision.json" = Some (RevisionJson r)
           ∧ timeUpdated r = fm_timeUpdated fm
  | _ => False
  end.
Proof.
  destruct (buildFilter clock digest compiler "assets" ([], []) "filters/adguard" registry)
    as [[catalogs1|e] w1] eqn:Hrun; [|refute_run Hrun].
  destruct (record_agrees_with_revision clock digest compiler "assets" ([], []) catalogs1
              "filters/adguard" registry w1 Hrun)
    as (m & c & t & Hm & Hc & -> & Hcase).
  vm_compute in Hm. injection Hm as <-.
  cbn [pushed snd]. destruct Hcase as [(r & Hr & <-) | (Habs & _)].
  - exists r. split; [exact Hr | reflexivity].
  - discriminate Habs.
Defined.

Lemma buildFilter_idempotent_witness :
  match buildFilter clock digest compiler "assets" ([], []) "filters/adguard" registry with
  | (Returned (prod1, dev1), w1) =>
      buildFilter clock digest compiler "assets" ([], []) "filters/adguard" w1
      = (Returned (prod1, dev1), w1)
  | _ => False
  end.
Proof.
  destruct (buildFilter clock digest compiler "assets" ([], []) "filters/adguard" registry)
    as [[catalogs1|e] w1] eqn:Hrun; [|refute_run Hrun].
  destruct (buildFilter_idempotent clock digest compiler "assets" ([], []) catalogs1
              "filters/adguard" registry w1 Hrun)
    as (m & fm & Hm & -> & Hagain).
  vm_compute in Hm. injection Hm as <-.
  apply (Hagain (or_introl eq_refl) ([], [])).
Defined.

Lemma compile_failure_names_list_witness :
  match buildFilter clock digest compiler "assets" ([], []) "filters/frozen"
          brokenRegistry with
  | (Thrown (CompileFailed failed), w1) => failed = 2
  | _ => False
  end.
Proof.
  destruct (buildFilter clock digest compiler "assets" ([], []) "filters/frozen"
              brokenRegistry) as [[catalogs1|e] w1] eqn:Hrun;
    [refute_run Hrun|].
  destruct e; try (refute_run Hrun).
  assert (Hm : metadataOf brokenRegistry "filters/frozen" = Some broken)
    by (vm_compute; reflexivity).
  destruct (compile_failure_names_list clock digest compiler "assets" ([], [])
              "filters/frozen" brokenRegistry w1 broken list_id Hm Hrun)
    as (<- & _).
  reflexivity.
Defined.

Lemma buildFilter_leaves_disk_exactly_when_witness :
  ∃ catalogs1 w1,
    buildFilter clock digest compiler "assets" ([], []) "filters/frozen" registry
    = (Returned catalogs1, w1)
    ∧ written w1 = written registry.
Proof.
  assert (Hm : metadataOf registry "filters/frozen" = Some frozen)
    by (vm_compute; reflexivity).
  assert (Hc : configurationOf registry "filters/frozen" = Some threeSources)
    by (vm_compute; reflexivity).
  assert (Hr : revisionReadable registry "filters/frozen")
    by (right; eexists; vm_compute; reflexivity).
  apply (proj2 (buildFilter_leaves_disk_exactly_when clock digest compiler "assets"
                  ([], []) "filters/frozen" registry frozen threeSources Hm Hc Hr)).
  now left.
Defined.

End AggregatorMoreWitness.

Section BuildMore.

Import Builder Spec BuildSpec.

Variable listDirs : string -> list string.
Variable listFiltersDirs : string -> list string.
Variable clock : nat -> Z.
Variable md5 : string -> string.
Variable hostlistCompiler : option HostlistConfiguration -> option (list string).
Variable mastodonServerlistCompiler : option (list string).

Ltac refute_suffix :=
  match goal with
  | |- ¬ ?P =>
      let H := fresh in
      intros H; apply (bool_decide_pack P) in H; vm_compute in H; exact H
  end.

Lemma findIndex_split {A} (p : A -> bool) (l : list A) (i : nat) :
  findIndex p l = Some i ->
  ∃ before x after,
    l = (before ++ x :: after)%list ∧ List.length before = i
    ∧ p x = true ∧ Forall (fun y => p y = false) before.
Proof.
  revert i. induction l as [|y l IH]; intros i; [discriminate|].
  simpl. destruct (p y) eqn:Hy.
  - intros [= <-]. exists [], y, l. repeat split; auto.
  - destruct (findIndex p l) as [j|]; [|discriminate]. simpl. intros [= <-].
    destruct (IH j eq_refl) as (before & x & after & -> & Hlen & Hx & Hb).
    exists (y :: before), x, after. simpl. repeat split; auto.
Qed.

Lemma findIndex_none {A} (p : A -> bool) (l : list A) :
  findIndex p l = None -> Forall (fun y => p y = false) l.
Proof.
  induction l as [|y l IH]; [constructor|]. simpl.
  destruct (p y) eqn:Hy; [discriminate|].
  destruct (findIndex p l); [discriminate|]. intros _. constructor; auto.
Qed.

Lemma alter_middle {A} (f : A -> A) (before : list A) (x : A) (after : list A) :
  alter f (List.length before) (before ++ x :: after)%list
  = (before ++ f x :: after)%list.
Proof. induction before as [|y before IH]; simpl; [reflexivity | now f_equal]. Qed.

Lemma tags_not_services (tagsDir assetsDir : string) :
  path_join assetsDir SERVICES_FILE ≠ path_join tagsDir METADATA_FILE.
Proof.
  unfold path_join.
  change (assetsDir +:+ "/" +:+ SERVICES_FILE) with (assetsDir +:+ "/services.json").
  change (tagsDir +:+ "/" +:+ METADATA_FILE) with (tagsDir +:+ "/metadata.json").
  apply endings_differ; refute_suffix.
Qed.

(** Every successful build. *)
Lemma build_returned (filtersDir tagsDir localesDir assetsDir : string) (w w' : World) :
  build listDirs listFiltersDirs clock md5 hostlistCompiler
    mastodonServerlistCompiler filtersDir tagsDir localesDir assetsDir w
  = (Returned tt, w') ->
  ∃ filtersMetadata filtersMetadataDev wloop services servers mastodonIndex localizations,
    foldM (buildFilter clock md5 hostlistCompiler assetsDir) ([], [])
      (listFiltersDirs filtersDir) w
    = (Returned (filtersMetadata, filtersMetadataDev), wloop)
    ∧ files wloop !! path_join assetsDir SERVICES_FILE = Some (ServicesJson services)
    ∧ mastodonServerlistCompiler = Some servers
    ∧ findIndex isMastodon (blocked_services services) = Some mastodonIndex
    ∧ written w'
      = (written wloop ++ [ path_join assetsDir SERVICES_FILE;
                            path_join assetsDir FILTERS_METADATA_FILE;
                            path_join assetsDir FILTERS_METADATA_DEV_FILE;
                            path_join assetsDir FILTERS_I18N_METADATA_FILE ])%list
    ∧ files w'
      = published assetsDir (withRules services mastodonIndex servers)
          {| cat_filters := filtersMetadata;
             cat_tags := files wloop !! path_join tagsDir METADATA_FILE ≫= as_tags |}
          {| cat_filters := filtersMetadataDev;
             cat_tags := files wloop !! path_join tagsDir METADATA_FILE ≫= as_tags |}
          localizations (files wloop).
Proof.
  unfold build. unfold bind at 1.
  destruct (foldM _ _ _ w) as [[[filtersMetadata filtersMetadataDev]|e] wloop] eqn:Eloop;
    [|intros H; discriminate H].
  intros Hrun. exists filtersMetadata, filtersMetadataDev, wloop. revert Hrun.
  unfold parse, nonnull, readFile, writeFile, bind, ret, throw.
  intros Hrun.
  repeat (case_match; simplify_eq/=).
  all: repeat match goal with
       | H : loadLocales _ _ _ = _ |- _ =>
           apply loadLocales_readsOnly in H; destruct H as [? H]; simplify_eq/=
       end.
  all: repeat match goal with
       | H : as_services ?f = Some _ |- _ => destruct f; simplify_eq/=
       | H : as_tags ?f = Some _ |- _ => destruct f; simplify_eq/=
       end.
  all: eexists _, _, _, _.
  all: split; [reflexivity|].
  all: split; [first [eassumption | reflexivity]|].
  all: split; [reflexivity|].
  all: split; [eassumption|].
  all: split; [rewrite <- !app_assoc; reflexivity|].
  all: unfold published, withRules.
  all: repeat match goal with
       | H : <[_:=_]> _ !! _ = _ |- _ =>
           rewrite lookup_insert_ne in H by apply tags_not_services
       end.
  all: repeat match goal with
       | H : files _ !! _ = _ |- _ => rewrite H
       end.
  all: reflexivity.
Qed.

Lemma published_lookup_services (assetsDir : string) (services : Services)
    (prodCatalog devCatalog : Catalog) (localizations : Localizations)
    (fs : gmap string File) :
  published assetsDir services prodCatalog devCatalog localizations fs
    !! path_join assetsDir SERVICES_FILE
  = Some (ServicesJson services).
Proof.
  unfold published.
  do 3 (rewrite lookup_insert_ne
          by (intros Heq; apply path_join_inj in Heq; discriminate Heq)).
  apply lookup_insert_eq.
Qed.

(** X13. A successful build rewrites the services file with the rules of
    the first service whose id is "mastodon" replaced by the compiled
    server list; the services before and after it are written back as they
    were. *)
Theorem build_updates_mastodon_rules (filtersDir tagsDir localesDir assetsDir : string)
    (w w' : World) :
  build listDirs listFiltersDirs clock md5 hostlistCompiler
    mastodonServerlistCompiler filtersDir tagsDir localesDir assetsDir w
  = (Returned tt, w') ->
  ∃ before mastodon after servers,
    files w !! path_join assetsDir SERVICES_FILE
    = Some (ServicesJson {| blocked_services := before ++ mastodon :: after |})
    ∧ service_id mastodon = "mastodon"
    ∧ Forall (fun s => service_id s ≠ "mastodon") before
    ∧ mastodonServerlistCompiler = Some servers
    ∧ files w' !! path_join assetsDir SERVICES_FILE
      = Some (ServicesJson
                {| blocked_services :=
                     before ++ {| service_id := "mastodon"; service_rules := servers |}
                       :: after |}).
Proof.
  intros Hrun.
  destruct (build_returned _ _ _ _ _ _ Hrun)
    as (prod & dev & wloop & services & servers & i & localizations
        & Hloop & Hsvc & Hservers & Hfind & _ & Hfiles).
  destruct (foldM_buildFilter _ _ _ _ _ _ _ _ _ Hloop) as (ws & _ & _ & Hframe & _).
  destruct (findIndex_split _ _ _ Hfind) as (before & mastodon & after & Hl & Hlen & Hm & Hb).
  exists before, mastodon, after, servers.
  apply String.eqb_eq in Hm.
  split.
  { rewrite <- Hframe, Hsvc.
    - destruct services as [l]. simpl in Hl. now rewrite Hl.
    - apply (catalog_not_output assetsDir). apply list_elem_of_here. }
  split; [exact Hm|]. split.
  { eapply Forall_impl; [exact Hb|]. intros s Hs Heq. unfold isMastodon in Hs.
    apply String.eqb_neq in Hs. contradiction. }
  split; [exact Hservers|].
  rewrite Hfiles, published_lookup_services. unfold withRules.
  rewrite Hl, <- Hlen, alter_middle, Hm. reflexivity.
Qed.

(** X14. The order of the writes of a successful build: first the files
    of the hostlists (revision files and compiled filters only), then the
    services file, the prod catalog, the dev catalog and the translations
    catalog, each written once. *)
Theorem build_write_order (filtersDir tagsDir localesDir assetsDir : string)
    (w w' : World) :
  build listDirs listFiltersDirs clock md5 hostlistCompiler
    mastodonServerlistCompiler filtersDir tagsDir localesDir assetsDir w
  = (Returned tt, w') ->
  ∃ listWrites,
    Forall listOutputPath listWrites
    ∧ written w' = (written w ++ listWrites ++ catalogFiles assetsDir)%list.
Proof.
  intros Hrun.
  destruct (build_returned _ _ _ _ _ _ Hrun)
    as (prod & dev & wloop & services & servers & i & localizations
        & Hloop & _ & _ & _ & Hw & _).
  destruct (foldM_buildFilter _ _ _ _ _ _ _ _ _ Hloop) as (ws & Hws & Hshape & _ & _).
  exists ws. split; [exact Hshape|].
  rewrite Hw, Hws, <- app_assoc. reflexivity.
Qed.

(** X15. The tags are copied as they are: in both catalogs written by a
    successful build, [tags] is the content of the tags metadata file, and
    [null] when that file does not exist. *)
Theorem build_copies_tags (filtersDir tagsDir localesDir assetsDir : string)
    (w w' : World) :
  build listDirs listFiltersDirs clock md5 hostlistCompiler
    mastodonServerlistCompiler filtersDir tagsDir localesDir assetsDir w
  = (Returned tt, w') ->
  ∃ prodCatalog devCatalog,
    files w' !! path_join assetsDir FILTERS_METADATA_FILE = Some (CatalogJson prodCatalog)
    ∧ files w' !! path_join assetsDir FILTERS_METADATA_DEV_FILE
      = Some (CatalogJson devCatalog)
    ∧ cat_tags prodCatalog = files w !! path_join tagsDir METADATA_FILE ≫= as_tags
    ∧ cat_tags devCatalog = files w !! path_join tagsDir METADATA_FILE ≫= as_tags.
Proof.
  intros Hrun.
  destruct (build_returned _ _ _ _ _ _ Hrun)
    as (prod & dev & wloop & services & servers & i & localizations
        & Hloop & _ & _ & _ & _ & Hfiles).
  destruct (foldM_buildFilter _ _ _ _ _ _ _ _ _ Hloop) as (ws & _ & _ & Hframe & _).
  eexists _, _. rewrite Hfiles. unfold published.
  split.
  { do 2 (rewrite lookup_insert_ne
            by (intros Heq; apply path_join_inj in Heq; discriminate Heq)).
    apply lookup_insert_eq. }
  split.
  { rewrite lookup_insert_ne
      by (intros Heq; apply path_join_inj in Heq; discriminate Heq).
    apply lookup_insert_eq. }
  cbn [cat_tags]. rewrite (Hframe _ (metadata_not_output tagsDir)). split; reflexivity.
Qed.

(** X16. The build fails with "Mastodon service not found" only after
    every hostlist has been processed and the mastodon server list has
    been compiled, when no service of the services file has the id
    "mastodon"; the services file is then left as it was. *)
Theorem build_without_mastodon_service (filtersDir tagsDir localesDir assetsDir : string)
    (w w' : World) :
  build listDirs listFiltersDirs clock md5 hostlistCompiler
    mastodonServerlistCompiler filtersDir tagsDir localesDir assetsDir w
  = (Thrown MastodonNotFound, w') ->
  ∃ catalogs services,
    foldM (buildFilter clock md5 hostlistCompiler assetsDir) ([], [])
      (listFiltersDirs filtersDir) w = (Returned catalogs, w')
    ∧ is_Some mastodonServerlistCompiler
    ∧ files w !! path_join assetsDir SERVICES_FILE = Some (ServicesJson services)
    ∧ Forall (fun s => service_id s ≠ "mastodon") (blocked_services services)
    ∧ files w' !! path_join assetsDir SERVICES_FILE
      = files w !! path_join assetsDir SERVICES_FILE.
Proof.
  unfold build. unfold bind at 1.
  destruct (foldM _ _ _ w) as [[[filtersMetadata filtersMetadataDev]|e] wloop] eqn:Eloop.
  2:{ intros H. exfalso. injection H as -> _.
      assert (Hnever : ∀ dirs cats w0 w1,
                foldM (buildFilter clock md5 hostlistCompiler assetsDir) cats dirs w0
                ≠ (Thrown MastodonNotFound, w1)).
      { clear. induction dirs as [|d rest IH]; intros cats w0 w1; cbn [foldM].
        - discriminate.
        - unfold bind at 1.
          destruct (buildFilter clock md5 hostlistCompiler assetsDir cats d w0)
            as [[cats1|e] w2] eqn:E; [apply IH|].
          intros H. injection H as -> ->.
          destruct cats as [p q]. revert E.
          unfold buildFilter, readHostlistConfiguration, parse, nonnull, readFile,
            writeFile, getTime, bind, ret, throw.
          intros E. repeat (case_match; simplify_eq/=). }
      exact (Hnever _ _ _ _ Eloop). }
  intros Hrun.
  destruct (foldM_buildFilter _ _ _ _ _ _ _ _ _ Eloop) as (ws & _ & _ & Hframe & _).
  assert (Hsvc : ¬ listOutputPath (path_join assetsDir SERVICES_FILE))
    by (apply (catalog_not_output assetsDir); apply list_elem_of_here).
  revert Hrun. unfold parse, nonnull, readFile, writeFile, bind, ret, throw.
  intros Hrun.
  repeat (case_match; simplify_eq/=).
  all: repeat match goal with
       | H : loadLocales _ _ _ = _ |- _ =>
           apply loadLocales_readsOnly in H; destruct H as [? H]; simplify_eq/=
       end.
  all: try match goal with
       | H : ∀ e, Thrown _ = Thrown e -> ¬ beforeCatalogs e |- _ =>
           exfalso; exact (H _ eq_refl I)
       end.
  all: repeat match goal with
       | H : as_services ?f = Some _ |- _ => destruct f; simplify_eq/=
       end.
  all: eexists _, _; split; [reflexivity|]; split; [eauto|].
  all: rewrite <- (Hframe _ Hsvc).
  all: split; [eassumption|]; split; [|reflexivity].
  all: eapply Forall_impl; [apply findIndex_none; eassumption|].
  all: intros s Hs Heq; apply String.eqb_neq in Hs; contradiction.
Qed.

End BuildMore.

Section BuildMoreWitness.

Import Builder Spec BuildSpec Fixtures.

Lemma build_updates_mastodon_rules_witness :
  match runBuild registry with
  | (Returned _, w') =>
      files w' !! "assets/services.json"
      = Some (ServicesJson
                {| blocked_services :=
                     [ {| service_id := "9gag"; service_rules := ["||9gag.com^"] |};
                       {| service_id := "mastodon";
                          service_rules := ["mastodon.social"] |} ] |})
  | (Thrown _, _) => False
  end.
Proof.
  destruct (runBuild registry) as [[[]|e] w'] eqn:Hrun;
    [|refute_run Hrun].
  destruct (build_updates_mastodon_rules localeDirs filterDirs clock digest compiler
              (Some ["mastodon.social"]) "filters" "tags" "locales" "assets"
              registry w' Hrun)
    as (before & m & after & servers & Hin & Hid & Hb & Hs & Hout).
  injection Hs as <-.
  assert (Hreg : files registry !! path_join "assets" SERVICES_FILE
                 = Some (ServicesJson mastodon)) by (vm_compute; reflexivity).
  rewrite Hreg in Hin. injection Hin as Hin. unfold mastodon in Hin.
  destruct before as [|b0 [|b1 before]].
  - exfalso. injection Hin as <- _. discriminate Hid.
  - injection Hin as <- <- <-. exact Hout.
  - exfalso. injection Hin as _ _ Hin. now destruct before.
Defined.

Lemma build_write_order_witness :
  match runBuild registry with
  | (Returned _, w') =>
      ∃ listWrites,
        written w'
        = (listWrites ++ ["assets/services.json"; "assets/filters.json";
                          "assets/filters-dev.json"; "assets/filters_i18n.json"])%list
  | (Thrown _, _) => False
  end.
Proof.
  destruct (runBuild registry) as [[[]|e] w'] eqn:Hrun;
    [|refute_run Hrun].
  destruct (build_write_order localeDirs filterDirs clock digest compiler
              (Some ["mastodon.social"]) "filters" "tags" "locales" "assets"
              registry w' Hrun) as (ws & _ & Hw).
  exists ws. exact Hw.
Defined.

Lemma build_copies_tags_witness :
  match runBuild registry with
  | (Returned _, w') =>
      ∃ prodCatalog,
        files w' !! "assets/filters.json" = Some (CatalogJson prodCatalog)
        ∧ cat_tags prodCatalog = Some [ {| tagId := 1; keyword := "purpose:general" |} ]
  | (Thrown _, _) => False
  end.
Proof.
  destruct (runBuild registry) as [[[]|e] w'] eqn:Hrun;
    [|refute_run Hrun].
  destruct (build_copies_tags localeDirs filterDirs clock digest compiler
              (Some ["mastodon.social"]) "filters" "tags" "locales" "assets"
              registry w' Hrun) as (prodCatalog & devCatalog & Hp & _ & Ht & _).
  exists prodCatalog. split; [exact Hp|]. rewrite Ht. vm_compute. reflexivity.
Defined.

Lemma build_without_mastodon_service_witness :
  match runBuild MoreFixtures.registryWithoutMastodon with
  | (Thrown MastodonNotFound, w') =>
      files w' !! "assets/services.json"
      = files MoreFixtures.registryWithoutMastodon !! "assets/services.json"
  | _ => False
  end.
Proof.
  destruct (runBuild MoreFixtures.registryWithoutMastodon) as [[[]|e] w'] eqn:Hrun;
    [refute_run Hrun|].
  destruct e; try (refute_run Hrun).
  destruct (build_without_mastodon_service localeDirs filterDirs clock digest compiler
              (Some ["mastodon.social"]) "filters" "tags" "locales" "assets"
              MoreFixtures.registryWithoutMastodon w' Hrun)
    as (catalogs & services & _ & _ & _ & _ & Hkept).
  exact Hkept.
Defined.

End BuildMoreWitness.

Section DirectoryListings.

Import Builder Directories.

Lemma Dir_nested_ind (P : Dir -> Prop) :
  (∀ b children, Forall (fun entry => P (snd entry)) children -> P (Folder b children)) ->
  ∀ d, P d.
Proof.
  intros Hstep. fix IH 1. intros [b children]. apply Hstep.
  induction children as [|[name sub] rest IHrest]; constructor; [apply IH | exact IHrest].
Qed.

Lemma listFiltersDirs_unfold (baseDir : string) (b : bool)
    (children : list (string * Dir)) :
  listFiltersDirs baseDir (Folder b children)
  = List.concat
      (List.map (fun entry =>
                   if hasConfiguration (snd entry)
                   then [path_join baseDir (fst entry)]
                   else listFiltersDirs (path_join baseDir (fst entry)) (snd entry))
         children).
Proof.
  cbn [listFiltersDirs].
  induction children as [|[name sub] rest IH]; [reflexivity|].
  cbn [List.map List.concat fst snd]. now rewrite <- IH.
Qed.

(** X17. What lies inside a directory that holds a [configuration.json]
    is never looked at: the hostlist directories listed for a tree are
    those listed for the tree in which every such directory is emptied. *)
Theorem listFiltersDirs_ignores_inside (d : Dir) :
  ∀ baseDir, listFiltersDirs baseDir (prune d) = listFiltersDirs baseDir d.
Proof.
  induction d as [b children IH] using Dir_nested_ind. intros baseDir.
  cbn [prune]. rewrite !listFiltersDirs_unfold. f_equal.
  rewrite List.map_map. apply List.map_ext_in. intros [name sub] Hin.
  cbn [fst snd]. destruct (hasConfiguration sub) eqn:Hc; [reflexivity|].
  rewrite Forall_forall in IH.
  assert (Hsub : ∀ baseDir0, listFiltersDirs baseDir0 (prune sub)
                             = listFiltersDirs baseDir0 sub)
    by (apply (IH (name, sub)); now apply list_elem_of_In).
  destruct sub as [b' children']. simpl in Hc. subst b'.
  cbn [prune hasConfiguration] in *. apply Hsub.
Qed.

(** X18. No hostlist directory is listed exactly when no directory
    strictly below the base directory holds a [configuration.json]; the
    configuration of the base directory itself is not looked at. *)
Theorem listFiltersDirs_empty (d : Dir) :
  ∀ baseDir, listFiltersDirs baseDir d = [] <-> configuredBelow d = false.
Proof.
  induction d as [b children IH] using Dir_nested_ind. intros baseDir.
  rewrite listFiltersDirs_unfold. cbn [configuredBelow].
  induction children as [|[name sub] rest IHrest]; [simpl; tauto|].
  apply Forall_cons in IH as [Hsub Hrest].
  cbn [List.map List.concat existsb fst snd] in *.
  rewrite !orb_false_iff, <- (IHrest Hrest).
  destruct (hasConfiguration sub).
  - split; [intros H; discriminate H | intros [[H _] _]; discriminate H].
  - rewrite <- (Hsub (path_join baseDir name)). split.
    + intros H. apply List.app_eq_nil in H. tauto.
    + intros [[_ ->] ->]. reflexivity.
Qed.

End DirectoryListings.

Section ServiceKeys.

Import AddLocalizations AddLocalizationsSpec Spec KeySpec.

Lemma split_dotless (s : string) : dotless s -> Js.split "." s = [s].
Proof.
  induction s as [|c s IH]; intros Hs; [reflexivity|].
  apply dotless_cons in Hs as [Hc Hs]. cbn [Js.split].
  destruct (Ascii.eqb c ".") eqn:E; [apply Ascii.eqb_eq in E; contradiction|].
  now rewrite (IH Hs).
Qed.

Lemma split_app_dot (a rest : string) :
  dotless a -> Js.split "." (a +:+ "." +:+ rest) = a :: Js.split "." rest.
Proof.
  induction a as [|c a IH]; intros Ha.
  - rewrite app_nil. change ("." +:+ rest) with (String "." rest). reflexivity.
  - apply dotless_cons in Ha as [Hc Ha]. rewrite app_cons. cbn [Js.split].
    destruct (Ascii.eqb c ".") eqn:E; [apply Ascii.eqb_eq in E; contradiction|].
    now rewrite (IH Ha).
Qed.

(** X19. A key made of a category, an id and a sign joined by dots, none of
    which contains a dot, is read as that id and that sign; a key without
    any dot is read as the id "undefined" and the sign "undefined". *)
Theorem service_key_parts :
  (∀ category id sign,
     dotless category -> dotless id -> dotless sign ->
     idOf (category +:+ "." +:+ id +:+ "." +:+ sign) = id
     ∧ signOf (category +:+ "." +:+ id +:+ "." +:+ sign) = sign)
  ∧ (∀ key, dotless key -> idOf key = "undefined" ∧ signOf key = "undefined").
Proof.
  split.
  - intros category id sign Hc Hi Hs. unfold idOf, signOf.
    rewrite split_app_dot, split_app_dot, split_dotless by assumption.
    split; reflexivity.
  - intros key Hk. unfold idOf, signOf. rewrite split_dotless by assumption.
    split; reflexivity.
Qed.

Lemma service_key_parts_witness :
  idOf "servicesgroup.cdn.name" = "cdn" ∧ signOf "servicesgroup.cdn.name" = "name"
  ∧ idOf "cdn" = "undefined".
Proof.
  destruct service_key_parts as [Hparts Hnone].
  assert (Hd : ∀ s, bool_decide (dotless s) = true -> dotless s)
    by (intros s H; now apply bool_decide_eq_true in H).
  destruct (Hparts "servicesgroup" "cdn" "name") as [Hi Hs]; try (apply Hd; reflexivity).
  destruct (Hnone "cdn") as [Hu _]; [apply Hd; reflexivity|].
  auto.
Defined.

Lemma grouped_is_Some (fileObjects : list FileObject) :
  ∀ (base : nat) (g : Obj) (id : string),
    is_Some (grouped base fileObjects g !! id)
    <-> is_Some (g !! id)
        ∨ (id ≠ "__proto__" ∧ ∃ fo, fo ∈ fileObjects ∧ id ∈ idsOf fo).
Proof.
  induction fileObjects as [|fo rest IH]; intros base g id; cbn [grouped].
  - split; [auto|]. intros [H | (_ & fo & Hin & _)]; [exact H|].
    now apply elem_of_nil in Hin.
  - rewrite IH, lookup_union_is_Some, componentOf_lookup. split.
    + intros [[Hc | Hg] | (Hp & fo' & Hin & Hid)].
      * destruct (decide (id ∈ idsOf fo ∧ id ≠ "__proto__")) as [[Hin Hp]|_];
          [|now destruct Hc].
        right. split; [exact Hp|]. exists fo. split; [apply list_elem_of_here | exact Hin].
      * now left.
      * right. split; [exact Hp|]. exists fo'.
        split; [now apply list_elem_of_further | exact Hid].
    + intros [Hg | (Hp & fo' & Hin & Hid)]; [left; now right|].
      apply elem_of_cons in Hin as [-> | Hin].
      * left. left.
        destruct (decide (id ∈ idsOf fo ∧ id ≠ "__proto__")) as [_|Hn];
          [eauto | destruct Hn; now split].
      * right. eauto.
Qed.

(** X20. The result of [groupFileContentByTranslations] binds exactly the
    ids read off the keys of the file objects, but for the id [__proto__],
    which is never bound: nothing for an empty array, and no id that no
    key names. *)
Theorem groupFileContentByTranslations_binds_key_ids
    (fileObjects : list FileObject) (locale id : string) :
  match groupFileContentByTranslations fileObjects locale [] with
  | (groupedFileObjects, heap) =>
      is_Some (getProperty heap groupedFileObjects id)
      <-> id ≠ "__proto__" ∧ ∃ fo, fo ∈ fileObjects ∧ id ∈ idsOf fo
  end.
Proof.
  rewrite groupFileContentByTranslations_run. unfold getProperty.
  cbn [lookup list_lookup mbind option_bind].
  rewrite grouped_is_Some, lookup_empty. split.
  - intros [H | H]; [now destruct H | exact H].
  - auto.
Qed.

End ServiceKeys.

Section ServiceLocalesFacts.

Import Builder AddLocalizationsSpec ServiceLocales.
Import AddLocalizations (Value, Str, Ref, Obj, Heap, FileObject,
  groupFileContentByTranslations, getProperty, assigned).

Lemma find_last_split {A} (p : A -> bool) (l : list A) (x : A) :
  List.find p (List.rev l) = Some x ->
  ∃ before after,
    l = (before ++ x :: after)%list ∧ p x = true ∧ Forall (fun y => p y = false) after.
Proof.
  induction l as [|y l IH] using rev_ind; [discriminate|].
  rewrite List.rev_app_distr. cbn [List.rev app List.find].
  destruct (p y) eqn:Hy.
  - intros [= <-]. exists l, []. repeat split; auto.
  - intros H. destruct (IH H) as (before & after & -> & Hx & Ha).
    exists before, (after ++ [y])%list. rewrite <- app_assoc. repeat split; auto.
    apply Forall_app. split; [exact Ha|]. constructor; auto.
Qed.

Lemma find_last_none {A} (p : A -> bool) (l : list A) :
  List.find p (List.rev l) = None -> Forall (fun y => p y = false) l.
Proof.
  intros H. apply Forall_forall. intros y Hy.
  apply (List.find_none _ _ H). apply List.in_rev. rewrite List.rev_involutive.
  now apply list_elem_of_In.
Qed.

Lemma signsOf_read (fo : FileObject) : omap readString (fieldsOf fo) = signsOf fo.
Proof.
  unfold fieldsOf, signsOf.
  induction fo as [|entry rest IH] using rev_ind; [apply omap_empty|].
  rewrite !List.fold_left_app. cbn [fold_left].
  rewrite <- IH. unfold assigned.
  destruct (decide (signOf (fst entry) = "__proto__")); [reflexivity|].
  apply map_eq. intros k.
  rewrite lookup_omap. destruct (decide (k = signOf (fst entry))) as [->|Hne].
  - now rewrite !lookup_insert_eq.
  - rewrite !lookup_insert_ne by congruence. now rewrite lookup_omap.
Qed.

Lemma heap_blocks_lookup (g : Obj) (locale : string) (before : list FileObject)
    (fo : FileObject) (after : list FileObject) :
  (g :: blocks locale 1 (before ++ fo :: after)) !! (3 * List.length before + 1)%nat
  = Some (fieldsOf fo)
  ∧ (g :: blocks locale 1 (before ++ fo :: after)) !! S (3 * List.length before + 1)
    = Some (localesOf locale fo (3 * List.length before + 1)).
Proof.
  rewrite blocks_app. cbn [blocks].
  set (tail := blocks locale (3 + (3 * List.length before + 1)) after).
  set (lt := localesOf locale fo (3 * List.length before + 1)).
  set (c := componentOf fo (S (3 * List.length before + 1))).
  assert (Hat : ∀ k, (g :: blocks locale 1 before ++ fieldsOf fo :: lt :: c :: tail)
                       !! S (3 * List.length before + k)
                     = (fieldsOf fo :: lt :: c :: tail) !! k).
  { intros k. change ((?x :: ?l) !! S ?n) with (l !! n).
    rewrite lookup_app_r by (rewrite blocks_length; lia).
    rewrite blocks_length. f_equal. lia. }
  split.
  - replace (3 * List.length before + 1)%nat with (S (3 * List.length before + 0)) by lia.
    now rewrite Hat.
  - now rewrite Hat.
Qed.

(** The result of [groupFileContentByTranslations], read as plain data. *)
Lemma readGrouped_lookup (fileObjects : list FileObject) (locale id : string) :
  match groupFileContentByTranslations fileObjects locale [] with
  | (groupedFileObjects, heap) =>
      readGrouped heap groupedFileObjects !! id
      = (fun fo => underLocale locale (signsOf fo))
          <$> (if decide (id = "__proto__") then None else lastNaming id fileObjects)
  end.
Proof.
  rewrite groupFileContentByTranslations_run. unfold readGrouped.
  cbn [lookup list_lookup]. change (default ?d (Some ?x)) with x.
  rewrite lookup_omap.
  destruct (decide (id = "__proto__")) as [Hp|Hp].
  { destruct (grouped 1 fileObjects ∅ !! id) as [v|] eqn:Hv; [|reflexivity].
    exfalso. assert (His : is_Some (grouped 1 fileObjects ∅ !! id)) by eauto.
    apply grouped_is_Some in His as [His | (Hn & _)]; [|contradiction].
    rewrite lookup_empty in His. now destruct His. }
  unfold lastNaming.
  destruct (List.find _ (List.rev fileObjects)) as [fo|] eqn:Hfind.
  - destruct (find_last_split _ _ _ Hfind) as (before & after & -> & Hfo & Hafter).
    apply bool_decide_eq_true in Hfo.
    assert (Hfree : ∀ later, later ∈ after -> id ∉ idsOf later).
    { intros later Hl. rewrite Forall_forall in Hafter.
      specialize (Hafter later Hl). now apply bool_decide_eq_false in Hafter. }
    rewrite grouped_app. cbn [grouped].
    rewrite grouped_not_rebound by exact Hfree.
    erewrite lookup_union_Some_l;
      [|rewrite componentOf_lookup;
        destruct (decide (id ∈ idsOf fo ∧ id ≠ "__proto__")) as [_|Hn];
        [reflexivity | destruct Hn; now split]].
    cbn [mbind option_bind readLocales].
    destruct (heap_blocks_lookup
                (grouped (3 + (3 * List.length before + 1)) after
                   (componentOf fo (S (3 * List.length before + 1)) ∪ grouped 1 before ∅))
                locale before fo after) as [Ht Hlt].
    rewrite Hlt. unfold localesOf.
    destruct fo as [|entry fo']; [now apply elem_of_nil in Hfo|].
    cbn [fmap option_fmap option_map]. f_equal.
    unfold assigned, underLocale.
    destruct (decide (locale = "__proto__")); [apply omap_empty|].
    rewrite insert_empty. apply omap_singleton_Some. cbn [readTranslate]. rewrite Ht.
    now rewrite signsOf_read.
  - pose proof (find_last_none _ _ Hfind) as Hnone.
    destruct (grouped 1 fileObjects ∅ !! id) as [v|] eqn:Hv; [|reflexivity].
    exfalso. assert (His : is_Some (grouped 1 fileObjects ∅ !! id)) by eauto.
    apply grouped_is_Some in His as [His | (_ & fo & Hin & Hid)].
    + rewrite lookup_empty in His. now destruct His.
    + rewrite Forall_forall in Hnone. specialize (Hnone fo Hin).
      apply bool_decide_eq_false in Hnone. contradiction.
Qed.

Lemma mergeTranslation_lookup (acc obj : Grouped) (key : string) :
  mergeTranslation acc obj !! key
  = match obj !! key with
    | Some value => Some (value ∪ default ∅ (acc !! key))
    | None => acc !! key
    end.
Proof.
  unfold mergeTranslation.
  apply (map_fold_weak_ind
           (fun (r : Grouped) (m : Grouped) =>
              r !! key = match m !! key with
                         | Some value => Some (value ∪ default ∅ (acc !! key))
                         | None => acc !! key
                         end)).
  - now rewrite lookup_empty.
  - intros i x m r Hi IH. destruct (decide (i = key)) as [->|Hne].
    + rewrite !lookup_insert_eq. rewrite Hi in IH. now rewrite IH.
    + now rewrite !lookup_insert_ne by congruence.
Qed.

Lemma collectTranslation_returned (baseFolder d : string) (w : World)
    (t : option Grouped) (w' : World) :
  collectTranslation baseFolder d w = (Returned t, w') ->
  w' = w
  ∧ ∀ id,
      (from_option (fun obj : Grouped => obj !! id) None t)
      = (fun fo => underLocale d (signsOf fo))
          <$> (if decide (id = "__proto__") then None
               else lastNaming id (serviceFile w baseFolder d)).
Proof.
  unfold collectTranslation, serviceFile, readFile, bind, ret, throw.
  destruct (files w !! path_join (path_join baseFolder d) "services.json") as [f|];
    cbn [mbind option_bind].
  - destruct (as_messages f) as [content|]; [|discriminate].
    pose proof (readGrouped_lookup content d) as Hread.
    destruct (groupFileContentByTranslations content d []) as [g heap].
    intros [= <- <-]. split; [reflexivity|]. intros id. apply Hread.
  - intros [= <- <-]. split; [reflexivity|]. intros id.
    now destruct (decide (id = "__proto__")).
Qed.

Lemma merge_step (acc : Grouped) (t : option Grouped) (d id loc : string)
    (last : option FileObject) :
  from_option (fun obj : Grouped => obj !! id) None t
  = (fun fo => underLocale d (signsOf fo)) <$> last ->
  translationsAt (from_option (mergeTranslation acc) acc t) id loc
  = if decide (loc = d ∧ loc ≠ "__proto__")
    then match last with
         | Some fo => Some (signsOf fo)
         | None => translationsAt acc id loc
         end
    else translationsAt acc id loc.
Proof.
  intros Ht. unfold translationsAt.
  destruct t as [obj|]; cbn [from_option] in *.
  - rewrite mergeTranslation_lookup, Ht.
    destruct last as [fo|]; cbn [fmap option_fmap option_map].
    + unfold underLocale. destruct (decide (d = "__proto__")) as [Hp|Hp].
      * rewrite (left_id_L ∅ (∪)).
        destruct (decide (loc = d ∧ loc ≠ "__proto__")) as [[-> Hn]|_];
          [contradiction|].
        destruct (acc !! id); [reflexivity | apply lookup_empty].
      * destruct (decide (loc = d ∧ loc ≠ "__proto__")) as [[-> _]|Hne].
        -- erewrite lookup_union_Some_l; [reflexivity|]. apply lookup_singleton_eq.
        -- rewrite lookup_union_r.
           ++ destruct (acc !! id); [reflexivity | apply lookup_empty].
           ++ apply lookup_singleton_ne. intros <-. apply Hne. now split.
    + now destruct (decide (loc = d ∧ loc ≠ "__proto__")).
  - destruct last; [discriminate Ht|].
    now destruct (decide (loc = d ∧ loc ≠ "__proto__")).
Qed.

Lemma collectAll_returned (baseFolder : string) (directories : list string) (w : World) :
  ∀ (translations : list (option Grouped)) (w' : World),
    collectAll baseFolder directories w = (Returned translations, w') ->
    w' = w
    ∧ Forall2 (fun d t => collectTranslation baseFolder d w = (Returned t, w))
        directories translations.
Proof.
  induction directories as [|d rest IH]; intros translations w'; cbn [collectAll].
  - unfold ret. intros [= <- <-]. split; [reflexivity | constructor].
  - unfold bind at 1.
    destruct (collectTranslation baseFolder d w) as [[t|e] w1] eqn:E1; [|discriminate].
    destruct (collectTranslation_returned _ _ _ _ _ E1) as [-> _].
    unfold bind at 1.
    destruct (collectAll baseFolder rest w) as [[ts|e] w2] eqn:E2; [|discriminate].
    destruct (IH _ _ eq_refl) as [-> Hall].
    unfold ret. intros [= <- <-]. split; [reflexivity|]. now constructor.
Qed.

Lemma fold_merge (baseFolder : string) (w : World) (id loc : string) :
  ∀ (directories : list string) (translations : list (option Grouped)) (acc : Grouped),
    Forall2 (fun d t => collectTranslation baseFolder d w = (Returned t, w))
      directories translations ->
    NoDup directories ->
    translationsAt
      (fold_left mergeTranslation (omap (fun t => t) translations) acc) id loc
    = if decide (loc ∈ directories ∧ loc ≠ "__proto__")
      then match (if decide (id = "__proto__") then None
                  else lastNaming id (serviceFile w baseFolder loc)) with
           | Some fo => Some (signsOf fo)
           | None => translationsAt acc id loc
           end
      else translationsAt acc id loc.
Proof.
  intros directories translations acc Hall. revert acc.
  induction Hall as [|d t rest ts Hd _ IH]; intros acc Hnodup.
  - cbn. destruct (decide (loc ∈ [] ∧ loc ≠ "__proto__")) as [[Hin _]|_];
      [now apply elem_of_nil in Hin|].
    reflexivity.
  - apply NoDup_cons in Hnodup as [Hfresh Hnodup].
    destruct (collectTranslation_returned _ _ _ _ _ Hd) as [_ Hread].
    assert (Hfold : fold_left mergeTranslation (omap (fun t0 => t0) (t :: ts)) acc
                    = fold_left mergeTranslation (omap (fun t0 => t0) ts)
                        (from_option (mergeTranslation acc) acc t))
      by now destruct t.
    rewrite Hfold, (IH _ Hnodup), (merge_step acc t d id loc _ (Hread id)).
    destruct (decide (loc = d ∧ loc ≠ "__proto__")) as [[-> Hp]|Hne].
    + destruct (decide (d ∈ rest ∧ d ≠ "__proto__")) as [[Hin _]|_]; [contradiction|].
      destruct (decide (d ∈ d :: rest ∧ d ≠ "__proto__")) as [_|Hn]; [reflexivity|].
      exfalso. apply Hn. split; [apply list_elem_of_here | exact Hp].
    + destruct (decide (loc ∈ rest ∧ loc ≠ "__proto__")) as [[Hin Hp]|Hn];
        destruct (decide (loc ∈ d :: rest ∧ loc ≠ "__proto__")) as [[Hin' Hp']|Hn'];
        try reflexivity.
      * exfalso. apply Hn'. split; [now apply list_elem_of_further | exact Hp].
      * exfalso. apply elem_of_cons in Hin' as [->|Hin'].
        -- apply Hne. now split.
        -- apply Hn. now split.
Qed.

(** X21. The translations of the locales are kept apart: when the
    directories have distinct names and [getGroupedTranslations] returns,
    it has written nothing, and the translation object recorded for an id
    under a locale directory is that of the last file object of the
    [services.json] of that directory that names the id, with the signs of
    that file object (a sign [__proto__] apart, which leaves no property);
    it is absent when no file object of the directory names the id, when
    the directory has no [services.json], for a locale that is no
    directory, and for the id and the directory [__proto__], whose
    assignments leave no property. *)
Theorem getGroupedTranslations_by_locale (baseFolder : string)
    (directories : list string) (w : World) (result : Grouped) (w' : World)
    (id locale : string) :
  NoDup directories ->
  getGroupedTranslations baseFolder directories w = (Returned result, w') ->
  w' = w
  ∧ translationsAt result id locale
    = if decide (locale ∈ directories ∧ locale ≠ "__proto__" ∧ id ≠ "__proto__")
      then signsOf <$> lastNaming id (serviceFile w baseFolder locale)
      else None.
Proof.
  intros Hnodup. unfold getGroupedTranslations. unfold bind at 1.
  destruct (collectAll baseFolder directories w) as [[ts|e] w1] eqn:E; [|discriminate].
  destruct (collectAll_returned _ _ _ _ _ E) as [-> Hall].
  unfold ret. intros [= <- <-]. split; [reflexivity|].
  rewrite (fold_merge baseFolder w id locale directories ts ∅ Hall Hnodup).
  unfold translationsAt. rewrite lookup_empty.
  destruct (decide (locale ∈ directories ∧ locale ≠ "__proto__")) as [[Hin Hp]|Hn].
  - destruct (decide (id = "__proto__")) as [Hid|Hid].
    + destruct (decide (locale ∈ directories ∧ locale ≠ "__proto__" ∧ id ≠ "__proto__"))
        as [(_ & _ & Hc)|_]; [contradiction | reflexivity].
    + destruct (decide (locale ∈ directories ∧ locale ≠ "__proto__" ∧ id ≠ "__proto__"))
        as [_|Hc]; [|exfalso; apply Hc; auto].
      now destruct (lastNaming id (serviceFile w baseFolder locale)).
  - destruct (decide (locale ∈ directories ∧ locale ≠ "__proto__" ∧ id ≠ "__proto__"))
      as [(Hin & Hp & _)|_]; [|reflexivity].
    exfalso. apply Hn. now split.
Qed.

End ServiceLocalesFacts.

Section ServiceLocalesWitness.

Import Builder AddLocalizationsSpec ServiceLocales ServiceFixtures.

Lemma getGroupedTranslations_by_locale_witness :
  match getGroupedTranslations "locales" ["en"; "de"; "fr"] serviceWorld with
  | (Returned result, _) =>
      translationsAt result "cdn" "en"
      = Some {[ "name" := "CDN"; "description" := "Networks" ]}
      ∧ translationsAt result "cdn" "de" = Some {[ "name" := "Inhaltsnetz" ]}
      ∧ translationsAt result "cdn" "fr" = None
      ∧ translationsAt result "__proto__" "de" = None
  | (Thrown _, _) => False
  end.
Proof.
  assert (Hnodup : NoDup ["en"; "de"; "fr"]).
  { apply (bool_decide_unpack _). vm_compute. exact I. }
  destruct (getGroupedTranslations "locales" ["en"; "de"; "fr"] serviceWorld)
    as [[result|e] w'] eqn:Hrun.
  2:{ refute_run Hrun. }
  pose proof (fun id locale =>
                proj2 (getGroupedTranslations_by_locale "locales" ["en"; "de"; "fr"]
                         serviceWorld result w' id locale Hnodup Hrun)) as H.
  rewrite (H "cdn" "en"), (H "cdn" "de"), (H "cdn" "fr"), (H "__proto__" "de").
  clear H Hrun.
  repeat split; vm_compute; reflexivity.
Defined.

End ServiceLocalesWitness.

Section PrepareFacts.

Import Builder Spec Prepare PrepareSpec.

Lemma key_inj (p a b s : string) : p +:+ a +:+ s = p +:+ b +:+ s -> a = b.
Proof.
  intros H. apply (f_equal chars) in H. rewrite !chars_app in H.
  apply app_inv_head, app_inv_tail in H. now apply chars_inj.
Qed.

Lemma key_endings (p a b s1 s2 : string) :
  ¬ (chars s1 `suffix_of` chars s2) ->
  ¬ (chars s2 `suffix_of` chars s1) ->
  p +:+ a +:+ s1 ≠ p +:+ b +:+ s2.
Proof.
  intros H1 H2. rewrite <- !app_assoc_str. now apply endings_differ.
Qed.

Lemma filterNameKey_inj (a b : Z) : filterNameKey a = filterNameKey b -> a = b.
Proof. intros H. apply key_inj in H. now apply (inj pretty). Qed.

Lemma filterDescriptionKey_inj (a b : Z) :
  filterDescriptionKey a = filterDescriptionKey b -> a = b.
Proof. intros H. apply key_inj in H. now apply (inj pretty). Qed.

Lemma tagNameKey_inj (a b : Z) : tagNameKey a = tagNameKey b -> a = b.
Proof. intros H. apply key_inj in H. now apply (inj pretty). Qed.

Ltac refute_ending :=
  match goal with
  | |- ¬ ?P =>
      let H := fresh in
      intros H; apply (bool_decide_pack P) in H; vm_compute in H; exact H
  end.

Lemma name_not_description (a b : Z) : filterNameKey a ≠ filterDescriptionKey b.
Proof. apply key_endings; refute_ending. Qed.

Lemma tag_name_not_description (a b : Z) : tagNameKey a ≠ tagDescriptionKey b.
Proof. apply key_endings; refute_ending. Qed.

Lemma has_get (key : string) (object : Message) :
  has key object = true <-> is_Some (get key object).
Proof.
  unfold has. rewrite bool_decide_eq_true.
  induction object as [|[k v] rest IH]; cbn [get fmap list_fmap fst].
  - split; [intros H; now apply elem_of_nil in H | intros [? [=]]].
  - rewrite elem_of_cons. destruct (decide (k = key)) as [->|Hne].
    + split; eauto.
    + rewrite <- IH. split; [intros [?|?]; congruence || assumption | auto].
Qed.

Lemma has_false (key : string) (object : Message) :
  has key object = false <-> get key object = None.
Proof.
  rewrite <- not_true_iff_false, has_get, <- eq_None_not_Some. reflexivity.
Qed.

Lemma get_assign_eq (key value : string) (object : Message) :
  get key (assign key value object) = Some value.
Proof.
  induction object as [|[k v] rest IH]; cbn [assign get].
  - now destruct (decide (key = key)).
  - destruct (decide (k = key)) as [->|Hne]; cbn [get].
    + now destruct (decide (key = key)).
    + now destruct (decide (k = key)).
Qed.

Lemma get_assign_ne (k key value : string) (object : Message) :
  k ≠ key -> get k (assign key value object) = get k object.
Proof.
  intros Hk. induction object as [|[k' v] rest IH]; cbn [assign get].
  - destruct (decide (key = k)); [congruence | reflexivity].
  - destruct (decide (k' = key)) as [->|Hne]; cbn [get].
    + destruct (decide (key = k)); [congruence | reflexivity].
    + destruct (decide (k' = k)); [reflexivity | exact IH].
Qed.

Lemma assign_same (key value : string) (object : Message) :
  get key object = Some value -> assign key value object = object.
Proof.
  induction object as [|[k v] rest IH]; cbn [assign get]; [discriminate|].
  destruct (decide (k = key)) as [->|Hne].
  - now intros [= ->].
  - intros H. now rewrite IH.
Qed.

Lemma todo_object (tagMeta : Tag) :
  assign (tagDescriptionKey (tagId tagMeta))
    ("TODO: description for tag " +:+ keyword tagMeta)
    (assign (tagNameKey (tagId tagMeta)) ("TODO: name for tag " +:+ keyword tagMeta) [])
  = todoFor tagMeta.
Proof.
  cbn [assign].
  destruct (decide (tagNameKey (tagId tagMeta) = tagDescriptionKey (tagId tagMeta)))
    as [H|_]; [now apply tag_name_not_description in H | reflexivity].
Qed.

Lemma findTag_Some (tags : list Tag) (tag : string) (tagMeta : Tag) :
  findTag tags tag = Some tagMeta -> tagMeta ∈ tags ∧ keyword tagMeta = tag.
Proof.
  intros H. apply List.find_some in H as [Hin Hk].
  split; [now apply list_elem_of_In | now apply bool_decide_eq_true in Hk].
Qed.

Lemma findTag_None (tags : list Tag) (tag : string) :
  findTag tags tag = None <-> ¬ knownTag tags tag.
Proof.
  split.
  - intros H (tagMeta & Hin & Hk).
    apply list_elem_of_In in Hin. pose proof (List.find_none _ _ H _ Hin) as Hf.
    apply bool_decide_eq_false in Hf. contradiction.
  - intros H. destruct (findTag tags tag) as [tagMeta|] eqn:Hf; [|reflexivity].
    exfalso. apply H. exists tagMeta. now apply findTag_Some.
Qed.

Lemma addTag_shape (tagMeta : Tag) (items : list Message) :
  (addTag tagMeta items = items ∨ addTag tagMeta items = (items ++ [todoFor tagMeta])%list)
  ∧ existsb (has (tagNameKey (tagId tagMeta))) (addTag tagMeta items) = true.
Proof.
  unfold addTag.
  destruct (existsb (has (tagNameKey (tagId tagMeta))) items) eqn:Hex.
  - split; [now left | exact Hex].
  - rewrite todo_object. split; [now right|].
    rewrite List.existsb_app. cbn [existsb].
    assert (Hhas : has (tagNameKey (tagId tagMeta)) (todoFor tagMeta) = true).
    { apply has_get. cbn [get todoFor].
      destruct (decide (tagNameKey (tagId tagMeta) = tagNameKey (tagId tagMeta)));
        [eauto | congruence]. }
    rewrite Hhas. now rewrite orb_true_r.
Qed.

Lemma translated_app (tags : list Tag) (items added : list Message) (tag : string) :
  translated tags items tag -> translated tags (items ++ added) tag.
Proof.
  intros (tagMeta & Hf & Hex). exists tagMeta. split; [exact Hf|].
  rewrite List.existsb_app, Hex. reflexivity.
Qed.

Lemma addTags_done (tags : list Tag) (filterTags : list string) :
  ∀ items items',
    addTags tags filterTags items = Done items' ->
    ∃ added,
      items' = (items ++ added)%list
      ∧ Forall (fun object => ∃ tagMeta, tagMeta ∈ tags ∧ object = todoFor tagMeta) added
      ∧ Forall (translated tags items') filterTags.
Proof.
  induction filterTags as [|tag rest IH]; intros items items'; cbn [addTags].
  - intros [= <-]. exists []. rewrite app_nil_r. repeat split; constructor.
  - destruct (findTag tags tag) as [tagMeta|] eqn:Hf; [|discriminate].
    intros H. destruct (IH _ _ H) as (added & -> & Hadded & Hrest).
    destruct (addTag_shape tagMeta items) as [[Hsame | Hnew] Hex].
    + exists added. rewrite Hsame in *. repeat split; [exact Hadded|].
      constructor; [|exact Hrest].
      apply translated_app. now exists tagMeta.
    + exists (todoFor tagMeta :: added). rewrite Hnew in *.
      rewrite <- app_assoc in *. cbn [app] in *. repeat split.
      * constructor; [|exact Hadded]. exists tagMeta.
        split; [now apply findTag_Some in Hf | reflexivity].
      * constructor; [|exact Hrest].
        change (items ++ todoFor tagMeta :: added)%list
          with (items ++ [todoFor tagMeta] ++ added)%list.
        rewrite app_assoc. apply translated_app. now exists tagMeta.
Qed.

Lemma addTags_fails (tags : list Tag) (filterTags : list string) :
  ∀ items tag,
    addTags tags filterTags items = CannotFindTag tag ->
    tag ∈ filterTags ∧ ¬ knownTag tags tag.
Proof.
  induction filterTags as [|t rest IH]; intros items tag; cbn [addTags]; [discriminate|].
  destruct (findTag tags t) as [tagMeta|] eqn:Hf.
  - intros H. destruct (IH _ _ H) as [Hin Hun]. split; [now apply list_elem_of_further | exact Hun].
  - intros [= <-]. split; [apply list_elem_of_here | now apply findTag_None].
Qed.

Lemma addTags_returns (tags : list Tag) (filterTags : list string) :
  Forall (knownTag tags) filterTags ->
  ∀ items, ∃ items', addTags tags filterTags items = Done items'.
Proof.
  induction 1 as [|tag rest Hk _ IH]; intros items; cbn [addTags]; [eauto|].
  destruct (findTag tags tag) as [tagMeta|] eqn:Hf; [apply IH|].
  now apply findTag_None in Hf.
Qed.

Lemma addTags_fixed (tags : list Tag) (filterTags : list string) (items : list Message) :
  Forall (translated tags items) filterTags -> addTags tags filterTags items = Done items.
Proof.
  induction 1 as [|tag rest (tagMeta & Hf & Hex) _ IH]; cbn [addTags]; [reflexivity|].
  rewrite Hf. unfold addTag. rewrite Hex. exact IH.
Qed.

Lemma find_split {A} (p : A -> bool) (l : list A) (x : A) :
  List.find p l = Some x ->
  ∃ before after,
    l = (before ++ x :: after)%list ∧ Forall (fun y => p y = false) before ∧ p x = true.
Proof.
  induction l as [|y l IH]; cbn [List.find]; [discriminate|].
  destruct (p y) eqn:Hy.
  - intros [= <-]. exists [], l. repeat split; [constructor | exact Hy].
  - intros H. destruct (IH H) as (before & after & -> & Hb & Hx).
    exists (y :: before), after. repeat split; [now constructor | exact Hx].
Qed.

Lemma find_skip {A} (p : A -> bool) (before l : list A) :
  Forall (fun y => p y = false) before ->
  List.find p (before ++ l) = List.find p l.
Proof.
  induction 1 as [|y before Hy _ IH]; [reflexivity|].
  cbn [app List.find]. now rewrite Hy.
Qed.

Lemma find_none_Forall {A} (p : A -> bool) (l : list A) :
  List.find p l = None -> Forall (fun y => p y = false) l.
Proof.
  intros H. apply Forall_forall. intros y Hy.
  apply (List.find_none _ _ H). now apply list_elem_of_In.
Qed.

(** The object written for a blocklist: the name and the description are
    set, every other key is as before. *)
Lemma updated_get (filter : Metadata) (object : Message) :
  let object' :=
    assign (filterDescriptionKey (id filter)) (description filter)
      (assign (filterNameKey (id filter)) (name filter) object) in
  get (filterNameKey (id filter)) object' = Some (name filter)
  ∧ get (filterDescriptionKey (id filter)) object' = Some (description filter)
  ∧ agreeOutside (keyOf [filter]) object object'.
Proof.
  cbn zeta. repeat split.
  - rewrite get_assign_ne by apply name_not_description. apply get_assign_eq.
  - apply get_assign_eq.
  - intros key Hkey.
    assert (key ≠ filterNameKey (id filter) ∧ key ≠ filterDescriptionKey (id filter))
      as [Hn Hd].
    { split; intros ->; apply Hkey; exists filter;
        (split; [apply list_elem_of_here | auto]). }
    now rewrite !get_assign_ne.
Qed.

Lemma updateFound_None (filter : Metadata) (items : list Message) :
  updateFound filter items = None ->
  Forall (fun object => has (filterNameKey (id filter)) object = false) items.
Proof.
  induction items as [|object rest IH]; cbn [updateFound]; [constructor|].
  destruct (has _ object) eqn:Hhas; [discriminate|].
  destruct (updateFound filter rest); [discriminate|]. intros _. constructor; auto.
Qed.

Lemma updateFound_at (filter : Metadata) (before : list Message) (object : Message)
    (after : list Message) :
  Forall (fun o => has (filterNameKey (id filter)) o = false) before ->
  has (filterNameKey (id filter)) object = true ->
  updateFound filter (before ++ object :: after)
  = Some (before
          ++ assign (filterDescriptionKey (id filter)) (description filter)
               (assign (filterNameKey (id filter)) (name filter) object)
          :: after)%list.
Proof.
  intros Hb Ho. induction Hb as [|o before Hf _ IH]; cbn [app updateFound].
  - now rewrite Ho.
  - now rewrite Hf, IH.
Qed.

Lemma updateFound_Some (filter : Metadata) (items updated : list Message) :
  updateFound filter items = Some updated ->
  ∃ before object after,
    items = (before ++ object :: after)%list
    ∧ Forall (fun o => has (filterNameKey (id filter)) o = false) before
    ∧ has (filterNameKey (id filter)) object = true
    ∧ updated
      = (before
         ++ assign (filterDescriptionKey (id filter)) (description filter)
              (assign (filterNameKey (id filter)) (name filter) object)
         :: after)%list.
Proof.
  revert updated. induction items as [|o rest IH]; intros updated; cbn [updateFound];
    [discriminate|].
  destruct (has _ o) eqn:Hhas.
  - intros [= <-]. exists [], o, rest. repeat split; [constructor | exact Hhas].
  - destruct (updateFound filter rest) as [rest'|]; [|discriminate].
    intros [= <-]. destruct (IH _ eq_refl) as (before & object & after & -> & Hb & Ho & ->).
    exists (o :: before), object, after. repeat split; [now constructor | exact Ho].
Qed.

Lemma agreeOutside_refl (keys : string -> Prop) (object : Message) :
  agreeOutside keys object object.
Proof. now intros key _. Qed.

Lemma agreeOutside_trans (keys : string -> Prop) (a b c : Message) :
  agreeOutside keys a b -> agreeOutside keys b c -> agreeOutside keys a c.
Proof. intros Hab Hbc key Hkey. now rewrite (Hbc key Hkey), (Hab key Hkey). Qed.

Lemma agreeOutside_mono (keys keys' : string -> Prop) (a b : Message) :
  (∀ key, keys key -> keys' key) -> agreeOutside keys a b -> agreeOutside keys' a b.
Proof. intros Hsub Hab key Hkey. apply Hab. auto. Qed.

Lemma Forall2_agree_refl (keys : string -> Prop) (items : list Message) :
  Forall2 (agreeOutside keys) items items.
Proof. induction items; constructor; auto using agreeOutside_refl. Qed.

Lemma extends_refl (keys : string -> Prop) (items : list Message) :
  extends keys items items.
Proof.
  exists items, []. rewrite app_nil_r.
  repeat split; [apply Forall2_agree_refl | constructor].
Qed.

Lemma extends_mono (keys keys' : string -> Prop) (items items' : list Message) :
  (∀ key, keys key -> keys' key) -> extends keys items items' -> extends keys' items items'.
Proof.
  intros Hsub (updated & added & -> & Hu & Ha). exists updated, added. repeat split.
  - eapply Forall2_impl; [exact Hu|]. intros a b. now apply agreeOutside_mono.
  - eapply Forall_impl; [exact Ha|]. intros a. now apply agreeOutside_mono.
Qed.

Lemma extends_trans (keys : string -> Prop) (a b c : list Message) :
  extends keys a b -> extends keys b c -> extends keys a c.
Proof.
  intros (u1 & a1 & -> & Hu1 & Ha1) (u2 & a2 & -> & Hu2 & Ha2).
  apply Forall2_app_inv_l in Hu2 as (u2a & u2b & Hua & Hub & ->).
  exists u2a, (u2b ++ a2)%list. rewrite app_assoc. repeat split.
  - clear -Hu1 Hua. revert u2a Hua.
    induction Hu1 as [|x y l l' Hxy _ IH]; intros u2a Hua.
    + apply Forall2_nil_inv_l in Hua as ->. constructor.
    + apply Forall2_cons_inv_l in Hua as (z & l'' & Hyz & Hl & ->).
      constructor; [now apply (agreeOutside_trans _ _ y) | now apply IH].
  - apply Forall_app. split; [|exact Ha2].
    clear -Ha1 Hub. induction Hub as [|x y l l' Hxy _ IH]; [constructor|].
    apply Forall_cons in Ha1 as [Hx Hl].
    constructor; [now apply (agreeOutside_trans _ _ x) | now apply IH].
Qed.

Lemma updateFilter_extends (filter : Metadata) (items : list Message) :
  extends (keyOf [filter]) items (updateFilter filter items).
Proof.
  unfold updateFilter. destruct (updateFound filter items) as [updated|] eqn:Hf.
  - apply updateFound_Some in Hf as (before & object & after & -> & _ & _ & ->).
    eexists _, []. rewrite app_nil_r. repeat split; [|constructor].
    apply Forall2_app; [apply Forall2_agree_refl|].
    constructor; [apply updated_get | apply Forall2_agree_refl].
  - eexists items, [_]. repeat split; [apply Forall2_agree_refl|].
    constructor; [apply updated_get | constructor].
Qed.

Lemma updateFilter_records (filter : Metadata) (items : list Message) :
  recorded filter (updateFilter filter items).
Proof.
  unfold updateFilter, recorded, firstWith.
  destruct (updated_get filter []) as (Hn0 & Hd0 & _).
  destruct (updateFound filter items) as [updated|] eqn:Hf.
  - apply updateFound_Some in Hf as (before & object & after & -> & Hb & _ & ->).
    destruct (updated_get filter object) as (Hn & Hd & _).
    eexists. rewrite (find_skip _ _ _ Hb). cbn [List.find].
    rewrite (proj2 (has_get _ _)) by (rewrite Hn; eauto). eauto.
  - apply updateFound_None in Hf.
    eexists. rewrite (find_skip _ _ _ Hf). cbn [List.find].
    rewrite (proj2 (has_get _ _)) by (rewrite Hn0; eauto). eauto.
Qed.

Lemma updateFilter_fixed (filter : Metadata) (items : list Message) :
  recorded filter items -> updateFilter filter items = items.
Proof.
  intros (object & Hfind & Hn & Hd). unfold updateFilter.
  apply find_split in Hfind as (before & after & -> & Hb & Ho).
  rewrite (updateFound_at _ _ _ _ Hb Ho).
  now rewrite (assign_same _ _ _ Hn), (assign_same _ _ _ Hd).
Qed.

Lemma has_agree (keys : string -> Prop) (key : string) (a b : Message) :
  agreeOutside keys a b -> ¬ keys key -> has key b = has key a.
Proof.
  intros Hab Hkey. specialize (Hab key Hkey).
  destruct (has key a) eqn:Ha.
  - apply has_get. rewrite Hab. now apply has_get.
  - apply has_false. rewrite Hab. now apply has_false.
Qed.

Lemma recorded_extends (keys : string -> Prop) (filter : Metadata)
    (items items' : list Message) :
  extends keys items items' ->
  ¬ keys (filterNameKey (id filter)) -> ¬ keys (filterDescriptionKey (id filter)) ->
  recorded filter items -> recorded filter items'.
Proof.
  intros (updated & added & -> & Hu & _) Hkn Hkd (object & Hfind & Hn & Hd).
  unfold recorded, firstWith in *.
  induction Hu as [|x y l l' Hxy _ IH]; [discriminate|].
  cbn [app List.find] in *. rewrite (has_agree _ _ _ _ Hxy Hkn).
  destruct (has _ x).
  - injection Hfind as ->. exists y. split; [reflexivity|].
    now rewrite (Hxy _ Hkn), (Hxy _ Hkd).
  - now apply IH.
Qed.

Lemma prepareFilter_done (tags : list Tag) (filter : Metadata) (base base' : BaseLanguage) :
  prepareFilter tags filter base = Done base' ->
  filtersBaseLanguage base' = updateFilter filter (filtersBaseLanguage base)
  ∧ addTags tags (Builder.tags filter) (tagsBaseLanguage base)
    = Done (tagsBaseLanguage base').
Proof.
  unfold prepareFilter.
  destruct (addTags tags (Builder.tags filter) (tagsBaseLanguage base)); [|discriminate].
  now intros [= <-].
Qed.

Lemma keyOf_cons (filter : Metadata) (rest : list Metadata) (key : string) :
  keyOf (filter :: rest) key <-> keyOf [filter] key ∨ keyOf rest key.
Proof.
  unfold keyOf. split.
  - intros (g & Hin & Hkey). apply elem_of_cons in Hin as [-> | Hin].
    + left. exists filter. split; [apply list_elem_of_here | exact Hkey].
    + right. eauto.
  - intros [(g & Hin & Hkey) | (g & Hin & Hkey)].
    + apply list_elem_of_singleton in Hin as ->. exists filter.
      split; [apply list_elem_of_here | exact Hkey].
    + exists g. split; [now apply list_elem_of_further | exact Hkey].
Qed.

Lemma keyOf_fresh (filter : Metadata) (rest : list Metadata) :
  id filter ∉ id <$> rest ->
  ¬ keyOf rest (filterNameKey (id filter))
  ∧ ¬ keyOf rest (filterDescriptionKey (id filter)).
Proof.
  intros Hfresh.
  assert (Hid : ∀ g, g ∈ rest -> id filter ≠ id g).
  { intros g Hin Heq. apply Hfresh. rewrite Heq. apply list_elem_of_fmap. eauto. }
  split; intros (g & Hin & [Hkey | Hkey]).
  - now apply filterNameKey_inj, Hid in Hkey.
  - now apply name_not_description in Hkey.
  - symmetry in Hkey. now apply name_not_description in Hkey.
  - now apply filterDescriptionKey_inj, Hid in Hkey.
Qed.

Lemma prepare_done (tags : list Tag) (filters : list Metadata) :
  ∀ base base',
    prepare tags filters base = Done base' ->
    extends (keyOf filters) (filtersBaseLanguage base) (filtersBaseLanguage base')
    ∧ (∃ added,
         tagsBaseLanguage base' = (tagsBaseLanguage base ++ added)%list
         ∧ Forall (fun object => ∃ tagMeta, tagMeta ∈ tags ∧ object = todoFor tagMeta)
             added)
    ∧ Forall (fun filter =>
                Forall (translated tags (tagsBaseLanguage base')) (Builder.tags filter))
        filters
    ∧ (NoDup (id <$> filters) ->
       Forall (fun filter => recorded filter (filtersBaseLanguage base')) filters).
Proof.
  induction filters as [|filter rest IH]; intros base base'; cbn [prepare].
  - intros [= <-]. repeat split; try constructor.
    + apply extends_refl.
    + exists []. rewrite app_nil_r. split; [reflexivity | constructor].
  - destruct (prepareFilter tags filter base) as [base1|] eqn:Hstep; [|discriminate].
    intros Hrest. apply prepareFilter_done in Hstep as [Hfs Hts].
    destruct (IH _ _ Hrest) as (Hext & (added2 & Hts' & Hadded2) & Htr & Hrec).
    destruct (addTags_done _ _ _ _ Hts) as (added1 & Hts1 & Hadded1 & Htr1).
    repeat split.
    + apply (extends_trans _ _ (filtersBaseLanguage base1)).
      * rewrite Hfs. eapply extends_mono; [|apply updateFilter_extends].
        intros key Hkey. apply keyOf_cons. now left.
      * eapply extends_mono; [|exact Hext].
        intros key Hkey. apply keyOf_cons. now right.
    + exists (added1 ++ added2)%list. rewrite Hts', Hts1, app_assoc.
      split; [reflexivity | now apply Forall_app].
    + constructor; [|exact Htr].
      rewrite Hts'. eapply Forall_impl; [exact Htr1|].
      intros tag. apply translated_app.
    + intros Hnodup. cbn [fmap list_fmap] in Hnodup.
      apply NoDup_cons in Hnodup as [Hfresh Hnodup].
      constructor; [|now apply Hrec].
      destruct (keyOf_fresh _ _ Hfresh) as [Hn Hd].
      apply (recorded_extends _ _ _ _ Hext Hn Hd).
      rewrite Hfs. apply updateFilter_records.
Qed.

Lemma prepare_fixed (tags : list Tag) (filters : list Metadata) (base : BaseLanguage) :
  Forall (fun filter => recorded filter (filtersBaseLanguage base)) filters ->
  Forall (fun filter =>
            Forall (translated tags (tagsBaseLanguage base)) (Builder.tags filter))
    filters ->
  prepare tags filters base = Done base.
Proof.
  induction 1 as [|filter rest Hrec _ IH]; intros Htr; [reflexivity|].
  apply Forall_cons in Htr as [Hf Hrest]. cbn [prepare]. unfold prepareFilter.
  rewrite (addTags_fixed _ _ _ Hf), (updateFilter_fixed _ _ Hrec).
  destruct base as [fs ts]. cbn [filtersBaseLanguage tagsBaseLanguage]. now apply IH.
Qed.

Lemma prepare_fails (tags : list Tag) (filters : list Metadata) :
  ∀ base tag,
    prepare tags filters base = CannotFindTag tag ->
    ¬ knownTag tags tag ∧ ∃ filter, filter ∈ filters ∧ tag ∈ Builder.tags filter.
Proof.
  induction filters as [|filter rest IH]; intros base tag; cbn [prepare]; [discriminate|].
  unfold prepareFilter.
  destruct (addTags tags (Builder.tags filter) (tagsBaseLanguage base)) as [ts|t] eqn:Hts.
  - intros H. destruct (IH _ _ H) as (Hun & g & Hin & Htag).
    split; [exact Hun|]. exists g. split; [now apply list_elem_of_further | exact Htag].
  - intros [= <-]. apply addTags_fails in Hts as [Hin Hun].
    split; [exact Hun|]. exists filter. split; [apply list_elem_of_here | exact Hin].
Qed.

(** X22. After the loop every blocklist is in the filters file: when the
    ids of the blocklists are distinct and the loop ends, the first object
    that has the name key of a blocklist holds its name under that key and
    its description under the description key. *)
Theorem prepare_records_blocklists (tags : list Tag) (filters : list Metadata)
    (base base' : BaseLanguage) (filter : Metadata) :
  NoDup (id <$> filters) ->
  prepare tags filters base = Done base' ->
  filter ∈ filters ->
  recorded filter (filtersBaseLanguage base').
Proof.
  intros Hnodup Hrun Hin.
  destruct (prepare_done _ _ _ _ Hrun) as (_ & _ & _ & Hrec).
  specialize (Hrec Hnodup). rewrite Forall_forall in Hrec. now apply Hrec.
Qed.

(** X23. Running the loop on its own result changes nothing: when the ids
    of the blocklists are distinct and the loop ends, a second run over the
    same metadata on the resulting arrays ends with the same arrays; no
    object is added twice. *)
Theorem prepare_idempotent (tags : list Tag) (filters : list Metadata)
    (base base' : BaseLanguage) :
  NoDup (id <$> filters) ->
  prepare tags filters base = Done base' ->
  prepare tags filters base' = Done base'.
Proof.
  intros Hnodup Hrun.
  destruct (prepare_done _ _ _ _ Hrun) as (_ & _ & Htr & Hrec).
  apply prepare_fixed; [now apply Hrec | exact Htr].
Qed.

(** X24. The loop ends exactly when every tag of every blocklist is the
    keyword of a tag of the tags metadata; otherwise it stops with
    "Cannot find tag metadata" for a tag of a blocklist that is no such
    keyword. *)
Theorem prepare_stops_on_unknown_tag (tags : list Tag) (filters : list Metadata)
    (base : BaseLanguage) :
  ((∃ base', prepare tags filters base = Done base')
   <-> ∀ filter tag, filter ∈ filters -> tag ∈ Builder.tags filter -> knownTag tags tag)
  ∧ ∀ tag,
      prepare tags filters base = CannotFindTag tag ->
      ¬ knownTag tags tag ∧ ∃ filter, filter ∈ filters ∧ tag ∈ Builder.tags filter.
Proof.
  split; [|intros tag; apply prepare_fails]. split.
  - intros [base' Hrun] filter tag Hin Htag.
    destruct (prepare_done _ _ _ _ Hrun) as (_ & _ & Htr & _).
    rewrite Forall_forall in Htr. specialize (Htr filter Hin).
    rewrite Forall_forall in Htr. destruct (Htr tag Htag) as (tagMeta & Hf & _).
    exists tagMeta. now apply findTag_Some.
  - intros Hknown. destruct (prepare tags filters base) as [base'|tag] eqn:Hrun; [eauto|].
    apply prepare_fails in Hrun as (Hun & filter & Hin & Htag).
    destruct Hun. eauto.
Qed.

(** X25. The translations of the tags are never overwritten: when the loop
    ends, the tags array is the one it started from followed by objects
    added for tags of the tags metadata, each holding the two TODO texts of
    its tag; and every tag of every blocklist has its name key in some
    object of the array. *)
Theorem prepare_keeps_tag_translations (tags : list Tag) (filters : list Metadata)
    (base base' : BaseLanguage) :
  prepare tags filters base = Done base' ->
  (∃ added,
     tagsBaseLanguage base' = (tagsBaseLanguage base ++ added)%list
     ∧ Forall (fun object => ∃ tagMeta, tagMeta ∈ tags ∧ object = todoFor tagMeta) added)
  ∧ ∀ filter tag,
      filter ∈ filters -> tag ∈ Builder.tags filter ->
      translated tags (tagsBaseLanguage base') tag.
Proof.
  intros Hrun. destruct (prepare_done _ _ _ _ Hrun) as (_ & Hadded & Htr & _).
  split; [exact Hadded|]. intros filter tag Hin Htag.
  rewrite Forall_forall in Htr. specialize (Htr filter Hin).
  rewrite Forall_forall in Htr. now apply Htr.
Qed.

(** X26. The loop touches only the keys of the blocklists: when it ends,
    the objects of the filters array it started from are still there, in
    their places, and hold what they held under every key that is not the
    name key or the description key of a blocklist; the objects added
    after them hold nothing under any other key. *)
Theorem prepare_keeps_other_keys (tags : list Tag) (filters : list Metadata)
    (base base' : BaseLanguage) :
  prepare tags filters base = Done base' ->
  extends (keyOf filters) (filtersBaseLanguage base) (filtersBaseLanguage base').
Proof.
  intros Hrun. now destruct (prepare_done _ _ _ _ Hrun) as (Hext & _).
Qed.

End PrepareFacts.

Section PrepareIds.

Import Builder Spec KeySpec Prepare PrepareSpec.














End PrepareIds.

Section PrepareWitness.

Import Builder Prepare PrepareSpec PrepareFixtures.

Lemma prepare_records_blocklists_witness :
  ∃ base',
    prepare tagsMetadata blocklists englishFiles = Done base'
    ∧ recorded (blocklist 1 "AdGuard DNS" ["purpose:general"]) (filtersBaseLanguage base')
    ∧ recorded (blocklist 5 "Threats" ["purpose:security"; "purpose:general"])
        (filtersBaseLanguage base').
Proof.
  assert (Hnodup : NoDup (id <$> blocklists)).
  { apply (bool_decide_unpack _). vm_compute. exact I. }
  eexists. split; [vm_compute; reflexivity|].
  split; apply (prepare_records_blocklists tagsMetadata blocklists englishFiles);
    try exact Hnodup; try (vm_compute; reflexivity).
  - apply list_elem_of_here.
  - apply list_elem_of_further, list_elem_of_here.
Defined.

Lemma prepare_idempotent_witness :
  ∃ base',
    prepare tagsMetadata blocklists englishFiles = Done base'
    ∧ base' ≠ englishFiles
    ∧ prepare tagsMetadata blocklists base' = Done base'.
Proof.
  eexists. split; [vm_compute; reflexivity|]. split; [discriminate|].
  apply (prepare_idempotent tagsMetadata blocklists englishFiles).
  - apply (bool_decide_unpack _). vm_compute. exact I.
  - vm_compute. reflexivity.
Defined.

Lemma prepare_stops_on_unknown_tag_witness :
  prepare tagsMetadata (blocklist 9 "New" ["purpose:unknown"] :: blocklists) englishFiles
  = CannotFindTag "purpose:unknown"
  ∧ ¬ knownTag tagsMetadata "purpose:unknown".
Proof.
  assert (Hrun : prepare tagsMetadata
                   (blocklist 9 "New" ["purpose:unknown"] :: blocklists) englishFiles
                 = CannotFindTag "purpose:unknown") by (vm_compute; reflexivity).
  split; [exact Hrun|].
  exact (proj1 (proj2 (prepare_stops_on_unknown_tag tagsMetadata
                         (blocklist 9 "New" ["purpose:unknown"] :: blocklists)
                         englishFiles) _ Hrun)).
Defined.

Lemma prepare_keeps_tag_translations_witness :
  match prepare tagsMetadata blocklists englishFiles with
  | Done base' =>
      (∃ added,
         tagsBaseLanguage base' = (tagsBaseLanguage englishFiles ++ added)%list
         ∧ Forall (fun object =>
                     ∃ tagMeta, tagMeta ∈ tagsMetadata ∧ object = todoFor tagMeta) added)
      ∧ translated tagsMetadata (tagsBaseLanguage base') "purpose:security"
  | CannotFindTag _ => False
  end.
Proof.
  destruct (prepare tagsMetadata blocklists englishFiles) as [base'|tag] eqn:Hrun;
    [|vm_compute in Hrun; discriminate Hrun].
  destruct (prepare_keeps_tag_translations _ _ _ _ Hrun) as [Hadded Htr].
  split; [exact Hadded|].
  apply (Htr (blocklist 5 "Threats" ["purpose:security"; "purpose:general"])).
  - apply list_elem_of_further, list_elem_of_here.
  - apply list_elem_of_here.
Defined.

Lemma prepare_keeps_other_keys_witness :
  match prepare tagsMetadata blocklists englishFiles with
  | Done base' =>
      extends (keyOf blocklists) (filtersBaseLanguage englishFiles)
        (filtersBaseLanguage base')
  | CannotFindTag _ => False
  end.
Proof.
  destruct (prepare tagsMetadata blocklists englishFiles) as [base'|tag] eqn:Hrun;
    [|vm_compute in Hrun; discriminate Hrun].
  exact (prepare_keeps_other_keys _ _ _ _ Hrun).
Defined.

End PrepareWitness.

Section DotlessKeys.

Import Builder Spec KeySpec.

Lemma prefix_chars (m s : string) :
  String.prefix m s = true -> ∀ c, c ∈ chars m -> c ∈ chars s.
Proof.
  revert s. induction m as [|a m IH]; intros s Hp c Hc.
  - now apply elem_of_nil in Hc.
  - destruct s as [|b s]; [discriminate Hp|]. cbn [String.prefix] in Hp.
    destruct (ascii_dec a b) as [<-|_]; [|discriminate Hp].
    change (chars (String a ?x)) with (a :: chars x) in *.
    apply elem_of_cons in Hc as [-> | Hc]; [apply list_elem_of_here|].
    apply list_elem_of_further. now apply (IH s).
Qed.

Lemma find_first_absent (sub s : string) (c : ascii) :
  c ∈ chars sub -> c ∉ chars s -> ∀ i, Js.find_first sub s i = None.
Proof.
  intros Hsub. induction s as [|b s IH]; intros Hs i.
  - cbn [Js.find_first]. destruct (String.prefix sub "") eqn:Hp; [|reflexivity].
    destruct Hs. now apply (prefix_chars _ _ Hp).
  - cbn [Js.find_first]. destruct (String.prefix sub (String b s)) eqn:Hp.
    + destruct Hs. now apply (prefix_chars _ _ Hp).
    + apply IH. intros Hc. apply Hs.
      change (chars (String b s)) with (b :: chars s). now apply list_elem_of_further.
Qed.

Lemma drop_str_chars (n : nat) (s : string) (c : ascii) :
  c ∈ chars (Js.drop_str n s) -> c ∈ chars s.
Proof.
  revert s. induction n as [|n IH]; intros s; [now destruct s|].
  destruct s as [|b s]; cbn [Js.drop_str]; [auto|].
  intros Hc. change (chars (String b s)) with (b :: chars s).
  apply list_elem_of_further. now apply IH.
Qed.

Lemma indexOf_absent (s sub : string) (c : ascii) (from : Z) :
  c ∈ chars sub -> c ∉ chars s -> Js.indexOf s sub from = -1.
Proof.
  intros Hsub Hs. unfold Js.indexOf.
  rewrite (find_first_absent sub _ c Hsub); [reflexivity|].
  intros Hc. apply Hs. now apply drop_str_chars in Hc.
Qed.

(** X30. A key without any dot is not rejected: for a mask that contains a
    dot, [parseInfo] returns the whole key as the message and, as the id,
    the characters of the key before position [mask.length - 1]. *)
Theorem parseInfo_dotless_key (key mask : string) :
  dotless key -> "."%char ∈ chars mask ->
  parseInfo key mask
  = {| info_id := Js.substring key 0 (Some (Z.of_nat (String.length mask) - 1));
       info_message := key |}.
Proof.
  intros Hkey Hmask. unfold parseInfo.
  rewrite (indexOf_absent key mask "." 0 Hmask Hkey).
  rewrite (indexOf_absent key "." "." _ (list_elem_of_here _ _) Hkey).
  unfold Js.lastIndexOf. rewrite (find_last_dotless key 0 Hkey).
  assert (Hlen : (0 < String.length mask)%nat).
  { destruct mask; [now apply elem_of_nil in Hmask | simpl; lia]. }
  f_equal.
  - unfold Js.substring, Js.clamp.
    replace (Z.to_nat (Z.min (Z.max (-1) 0) (Z.of_nat (String.length key)))) with 0%nat
      by lia.
    replace (Z.to_nat (Z.min (Z.max 0 0) (Z.of_nat (String.length key)))) with 0%nat
      by lia.
    replace (-1 + Z.of_nat (String.length mask)) with (Z.of_nat (String.length mask) - 1)
      by lia.
    now rewrite Nat.min_0_r, Nat.max_0_r, Nat.min_0_l, Nat.max_0_l.
  - unfold Js.substring, Js.clamp.
    replace (Z.to_nat (Z.min (Z.max (-1 + 1) 0) (Z.of_nat (String.length key))))
      with 0%nat by lia.
    rewrite Nat.min_0_l, Nat.max_0_l, Nat.sub_0_r. apply substring_all.
Qed.

Lemma parseInfo_dotless_key_witness :
  parseInfo "version" "hostlist."
  = {| info_id := "version"; info_message := "version" |}
  ∧ parseInfo "hostlistupdated" "hostlist."
    = {| info_id := "hostlist"; info_message := "hostlistupdated" |}.
Proof.
  split.
  - apply (parseInfo_dotless_key "version" "hostlist.");
      apply (bool_decide_unpack _); vm_compute; exact I.
  - apply (parseInfo_dotless_key "hostlistupdated" "hostlist.");
      apply (bool_decide_unpack _); vm_compute; exact I.
Defined.

End DotlessKeys.
